(** * stonks: price resolution, retrying fetcher, update scheduler, sheet writer

    A shallow embedding of [stock_fetcher.py], [scheduler.py] and
    [sheets_client.py], and the properties of their decision logic.

    Layout: the Python values the code handles and the built-ins it calls
    ([float], [str.strip], [str.upper], [datetime] arithmetic), then the
    three classes function by function, then the lemmas. *)

From Stdlib Require Import ZArith Floats String Ascii Lia Bool.
From stdpp Require Import gmap strings list pretty.
From Equations Require Import Equations.

Open Scope Z_scope.

(** ** Python values *)

(** What a JSON-decoded quote record can hold under a key.  Python integers
    are unbounded, floats are IEEE binary64; [PyOther] stands for lists,
    dicts and every other object [float()] rejects with a [TypeError]. *)
Inductive pyval : Type :=
| PyNone
| PyBool (b : bool)
| PyInt (z : Z)
| PyFloat (f : float)
| PyStr (s : string)
| PyOther.

Inductive pyexc : Type :=
| ValueError
| TypeError
| OverflowError
| ZeroDivisionError.

(** An expression either evaluates or raises. *)
Inductive result (A : Type) : Type :=
| Ok (a : A)
| Raise (e : pyexc).
Arguments Ok {A} a.
Arguments Raise {A} e.

Definition result_bind {A B} (r : result A) (k : A → result B) : result B :=
  match r with
  | Ok a => k a
  | Raise e => Raise e
  end.

(** What the interpreter and the spreadsheet service do with text that the
    repository does not decide: how [float()] reads a string ([None] for a
    [ValueError]) and how a numeric cell is rendered when a row is read
    back. *)
Class Externals := {
  str_to_float : string → option float;
  format_number : float → string
}.

(** [float(n)] for an integer: nearest binary64, ties to even, and
    [OverflowError] when the nearest value is not finite. *)
Definition float_of_int (z : Z) : result float :=
  let f := SF2Prim (binary_normalize prec emax z 0 false) in
  if is_infinity f then Raise OverflowError else Ok f.

Definition py_float `{Externals} (v : pyval) : result float :=
  match v with
  | PyNone => Raise TypeError
  | PyBool b => Ok (if b then 1%float else 0%float)
  | PyInt z => float_of_int z
  | PyFloat f => Ok f
  | PyStr s =>
      match str_to_float s with
      | Some f => Ok f
      | None => Raise ValueError
      end
  | PyOther => Raise TypeError
  end.

Definition is_none (v : pyval) : bool :=
  match v with
  | PyNone => true
  | _ => false
  end.

(** [x > 0] on floats (false for a NaN). *)
Definition gt0 (x : float) : bool := PrimFloat.ltb 0 x.

(** ** Python strings

    A [str] is a sequence of Unicode code points; it is kept here as its
    UTF-8 encoding (a lone surrogate as the three bytes [surrogatepass]
    writes), so that equality, concatenation and dictionary keys are those
    of the text.  [str.strip] and [str.upper] work on characters: [chars]
    cuts the encoding into them. *)

(** The bytes a character takes, read off its first byte. *)
Definition char_width (c : ascii) : nat :=
  let b := N_of_ascii c in
  if (b <? 192)%N then 1%nat
  else if (b <? 224)%N then 2%nat
  else if (b <? 240)%N then 3%nat
  else 4%nat.

(** The characters of a string, each as its own encoding.  An encoding cut
    short by the end of the string is left as one piece. *)
Fixpoint chars (s : string) : list string :=
  match s with
  | EmptyString => []
  | String a r =>
      match char_width a, r with
      | 1%nat, _ => String a EmptyString :: chars r
      | 2%nat, String b r' => String a (String b EmptyString) :: chars r'
      | 3%nat, String b (String c r') =>
          String a (String b (String c EmptyString)) :: chars r'
      | 4%nat, String b (String c (String d r')) =>
          String a (String b (String c (String d EmptyString))) :: chars r'
      | _, _ => [s]
      end
  end.

(** [''.join(l)] *)
Definition join (l : list string) : string := foldr String.append EmptyString l.

(** A piece that holds all the bytes its first byte announces. *)
Definition is_complete (c : string) : bool :=
  match c with
  | EmptyString => false
  | String a _ => Nat.eqb (String.length c) (char_width a)
  end.

(** The UTF-8 encoding of a code point. *)
Definition utf8 (n : N) : string :=
  let byte (b : N) := ascii_of_N b in
  let cont (b : N) := ascii_of_N (128 + b mod 64) in
  (if n <? 128 then String (byte n) EmptyString
   else if n <? 2048 then String (byte (192 + n / 64)) (String (cont n) EmptyString)
   else if n <? 65536 then
     String (byte (224 + n / 4096))
       (String (cont (n / 64)) (String (cont n) EmptyString))
   else
     String (byte (240 + n / 262144))
       (String (cont (n / 4096))
          (String (cont (n / 64)) (String (cont n) EmptyString))))%N.

(** The number a piece of one to four bytes encodes. *)
Definition decode (c : string) : N :=
  let low (k : N) (a : ascii) := (N_of_ascii a mod k)%N in
  match c with
  | String a EmptyString => N_of_ascii a
  | String a (String b EmptyString) => (low 32 a * 64 + low 64 b)%N
  | String a (String b (String c EmptyString)) =>
      ((low 16 a * 64 + low 64 b) * 64 + low 64 c)%N
  | String a (String b (String c (String d EmptyString))) =>
      (((low 8 a * 64 + low 64 b) * 64 + low 64 c) * 64 + low 64 d)%N
  | _ => 0%N
  end.

(** The code point of a character: the piece is its encoding. *)
Definition code_point (c : string) : option N :=
  let n := decode c in
  if is_complete c && String.eqb (utf8 n) c then Some n else None.

(** [str.isspace] of a character, which is what [str.strip()] removes: in
    ASCII TAB, LF, VT, FF, CR, FS, GS, RS, US and the space; beyond it
    U+0085, U+00A0, U+1680, U+2000..U+200A, U+2028, U+2029, U+202F, U+205F
    and U+3000. *)
Definition isspace (n : N) : bool :=
  ((9 <=? n) && (n <=? 13) || (28 <=? n) && (n <=? 32)
   || (n =? 133) || (n =? 160) || (n =? 5760)
   || (8192 <=? n) && (n <=? 8202)
   || (n =? 8232) || (n =? 8233) || (n =? 8239) || (n =? 8287) || (n =? 12288))%N.

Definition char_isspace (c : string) : bool :=
  match code_point c with
  | Some n => isspace n
  | None => false
  end.

(** Dropping the white space at the head and at the end of a list of
    characters. *)
Fixpoint lstrip (l : list string) : list string :=
  match l with
  | [] => []
  | c :: r => if char_isspace c then lstrip r else l
  end.

Fixpoint rstrip (l : list string) : list string :=
  match l with
  | [] => []
  | c :: r =>
      match rstrip r with
      | [] => if char_isspace c then [] else [c]
      | r' => c :: r'
      end
  end.

(** [s.strip()] *)
Definition strip (s : string) : string := join (rstrip (lstrip (chars s))).

(** The upper-case mapping of single code points, as [str.upper] applies
    it (Unicode 14.0, the version of CPython 3.11).  [upper_ranges] lists
    the code points with a one-character upper case as runs
    [(first, count, step, upper case of first)], the upper cases of a run
    in step with it; [upper_special] lists those whose upper case is
    several characters.  Any other code point has no upper case of its
    own. *)
Definition upper_ranges : list (N * N * N * N) :=
  [(97, 26, 1, 65); (181, 1, 1, 924); (224, 23, 1, 192); (248, 7, 1, 216);
   (255, 1, 1, 376); (257, 24, 2, 256); (305, 1, 1, 73); (307, 3, 2, 306);
   (314, 8, 2, 313); (331, 23, 2, 330); (378, 3, 2, 377); (383, 1, 1, 83);
   (384, 1, 1, 579); (387, 2, 2, 386); (392, 1, 1, 391); (396, 1, 1, 395);
   (402, 1, 1, 401); (405, 1, 1, 502); (409, 1, 1, 408); (410, 1, 1, 573);
   (414, 1, 1, 544); (417, 3, 2, 416); (424, 1, 1, 423); (429, 1, 1, 428);
   (432, 1, 1, 431); (436, 2, 2, 435); (441, 1, 1, 440); (445, 1, 1, 444);
   (447, 1, 1, 503); (453, 1, 1, 452); (454, 1, 1, 452); (456, 1, 1, 455);
   (457, 1, 1, 455); (459, 1, 1, 458); (460, 1, 1, 458); (462, 8, 2, 461);
   (477, 1, 1, 398); (479, 9, 2, 478); (498, 1, 1, 497); (499, 1, 1, 497);
   (501, 1, 1, 500); (505, 20, 2, 504); (547, 9, 2, 546); (572, 1, 1, 571);
   (575, 2, 1, 11390); (578, 1, 1, 577); (583, 5, 2, 582); (592, 1, 1, 11375);
   (593, 1, 1, 11373); (594, 1, 1, 11376); (595, 1, 1, 385); (596, 1, 1, 390);
   (598, 2, 1, 393); (601, 1, 1, 399); (603, 1, 1, 400); (604, 1, 1, 42923);
   (608, 1, 1, 403); (609, 1, 1, 42924); (611, 1, 1, 404); (613, 1, 1, 42893);
   (614, 1, 1, 42922); (616, 1, 1, 407); (617, 1, 1, 406); (618, 1, 1, 42926);
   (619, 1, 1, 11362); (620, 1, 1, 42925); (623, 1, 1, 412); (625, 1, 1, 11374);
   (626, 1, 1, 413); (629, 1, 1, 415); (637, 1, 1, 11364); (640, 1, 1, 422);
   (642, 1, 1, 42949); (643, 1, 1, 425); (647, 1, 1, 42929); (648, 1, 1, 430);
   (649, 1, 1, 580); (650, 2, 1, 433); (652, 1, 1, 581); (658, 1, 1, 439);
   (669, 1, 1, 42930); (670, 1, 1, 42928); (837, 1, 1, 921); (881, 2, 2, 880);
   (887, 1, 1, 886); (891, 3, 1, 1021); (940, 1, 1, 902); (941, 3, 1, 904);
   (945, 17, 1, 913); (962, 1, 1, 931); (963, 9, 1, 931); (972, 1, 1, 908);
   (973, 2, 1, 910); (976, 1, 1, 914); (977, 1, 1, 920); (981, 1, 1, 934);
   (982, 1, 1, 928); (983, 1, 1, 975); (985, 12, 2, 984); (1008, 1, 1, 922);
   (1009, 1, 1, 929); (1010, 1, 1, 1017); (1011, 1, 1, 895); (1013, 1, 1, 917);
   (1016, 1, 1, 1015); (1019, 1, 1, 1018); (1072, 32, 1, 1040); (1104, 16, 1, 1024);
   (1121, 17, 2, 1120); (1163, 27, 2, 1162); (1218, 7, 2, 1217); (1231, 1, 1, 1216);
   (1233, 48, 2, 1232); (1377, 38, 1, 1329); (4304, 43, 1, 7312); (4349, 3, 1, 7357);
   (5112, 6, 1, 5104); (7296, 1, 1, 1042); (7297, 1, 1, 1044); (7298, 1, 1, 1054);
   (7299, 2, 1, 1057); (7301, 1, 1, 1058); (7302, 1, 1, 1066); (7303, 1, 1, 1122);
   (7304, 1, 1, 42570); (7545, 1, 1, 42877); (7549, 1, 1, 11363); (7566, 1, 1, 42950);
   (7681, 75, 2, 7680); (7835, 1, 1, 7776); (7841, 48, 2, 7840); (7936, 8, 1, 7944);
   (7952, 6, 1, 7960); (7968, 8, 1, 7976); (7984, 8, 1, 7992); (8000, 6, 1, 8008);
   (8017, 4, 2, 8025); (8032, 8, 1, 8040); (8048, 2, 1, 8122); (8050, 4, 1, 8136);
   (8054, 2, 1, 8154); (8056, 2, 1, 8184); (8058, 2, 1, 8170); (8060, 2, 1, 8186);
   (8112, 2, 1, 8120); (8126, 1, 1, 921); (8144, 2, 1, 8152); (8160, 2, 1, 8168);
   (8165, 1, 1, 8172); (8526, 1, 1, 8498); (8560, 16, 1, 8544); (8580, 1, 1, 8579);
   (9424, 26, 1, 9398); (11312, 48, 1, 11264); (11361, 1, 1, 11360);
   (11365, 1, 1, 570); (11366, 1, 1, 574); (11368, 3, 2, 11367); (11379, 1, 1, 11378);
   (11382, 1, 1, 11381); (11393, 50, 2, 11392); (11500, 2, 2, 11499);
   (11507, 1, 1, 11506); (11520, 38, 1, 4256); (11559, 1, 1, 4295);
   (11565, 1, 1, 4301); (42561, 23, 2, 42560); (42625, 14, 2, 42624);
   (42787, 7, 2, 42786); (42803, 31, 2, 42802); (42874, 2, 2, 42873);
   (42879, 5, 2, 42878); (42892, 1, 1, 42891); (42897, 2, 2, 42896);
   (42900, 1, 1, 42948); (42903, 10, 2, 42902); (42933, 8, 2, 42932);
   (42952, 2, 2, 42951); (42961, 1, 1, 42960); (42967, 2, 2, 42966);
   (42998, 1, 1, 42997); (43859, 1, 1, 42931); (43888, 80, 1, 5024);
   (65345, 26, 1, 65313); (66600, 40, 1, 66560); (66776, 36, 1, 66736);
   (66967, 19, 2, 66928); (66968, 5, 2, 66929); (66980, 7, 2, 66941);
   (66996, 3, 2, 66957); (67004, 1, 1, 66965); (68800, 51, 1, 68736);
   (71872, 32, 1, 71840); (93792, 32, 1, 93760); (125218, 34, 1, 125184)]%N.

Definition upper_special : list (N * list N) :=
  [(223, [83; 83]); (329, [700; 78]); (496, [74; 780]); (912, [921; 776; 769]);
   (944, [933; 776; 769]); (1415, [1333; 1362]); (7830, [72; 817]); (7831, [84; 776]);
   (7832, [87; 778]); (7833, [89; 778]); (7834, [65; 702]); (8016, [933; 787]);
   (8018, [933; 787; 768]); (8020, [933; 787; 769]); (8022, [933; 787; 834]);
   (8064, [7944; 921]); (8065, [7945; 921]); (8066, [7946; 921]); (8067, [7947; 921]);
   (8068, [7948; 921]); (8069, [7949; 921]); (8070, [7950; 921]); (8071, [7951; 921]);
   (8072, [7944; 921]); (8073, [7945; 921]); (8074, [7946; 921]); (8075, [7947; 921]);
   (8076, [7948; 921]); (8077, [7949; 921]); (8078, [7950; 921]); (8079, [7951; 921]);
   (8080, [7976; 921]); (8081, [7977; 921]); (8082, [7978; 921]); (8083, [7979; 921]);
   (8084, [7980; 921]); (8085, [7981; 921]); (8086, [7982; 921]); (8087, [7983; 921]);
   (8088, [7976; 921]); (8089, [7977; 921]); (8090, [7978; 921]); (8091, [7979; 921]);
   (8092, [7980; 921]); (8093, [7981; 921]); (8094, [7982; 921]); (8095, [7983; 921]);
   (8096, [8040; 921]); (8097, [8041; 921]); (8098, [8042; 921]); (8099, [8043; 921]);
   (8100, [8044; 921]); (8101, [8045; 921]); (8102, [8046; 921]); (8103, [8047; 921]);
   (8104, [8040; 921]); (8105, [8041; 921]); (8106, [8042; 921]); (8107, [8043; 921]);
   (8108, [8044; 921]); (8109, [8045; 921]); (8110, [8046; 921]); (8111, [8047; 921]);
   (8114, [8122; 921]); (8115, [913; 921]); (8116, [902; 921]); (8118, [913; 834]);
   (8119, [913; 834; 921]); (8124, [913; 921]); (8130, [8138; 921]);
   (8131, [919; 921]); (8132, [905; 921]); (8134, [919; 834]); (8135, [919; 834; 921]);
   (8140, [919; 921]); (8146, [921; 776; 768]); (8147, [921; 776; 769]);
   (8150, [921; 834]); (8151, [921; 776; 834]); (8162, [933; 776; 768]);
   (8163, [933; 776; 769]); (8164, [929; 787]); (8166, [933; 834]);
   (8167, [933; 776; 834]); (8178, [8186; 921]); (8179, [937; 921]);
   (8180, [911; 921]); (8182, [937; 834]); (8183, [937; 834; 921]); (8188, [937; 921]);
   (64256, [70; 70]); (64257, [70; 73]); (64258, [70; 76]); (64259, [70; 70; 73]);
   (64260, [70; 70; 76]); (64261, [83; 84]); (64262, [83; 84]); (64275, [1348; 1350]);
   (64276, [1348; 1333]); (64277, [1348; 1339]); (64278, [1358; 1350]);
   (64279, [1348; 1341])]%N.

Definition expand_range (r : N * N * N * N) : list (N * list N) :=
  let '(first, count, step, target) := r in
  (λ k : nat, (first + N.of_nat k * step, [target + N.of_nat k * step])%N)
    <$> seq 0 (N.to_nat count).

Definition upper_table : list (N * list N) :=
  upper_special ++ (upper_ranges ≫= expand_range).

Fixpoint assoc (n : N) (table : list (N * list N)) : option (list N) :=
  match table with
  | [] => None
  | (k, v) :: rest => if (n =? k)%N then Some v else assoc n rest
  end.

(** The upper case of a code point that has one. *)
Definition case_upper (n : N) : option (list N) := assoc n upper_table.

(** [c.upper()] for one character, as the characters it is made of. *)
Definition upper_char (c : string) : list string :=
  match code_point c ≫= case_upper with
  | Some ms => utf8 <$> ms
  | None => [c]
  end.

(** [s.upper()]: character by character, whatever stands around it. *)
Definition upper (s : string) : string := join (chars s ≫= upper_char).

(** Truth value of a string: [not s] holds exactly for the empty one. *)
Definition str_truthy (s : string) : bool :=
  match s with
  | EmptyString => false
  | _ => true
  end.

Definition whitespace_only (s : string) : bool := forallb char_isspace (chars s).

(** The text made of the given code points. *)
Definition text (code_points : list Z) : string :=
  join ((λ n, utf8 (Z.to_N n)) <$> code_points).

(** ** The data provider and the clock, as the fetcher sees them *)

(** The quote record of one ticker: [yf.Ticker(t).info]. *)
Abbreviation quote_record := (gmap string pyval).

(** One evaluation of [yf.Ticker(t).info]: it raises, or it returns a value
    that is [None] or a dictionary. *)
Inductive lookup_outcome : Type :=
| LookupRaises
| LookupReturns (info : option quote_record).

(** The provider is an opaque stateful collaborator: what it answers may
    depend on everything it was asked before. *)
Class DataProvider := {
  provider_state : Type;
  provider_info : string → provider_state → lookup_outcome * provider_state
}.

(** The constants of [config.py] are parameters of the development.
    [RETRY_DELAY_SECONDS] is a duration: [time.sleep] accepts no negative
    one. *)
Class Config := {
  MAX_RETRIES : Z;
  RETRY_DELAY_SECONDS : N;
  MARKET_OPEN_HOUR : Z;
  MARKET_CLOSE_HOUR : Z;
  UPDATE_INTERVAL_MINUTES : Z
}.

(** What a run of the fetcher does to the outside, in order. *)
Inductive event : Type :=
| EvLookup (ticker : string)
| EvSleep (seconds : N).

Record world `{DataProvider} : Type := World {
  provider : provider_state;
  trace : list event
}.

(** Effectful code threads the world. *)
Definition fetch `{DataProvider} (A : Type) : Type := world → A * world.

#[global] Instance fetch_ret `{DataProvider} : MRet fetch :=
  λ A a w, (a, w).
#[global] Instance fetch_bind `{DataProvider} : MBind fetch :=
  λ A B k m w, let '(a, w') := m w in k a w'.

Definition yf_Ticker_info `{DataProvider} (ticker : string) : fetch lookup_outcome :=
  λ w, let '(o, p) := provider_info ticker (provider w) in
       (o, World _ p (trace w ++ [EvLookup ticker])).

Definition time_sleep `{DataProvider} (seconds : N) : fetch unit :=
  λ w, (tt, World _ (provider w) (trace w ++ [EvSleep seconds])).

(** ** stock_fetcher.py *)

Definition price_fields : list string :=
  ["currentPrice"; "regularMarketPrice"; "previousClose"; "open"]%string.

(** The loop over [price_fields].  [Ok (Some p)] is the [return price] in
    the loop body, [Ok None] is falling out of the loop, [Raise e] an
    exception that [except (ValueError, TypeError)] does not catch. *)
Fixpoint try_price_fields `{Externals} (fields : list string) (info : quote_record)
  : result (option float) :=
  match fields with
  | [] => Ok None
  | field :: rest =>
      match info !! field with
      | Some v =>
          if is_none v then try_price_fields rest info
          else
            match py_float v with
            | Ok price => if gt0 price then Ok (Some price) else try_price_fields rest info
            | Raise ValueError | Raise TypeError => try_price_fields rest info
            | Raise e => Raise e
            end
      | None => try_price_fields rest info
      end
  end.

(** [float(x) if x is not None else 0] *)
Definition float_or_zero `{Externals} (v : pyval) : result float :=
  if is_none v then Ok 0%float else py_float v.

(** The bid/ask fallback after the loop. *)
Definition bid_ask_fallback `{Externals} (info : quote_record) : result (option float) :=
  match info !! "bid"%string, info !! "ask"%string with
  | Some b, Some a =>
      match
        result_bind (float_or_zero b) (λ bid,
        result_bind (float_or_zero a) (λ ask,
        if gt0 bid && gt0 ask then Ok (Some ((bid + ask) / 2)%float) else Ok None))
      with
      | Raise ValueError | Raise TypeError => Ok None
      | r => r
      end
  | _, _ => Ok None
  end.

Definition _extract_price_from_info `{Externals} (info : quote_record)
  : result (option float) :=
  match try_price_fields price_fields info with
  | Ok None => bid_ask_fallback info
  | r => r
  end.

(** [not info]: [None] and the empty dictionary are the falsy records. *)
Definition info_falsy (info : option quote_record) : bool :=
  match info with
  | None => true
  | Some d => bool_decide (d = ∅)
  end.

Section Fetcher.
Context `{Externals} `{DataProvider} `{Config}.

(** The tail of the loop body of [get_ticker_price]. *)
Definition sleep_before_retry (attempt : Z) : fetch unit :=
  if attempt <? MAX_RETRIES - 1 then time_sleep RETRY_DELAY_SECONDS else mret tt.

(** [for attempt in range(MAX_RETRIES)], over the attempts still to run. *)
Fixpoint attempt_loop (attempts : list Z) (ticker : string) : fetch (option float) :=
  match attempts with
  | [] => mret None
  | attempt :: rest =>
      o ← yf_Ticker_info ticker;
      match o with
      | LookupReturns info =>
          if info_falsy info then attempt_loop rest ticker
          else
            match _extract_price_from_info (default ∅ info) with
            | Ok (Some price) => mret (Some price)
            | Ok None | Raise _ =>
                sleep_before_retry attempt;; attempt_loop rest ticker
            end
      | LookupRaises =>
          sleep_before_retry attempt;; attempt_loop rest ticker
      end
  end.

Definition get_ticker_price (ticker : string) : fetch (option float) :=
  if negb (str_truthy ticker) || bool_decide (strip ticker = ""%string)
  then mret None
  else attempt_loop (seqZ 0 MAX_RETRIES) (upper (strip ticker)).

Definition get_exchange_rate (currency_pair : string) : fetch (option float) :=
  o ← yf_Ticker_info currency_pair;
  mret match o with
       | LookupReturns (Some info) =>
           if negb (info_falsy (Some info)) then
             match info !! "previousClose"%string with
             | Some v =>
                 match py_float v with
                 | Ok rate => Some rate
                 | Raise _ => None
                 end
             | None => None
             end
           else None
       | _ => None
       end.

(** The loop of [get_multiple_prices] over the tickers still to fetch;
    [results] is the dictionary built so far, a [None] price is a present
    entry whose value is [None]. *)
Fixpoint fetch_each (tickers : list string) (results : gmap string (option float))
  : fetch (gmap string (option float)) :=
  match tickers with
  | [] => mret results
  | ticker :: rest =>
      if str_truthy ticker && str_truthy (strip ticker) then
        price ← get_ticker_price ticker;
        fetch_each rest (<[ticker := price]> results)
      else fetch_each rest (<[ticker := None]> results)
  end.

Definition get_multiple_prices (tickers : list string)
  : fetch (gmap string (option float)) :=
  fetch_each tickers ∅.
End Fetcher.

(** ** Naive [datetime] values and [timedelta]

    A naive [datetime] is a calendar day and a time of day; the day is kept
    as its proleptic ordinal, since the scheduler only ever moves by hours
    and days.  The year range of [datetime] is not modelled.  A [timedelta]
    is a number of microseconds. *)
Record datetime : Type := DateTime {
  ordinal : Z;
  hour : Z;
  minute : Z;
  second : Z;
  microsecond : Z
}.

Record valid_datetime (d : datetime) : Prop := {
  hour_range : 0 ≤ hour d < 24;
  minute_range : 0 ≤ minute d < 60;
  second_range : 0 ≤ second d < 60;
  microsecond_range : 0 ≤ microsecond d < 1000000
}.

Definition timedelta : Type := Z.

Definition timedelta_minutes (m : Z) : timedelta := m * 60000000.
Definition timedelta_hours (h : Z) : timedelta := h * 3600000000.

(** Microseconds since midnight of ordinal day 0. *)
Definition to_microseconds (d : datetime) : Z :=
  (((ordinal d * 24 + hour d) * 60 + minute d) * 60 + second d) * 1000000
  + microsecond d.

Definition of_microseconds (u : Z) : datetime :=
  {| ordinal := u / 86400000000;
     hour := (u / 3600000000) mod 24;
     minute := (u / 60000000) mod 60;
     second := (u / 1000000) mod 60;
     microsecond := u mod 1000000 |}.

(** [a - b] and [d + td] *)
Definition datetime_sub (a b : datetime) : timedelta :=
  to_microseconds a - to_microseconds b.
Definition datetime_add (d : datetime) (td : timedelta) : datetime :=
  of_microseconds (to_microseconds d + td).

(** [d.replace(minute=m, second=0, microsecond=0)]; a minute outside
    [0..59] is a [ValueError]. *)
Definition replace_minute (d : datetime) (m : Z) : result datetime :=
  if (0 <=? m) && (m <? 60)
  then Ok {| ordinal := ordinal d; hour := hour d; minute := m;
             second := 0; microsecond := 0 |}
  else Raise ValueError.

(** [int(td.total_seconds())]: the float quotient by [10**6] is exact to
    well below one microsecond for any span the scheduler computes, so the
    truncation is that of the integer quotient, toward zero. *)
Definition int_total_seconds (td : timedelta) : Z := Z.quot td 1000000.

(** [a // b] *)
Definition py_floordiv (a b : Z) : result Z :=
  if b =? 0 then Raise ZeroDivisionError else Ok (a / b).

(** ** scheduler.py *)

Record UpdateScheduler : Type := Scheduler {
  last_update : option datetime
}.

Section SchedulerDefs.
Context `{Config}.

Definition _is_outside_market_hours (current_time : datetime) : bool :=
  (hour current_time <? MARKET_OPEN_HOUR) || (MARKET_CLOSE_HOUR <=? hour current_time).

Definition _calculate_wait_until_next_interval (current_time : datetime) : result Z :=
  let minutes_past_hour := minute current_time in
  result_bind (py_floordiv minutes_past_hour UPDATE_INTERVAL_MINUTES) (λ q,
  let next_interval := (q + 1) * UPDATE_INTERVAL_MINUTES in
  result_bind
    (if 60 <=? next_interval
     then replace_minute (datetime_add current_time (timedelta_hours 1)) 0
     else replace_minute current_time next_interval) (λ target_time,
  let wait_seconds := int_total_seconds (datetime_sub target_time current_time) in
  Ok (Z.max 0 wait_seconds))).

(** [datetime.now()] is the argument [current_time]. *)
Definition should_update (self : UpdateScheduler) (current_time : datetime)
    (force : bool) : bool :=
  if force then true
  else if _is_outside_market_hours current_time then false
  else
    match last_update self with
    | None => true
    | Some last =>
        let time_since_last := datetime_sub current_time last in
        let min_interval := timedelta_minutes UPDATE_INTERVAL_MINUTES in
        min_interval <=? time_since_last
    end.

Definition mark_update_completed (self : UpdateScheduler) (current_time : datetime)
  : UpdateScheduler :=
  {| last_update := Some current_time |}.
End SchedulerDefs.

(** ** The worksheet, as [sheets_client.py] uses it

    Cells are addressed by 1-based (row, column); a cell not in the map is
    blank.  The sheet is reached through a service that can fail:
    [outages] says of each coming request whether it fails, and a request
    past the end of the list goes through.  A request that fails raises in
    the client and changes no cell.  A batch write names its cells in A1
    notation, which the service resolves. *)
Inductive cell : Type :=
| CellText (s : string)
| CellNumber (f : float).

Record worksheet : Type := Worksheet {
  cells : gmap (Z * Z) cell;
  outages : list bool
}.

#[global] Instance worksheet_empty : Empty worksheet := Worksheet ∅ [].
#[global] Instance worksheet_lookup : Lookup (Z * Z) cell worksheet :=
  λ rc ws, cells ws !! rc.
#[global] Instance worksheet_insert : Insert (Z * Z) cell worksheet :=
  λ rc value ws, Worksheet (<[rc := value]> (cells ws)) (outages ws).

(** Whether the next request fails, and the sheet once it was made. *)
Definition request_fails (ws : worksheet) : bool :=
  match outages ws with
  | true :: _ => true
  | _ => false
  end.
Definition after_request (ws : worksheet) : worksheet :=
  Worksheet (cells ws) (tail (outages ws)).

(** A number the client can send: the body of a request is JSON, which has
    neither infinities nor NaN, and the client raises on them. *)
Definition json_number (f : float) : bool := is_finite f.

Definition cell_text `{Externals} (c : option cell) : string :=
  match c with
  | None => EmptyString
  | Some (CellText s) => s
  | Some (CellNumber f) => format_number f
  end.

(** The right-most column holding a cell in [row] (0 for an empty row). *)
Definition last_column (ws : worksheet) (row : Z) : Z :=
  map_fold (λ rc _ acc, if rc.1 =? row then Z.max rc.2 acc else acc) 0 (cells ws).

(** [worksheet.row_values(row)], when the request goes through: the row's
    cells as text, left to right up to its last cell, a blank cell as the
    empty string. *)
Definition row_values `{Externals} (ws : worksheet) (row : Z) : list string :=
  (λ col, cell_text (ws !! (row, col))) <$> seqZ 1 (last_column ws row).

Definition is_upper_letter (c : ascii) : bool :=
  let n := nat_of_ascii c in (65 <=? n)%nat && (n <=? 90)%nat.

Definition is_digit (c : ascii) : bool :=
  let n := nat_of_ascii c in (48 <=? n)%nat && (n <=? 57)%nat.

(** The value of a column label: letters are the digits 1..26 of a base-26
    numeral without zero, most significant first. *)
Fixpoint column_number_from (acc : Z) (letters : string) : Z :=
  match letters with
  | EmptyString => acc
  | String c r => column_number_from (acc * 26 + (Z.of_nat (nat_of_ascii c) - 64)) r
  end.
Definition column_number (letters : string) : Z := column_number_from 0 letters.

Fixpoint decimal_from (acc : Z) (digits : string) : option Z :=
  match digits with
  | EmptyString => Some acc
  | String c r =>
      if is_digit c then decimal_from (acc * 10 + (Z.of_nat (nat_of_ascii c) - 48)) r
      else None
  end.

(** A row number: decimal digits, the first one not 0. *)
Definition row_number (digits : string) : option Z :=
  match digits with
  | EmptyString => None
  | String c _ => if Ascii.eqb c "0" then None else decimal_from 0 digits
  end.

Fixpoint split_label (label : string) : string * string :=
  match label with
  | EmptyString => (EmptyString, EmptyString)
  | String c r =>
      if is_upper_letter c
      then let '(letters, digits) := split_label r in (String c letters, digits)
      else (EmptyString, label)
  end.

(** A1 notation to (row, column): upper-case letters, then a row number. *)
Definition a1_to_rowcol (label : string) : option (Z * Z) :=
  let '(letters, digits) := split_label label in
  match letters with
  | EmptyString => None
  | _ => row ← row_number digits; Some (row, column_number letters)
  end.

(** What the service does with a batch it accepts: every range is resolved,
    then every value is written, in order; a range that is no cell address
    fails the whole batch. *)
Fixpoint write_ranges (updates : list (string * float)) (cs : gmap (Z * Z) cell)
  : option (gmap (Z * Z) cell) :=
  match updates with
  | [] => Some cs
  | (range, value) :: rest =>
      rc ← a1_to_rowcol range;
      write_ranges rest (<[rc := CellNumber value]> cs)
  end.

(** [worksheet.batch_update(updates)]; [false] stands for an exception.
    The body is built first, and a value that is no JSON number raises
    before anything is sent.  A request that fails, or that the service
    rejects, writes nothing. *)
Definition batch_update (updates : list (string * float)) (ws : worksheet)
  : bool * worksheet :=
  if forallb (λ u, json_number u.2) updates then
    if request_fails ws then (false, after_request ws)
    else
      match write_ranges updates (cells ws) with
      | Some cs => (true, Worksheet cs (tail (outages ws)))
      | None => (false, after_request ws)
      end
  else (false, ws).

(** ** sheets_client.py *)

Definition chr (n : Z) : ascii := ascii_of_nat (Z.to_nat n).

(** The [while col_num > 0] loop of [_get_column_letter], on the loop
    variables. *)
Equations? column_letter_loop (col_num : Z) (string : string) : String.string
  by wf (Z.to_nat col_num) lt :=
  column_letter_loop col_num string with decide (0 < col_num) := {
    | left _ =>
        column_letter_loop ((col_num - 1) / 26)
          (String (chr (65 + (col_num - 1) mod 26)) string);
    | right _ => string }.
Proof.
  assert ((col_num - 1) / 26 < col_num); [|lia].
  apply Z.div_lt_upper_bound; lia.
Qed.

Definition _get_column_letter (col_num : Z) : string :=
  column_letter_loop col_num EmptyString.

Section SheetsDefs.
Context `{Externals}.

(** [get_tickers]: the row's non-blank entries, stripped, and the empty
    list when the request fails.  Reading changes no cell: the sheet after
    the call is [after_request ws]. *)
Definition get_tickers (ws : worksheet) (row : Z) : list string :=
  if request_fails ws then []
  else strip <$> filter (λ ticker, str_truthy (strip ticker) = true) (row_values ws row).

(** The loop of [update_prices] over [enumerate(tickers, start=1)], from
    [col_index] on. *)
Fixpoint prepare_updates (ticker_prices : gmap string (option float))
    (price_row : Z) (col_index : Z) (tickers : list string) : list (string * float) :=
  match tickers with
  | [] => []
  | ticker :: rest =>
      match ticker_prices !! ticker with
      | Some (Some price) =>
          let cell_address := (_get_column_letter col_index +:+ pretty price_row)%string in
          (cell_address, price)
            :: prepare_updates ticker_prices price_row (col_index + 1) rest
      | _ => prepare_updates ticker_prices price_row (col_index + 1) rest
      end
  end.

Definition update_prices (ticker_prices : gmap string (option float))
    (ticker_row price_row : Z) (ws : worksheet) : bool * worksheet :=
  let tickers := get_tickers ws ticker_row in
  let ws := after_request ws in
  let updates := prepare_updates ticker_prices price_row 1 tickers in
  match updates with
  | [] => (false, ws)
  | _ => batch_update updates ws
  end.
End SheetsDefs.

(** ** Vocabulary of the properties *)

(** A field of a quote record is usable with price [p]: present, not
    [None], convertible by [float()], and the result is above zero. *)
Definition usable `{Externals} (info : gmap string pyval) (field : string) (p : float)
  : Prop :=
  ∃ v, info !! field = Some v ∧ v ≠ PyNone ∧ py_float v = Ok p ∧ gt0 p = true.

Definition unusable `{Externals} (info : gmap string pyval) (field : string) : Prop :=
  ∀ p, ¬ usable info field p.

(** No field among [fields] holds an integer beyond the range of a float. *)
Definition no_overflow `{Externals} (info : gmap string pyval) (fields : list string)
  : Prop :=
  ∀ field v, field ∈ fields → info !! field = Some v →
             py_float v ≠ Raise OverflowError.

Definition is_lookup (e : event) : bool :=
  match e with
  | EvLookup _ => true
  | EvSleep _ => false
  end.

Definition is_sleep (e : event) : bool :=
  match e with
  | EvLookup _ => false
  | EvSleep _ => true
  end.

Definition lookups (tr : list event) : nat := length (filter (λ e, is_lookup e = true) tr).
Definition sleeps (tr : list event) : nat := length (filter (λ e, is_sleep e = true) tr).

(** The retry policy in the specification's words: [n] attempts with a
    pause between any two of them and none after the last. *)
Definition retry_trace (ticker : string) (delay : N) (n : nat) : list event :=
  concat (replicate (n - 1)%nat [EvLookup ticker; EvSleep delay]) ++ [EvLookup ticker].

(** A provider that never answers with [None] or an empty record. *)
Definition never_falsy `{DataProvider} : Prop :=
  ∀ ticker s info, (provider_info ticker s).1 = LookupReturns info →
                   info_falsy info = false.

(** A provider whose answer for a ticker does not depend on its state. *)
Definition memoryless `{DataProvider} : Prop :=
  ∀ ticker s s', (provider_info ticker s).1 = (provider_info ticker s').1.

(** The start of the hour of [d], in microseconds. *)
Definition top_of_hour (d : datetime) : Z :=
  to_microseconds
    {| ordinal := ordinal d; hour := hour d; minute := 0; second := 0; microsecond := 0 |}.

(** The update boundaries of the hour of [d] in the specification's words:
    the whole multiples of [UPDATE_INTERVAL_MINUTES] past the top of the
    hour, one that would fall 60 minutes or more into the hour being the
    top of the next hour. *)
Definition interval_boundary `{Config} (d : datetime) (t : Z) : Prop :=
  ∃ k, 0 ≤ k
       ∧ t = top_of_hour d + timedelta_minutes (Z.min 60 (k * UPDATE_INTERVAL_MINUTES)).

(** A column label: upper-case letters only. *)
Fixpoint all_upper_letters (s : string) : bool :=
  match s with
  | EmptyString => true
  | String c r => is_upper_letter c && all_upper_letters r
  end.

(** A list of pieces that is the list of characters of its concatenation. *)
Definition well_chunked (l : list string) : Prop := chars (join l) = l.

(** What holds of every entry of the upper-case table: the code point is no
    white space; its upper case is one character or more, each of them
    encoded in full, read back from its encoding, no white space and its
    own upper case. *)
Definition upper_entry_ok (entry : N * list N) : bool :=
  negb (isspace entry.1)
  && match entry.2 with [] => false | _ => true end
  && forallb (λ m, is_complete (utf8 m) && (decode (utf8 m) =? m)%N
                   && negb (isspace m) && bool_decide (case_upper m = None)) entry.2.

(** The next [n] requests to the sheet service all go through. *)
Definition answers (n : nat) (ws : worksheet) : Prop :=
  Forall (λ fails, fails = false) (take n (outages ws)).

(** A row without a blank cell up to its last one. *)
Definition dense_row `{Externals} (ws : worksheet) (row : Z) : Prop :=
  ∀ t, t ∈ row_values ws row → strip t ≠ EmptyString.

(** ** Concrete collaborators, to run the code on examples *)

(** An interpreter fragment: [float()] of a string reads unsigned decimal
    integers and rejects everything else; a numeric cell reads back as
    ["#"].  No example has a string to convert or reads a numeric cell. *)
Definition sample_externals : Externals :=
  {| str_to_float s :=
       match s with
       | EmptyString => None
       | _ =>
           match decimal_from 0 s with
           | Some z =>
               match float_of_int z with
               | Ok f => Some f
               | Raise _ => None
               end
           | None => None
           end
       end;
     format_number _ := "#"%string |}.

(** A provider that plays a script: each lookup consumes the next outcome,
    whatever the ticker; an exhausted script raises. *)
Definition scripted_provider : DataProvider :=
  {| provider_state := list lookup_outcome;
     provider_info _ script :=
       match script with
       | [] => (LookupRaises, [])
       | o :: rest => (o, rest)
       end |}.

(** A provider without memory: a fixed answer per ticker. *)
Definition table_provider (table : string → lookup_outcome) : DataProvider :=
  {| provider_state := unit;
     provider_info ticker _ := (table ticker, tt) |}.

(** Sample answers of the provider. *)
Definition empty_record : lookup_outcome := LookupReturns (Some ∅).
Definition quote_at (price : float) : lookup_outcome :=
  LookupReturns (Some {[ "currentPrice"%string := PyFloat price ]}).

(** A provider that knows MSFT and fails on every other ticker. *)
Definition msft_only (ticker : string) : lookup_outcome :=
  if bool_decide (ticker = "MSFT"%string) then quote_at 5 else LookupRaises.

Definition msft_only_provider : DataProvider := table_provider msft_only.

(** Three attempts two seconds apart, the market from 9 to 16, an update
    every ten minutes. *)
Definition sample_config : Config :=
  {| MAX_RETRIES := 3;
     RETRY_DELAY_SECONDS := 2;
     MARKET_OPEN_HOUR := 9;
     MARKET_CLOSE_HOUR := 16;
     UPDATE_INTERVAL_MINUTES := 10 |}.

(** A time of day on ordinal day [day]. *)
Definition at_time (day h m s us : Z) : datetime :=
  {| ordinal := day; hour := h; minute := m; second := s; microsecond := us |}.

(** A sheet with tickers in row 1 and prices in row 2, column B unused:
<<
        A      B      C
   1    AAPL          MSFT
   2    1.0           2.0
>> *)
Definition gapped_sheet : worksheet :=
  <[(1, 1) := CellText "AAPL"]> (<[(1, 3) := CellText "MSFT"]>
  (<[(2, 1) := CellNumber 1]> (<[(2, 3) := CellNumber 2]> ∅))).

(** ** scheduler.py, the waits and the next update time *)

Definition timedelta_days (n : Z) : timedelta := n * 86400000000.

(** [d.replace(hour=h, minute=0, second=0, microsecond=0)]; an hour outside
    [0..23] is a [ValueError]. *)
Definition replace_hour (d : datetime) (h : Z) : result datetime :=
  if (0 <=? h) && (h <? 24)
  then Ok {| ordinal := ordinal d; hour := h; minute := 0;
             second := 0; microsecond := 0 |}
  else Raise ValueError.

Section SchedulerWaits.
Context `{Config}.

Definition _calculate_wait_until_market_open (current_time : datetime) : result Z :=
  let hour := hour current_time in
  result_bind
    (if hour <? MARKET_OPEN_HOUR
     then replace_hour current_time MARKET_OPEN_HOUR
     else
       let tomorrow := datetime_add current_time (timedelta_days 1) in
       replace_hour tomorrow MARKET_OPEN_HOUR) (λ target_time,
  let wait_seconds := int_total_seconds (datetime_sub target_time current_time) in
  Ok (Z.max 0 wait_seconds)).

(** [wait_until_next_update]: the sleep it makes, [None] when it makes
    none. *)
Definition wait_until_next_update (current_time : datetime) : result (option Z) :=
  result_bind
    (if _is_outside_market_hours current_time
     then _calculate_wait_until_market_open current_time
     else _calculate_wait_until_next_interval current_time) (λ wait_seconds,
  Ok (if 0 <? wait_seconds then Some wait_seconds else None)).

Definition get_next_update_time (current_time : datetime) : result datetime :=
  if _is_outside_market_hours current_time then
    if hour current_time <? MARKET_OPEN_HOUR
    then replace_hour current_time MARKET_OPEN_HOUR
    else
      let tomorrow := datetime_add current_time (timedelta_days 1) in
      replace_hour tomorrow MARKET_OPEN_HOUR
  else
    let minutes_past_hour := minute current_time in
    result_bind (py_floordiv minutes_past_hour UPDATE_INTERVAL_MINUTES) (λ q,
    let next_interval := (q + 1) * UPDATE_INTERVAL_MINUTES in
    if 60 <=? next_interval
    then replace_minute (datetime_add current_time (timedelta_hours 1)) 0
    else replace_minute current_time next_interval).
End SchedulerWaits.

(** ** getStock.py, the wait of the first version *)

(** [waitUntilNextTime]: the calls of [sleep] it makes, in seconds, in
    order. *)
Definition waitUntilNextTime (currTime : datetime) : list Z :=
  if hour currTime <=? 8 then [(9 - hour currTime) * 60 * 60]
  else
    let first :=
      if 16 <=? hour currTime then [(9 + 23 - hour currTime) * 60 * 60] else [] in
    let newMinute := 10 - minute currTime mod 10 in
    first ++ [newMinute * 60].

(** The instant [seconds] after [d]. *)
Definition after_seconds (d : datetime) (seconds : Z) : datetime :=
  datetime_add d (seconds * 1000000).

(** ** main.py, the ticker filter *)

(** [s.find(c)] for an ASCII character [c]: the index of the first
    occurrence from [i] on, or -1.  The index counts bytes; the code only
    compares it with -1, and an ASCII byte is part of no other character's
    encoding. *)
Fixpoint find_char_from (i : Z) (c : ascii) (s : string) : Z :=
  match s with
  | EmptyString => -1
  | String a r => if Ascii.eqb a c then i else find_char_from (i + 1) c r
  end.
Definition str_find_char (s : string) (c : ascii) : Z := find_char_from 0 c s.

(** The loop body of [_filter_tickers]: what one ticker appends. *)
Definition filter_ticker (skip_set : list string) (ticker : string) : list string :=
  let ticker_clean := strip ticker in
  if str_truthy ticker_clean
     && negb (bool_decide (ticker_clean ∈ skip_set))
     && (str_find_char ticker_clean "@" =? -1)
  then [ticker_clean] else [].

Fixpoint filter_tickers_loop (skip_set : list string) (tickers : list string)
    (valid_tickers : list string) : list string :=
  match tickers with
  | [] => valid_tickers
  | ticker :: rest =>
      filter_tickers_loop skip_set rest (valid_tickers ++ filter_ticker skip_set ticker)
  end.

(** [SKIP_TICKERS] is a constant of [config.py]. *)
Definition _filter_tickers (SKIP_TICKERS : list string) (tickers : list string)
  : list string :=
  filter_tickers_loop SKIP_TICKERS tickers [].

(** A string without the character [c]. *)
Fixpoint lacks_char (c : ascii) (s : string) : bool :=
  match s with
  | EmptyString => true
  | String a r => negb (Ascii.eqb a c) && lacks_char c r
  end.

(** ** More vocabulary *)

(** The events a run adds to the trace end with a lookup, if there are
    any. *)
Definition ends_with_lookup (ticker : string) (evs : list event) : Prop :=
  evs = [] ∨ ∃ pre, evs = pre ++ [EvLookup ticker].

(** The state of the provider after [k] lookups of [ticker] in a row. *)
Fixpoint after_lookups `{DataProvider} (ticker : string) (k : nat) (s : provider_state)
  : provider_state :=
  match k with
  | O => s
  | S k => after_lookups ticker k (provider_info ticker s).2
  end.

(** What the provider answers to lookup number [k], counted from 0, of a
    run of lookups of [ticker] that starts in state [s]. *)
Definition nth_answer `{DataProvider} (ticker : string) (k : nat) (s : provider_state)
  : lookup_outcome :=
  (provider_info ticker (after_lookups ticker k s)).1.

(** An answer that gives the price [p]: a record that is not empty and that
    [_extract_price_from_info] resolves to [p]. *)
Definition resolves `{Externals} (o : lookup_outcome) (p : float) : Prop :=
  ∃ info, o = LookupReturns (Some info) ∧ info ≠ ∅
          ∧ _extract_price_from_info info = Ok (Some p).

(** The tickers [_filter_tickers] is meant to keep, once stripped. *)
Definition valid_ticker (skip : list string) (x : string) : Prop :=
  x ≠ EmptyString ∧ (x ∉ skip) ∧ lacks_char "@" x = true.

#[global] Instance valid_ticker_dec (skip : list string) (x : string) :
  Decision (valid_ticker skip x).
Proof. unfold valid_ticker. apply _. Defined.

(** Midnight at the start of ordinal day [day], in microseconds. *)
Definition day_start (day : Z) : Z := day * 86400000000.

(** ** sheets_client.py, single cells *)

(** The cells and rows [config.py] names, and the tickers it excludes. *)
Class Layout := {
  TICKER_ROW : Z;
  PRICE_ROW : Z;
  TIMESTAMP_CELL : Z * Z;
  CAD_EXCHANGE_CELL : Z * Z;
  SKIP_TICKERS : list string
}.

(** [d.strftime(format)], the library's rendering of an instant. *)
Class TimeFormat := {
  strftime : string → datetime → string
}.

(** A value the client can send: any text, and a number that JSON has. *)
Definition json_value (value : cell) : bool :=
  match value with
  | CellText _ => true
  | CellNumber f => json_number f
  end.

(** [update_cell]: [False] on any exception.  The client raises, before
    anything is sent, on a row or a column below 1 and on a value that is no
    JSON; a request that fails writes nothing. *)
Definition update_cell (row col : Z) (value : cell) (ws : worksheet) : bool * worksheet :=
  if (1 <=? row) && (1 <=? col) && json_value value then
    if request_fails ws then (false, after_request ws)
    else (true, <[(row, col) := value]> (after_request ws))
  else (false, ws).

Section SingleCells.
Context `{Layout} `{TimeFormat}.

(** [cell or TIMESTAMP_CELL]: a pair is truthy, [None] is not. *)
Definition update_timestamp (cell : option (Z * Z)) (now : datetime) (ws : worksheet)
  : bool * worksheet :=
  let cell := default TIMESTAMP_CELL cell in
  let timestamp := strftime "%I:%M%p @ %Y-%m-%d" now in
  update_cell cell.1 cell.2 (CellText timestamp) ws.

Definition update_exchange_rate (rate : float) (cell : option (Z * Z)) (ws : worksheet)
  : bool * worksheet :=
  let cell := default CAD_EXCHANGE_CELL cell in
  update_cell cell.1 cell.2 (CellNumber rate) ws.
End SingleCells.

(** ** main.py, one update cycle *)

(** What the application holds: the sheet, the provider with the trace of
    lookups and pauses, and the scheduler. *)
Record StockDataApp `{DataProvider} : Type := MkApp {
  app_sheet : worksheet;
  app_world : world;
  app_scheduler : UpdateScheduler
}.

Section UpdateCycle.
Context `{Externals} `{DataProvider} `{Config} `{Layout} `{TimeFormat}.

(** [{k: v for k, v in ticker_prices.items() if v is not None}] *)
Definition successful_prices (ticker_prices : gmap string (option float))
  : gmap string (option float) :=
  filter (λ kv, is_Some kv.2) ticker_prices.

(** [perform_update]; the two readings of the clock, for the timestamp
    and for the scheduler, are arguments.  Every call it makes answers
    [False], [None] or the empty list instead of raising, and logging and
    [print] are taken to succeed, so its own [except Exception] is never
    entered. *)
Definition perform_update (timestamp_now completed_now : datetime) (self : StockDataApp)
  : bool * StockDataApp :=
  let all_tickers := get_tickers (app_sheet self) TICKER_ROW in
  let ws0 := after_request (app_sheet self) in
  match all_tickers with
  | [] => (false, MkApp _ ws0 (app_world self) (app_scheduler self))
  | _ =>
      let valid_tickers := _filter_tickers SKIP_TICKERS all_tickers in
      match valid_tickers with
      | [] => (false, MkApp _ ws0 (app_world self) (app_scheduler self))
      | _ =>
          let '(ticker_prices, w1) := get_multiple_prices valid_tickers (app_world self) in
          if bool_decide (size (successful_prices ticker_prices) = 0%nat)
          then (false, MkApp _ ws0 w1 (app_scheduler self))
          else
            let '(price_update_success, ws1) :=
              update_prices ticker_prices TICKER_ROW PRICE_ROW ws0 in
            if negb price_update_success
            then (false, MkApp _ ws1 w1 (app_scheduler self))
            else
              let '(exchange_rate, w2) := get_exchange_rate "CAD=X" w1 in
              let ws2 :=
                match exchange_rate with
                | Some rate => (update_exchange_rate rate None ws1).2
                | None => ws1
                end in
              let ws3 := (update_timestamp None timestamp_now ws2).2 in
              (true, MkApp _ ws3 w2 (mark_update_completed (app_scheduler self) completed_now))
      end
  end.
End UpdateCycle.

(** ** More concrete collaborators *)

(** The layout of the first version: tickers in row 1, prices in row 3, the
    timestamp in A1, the exchange rate in A100. *)
Definition sample_layout : Layout :=
  {| TICKER_ROW := 1;
     PRICE_ROW := 3;
     TIMESTAMP_CELL := (1, 1);
     CAD_EXCHANGE_CELL := (100, 1);
     SKIP_TICKERS := ["Total"; "Unused"]%string |}.

(** A stand-in for [strftime] that renders the hour and the minute only. *)
Definition sample_time_format : TimeFormat :=
  {| strftime _ d := (pretty (hour d) +:+ ":" +:+ pretty (minute d))%string |}.

(** A sheet in that layout, its ticker row without a blank, reached
    through a service that answers every request:
<<
        A                 B       C
   1    09:00 @ Monday    AAPL    Total
   3                      1.0     2.0
>> *)
Definition dense_sheet : worksheet :=
  <[(1, 1) := CellText "09:00 @ Monday"]> (<[(1, 2) := CellText "AAPL"]>
  (<[(1, 3) := CellText "Total"]> (<[(3, 2) := CellNumber 1]>
  (<[(3, 3) := CellNumber 2]> ∅)))).

(** The application on that sheet, with a provider that plays [script] and
    a sheet service whose coming requests fail as [faults] says. *)
Definition sample_app (script : list lookup_outcome) (faults : list bool)
  : @StockDataApp scripted_provider :=
  @MkApp scripted_provider (Worksheet (cells dense_sheet) faults)
    (@World scripted_provider script []) (Scheduler None).
(** * Properties *)

(** ** Strings *)

Lemma string_app_cons (c : ascii) (r s : string) :
  String c r +:+ s = String c (r +:+ s).
Proof. reflexivity. Qed.

Lemma string_app_assoc (s1 s2 s3 : string) : (s1 +:+ s2) +:+ s3 = s1 +:+ (s2 +:+ s3).
Proof. induction s1 as [|c r IH]; [done|]. rewrite !string_app_cons. by f_equal. Qed.

Lemma string_app_nil_r (s : string) : s +:+ EmptyString = s.
Proof. induction s as [|c r IH]; [done|]. rewrite string_app_cons. by f_equal. Qed.

Lemma string_app_inv_head (c s t : string) : c +:+ s = c +:+ t → s = t.
Proof.
  induction c as [|a r IH]; [done|]. rewrite !string_app_cons. intros [= Heq]. auto.
Qed.

(** Induction on the length of a string. *)
Lemma string_length_ind (P : string → Prop) :
  (∀ s, (∀ t, (String.length t < String.length s)%nat → P t) → P s) → ∀ s, P s.
Proof.
  intros Hstep s.
  assert (∀ (n : nat) s, (String.length s < n)%nat → P s) as Hlen.
  { induction n as [|n IH]; intros s' Hs'; [lia|].
    apply Hstep. intros t Ht. apply IH. lia. }
  apply (Hlen (S (String.length s))). lia.
Qed.

(** *** Characters *)

(** The first character of a string and what follows it. *)
Lemma chars_unfold (s : string) :
  s ≠ EmptyString →
  ∃ c t, s = c +:+ t ∧ c ≠ EmptyString ∧ chars s = c :: chars t
         ∧ (String.length t < String.length s)%nat
         ∧ (is_complete c = true ∨ t = EmptyString).
Proof.
  destruct s as [|a r]; [done|]. intros _. cbn [chars].
  assert (∃ c t, String a r = c +:+ t ∧ c ≠ EmptyString
                 ∧ [String a r] = c :: chars t
                 ∧ (String.length t < String.length (String a r))%nat
                 ∧ (is_complete c = true ∨ t = EmptyString)) as Hshort.
  { exists (String a r), EmptyString. rewrite string_app_nil_r.
    split_and!; [done | done | done | simpl; lia | by right]. }
  destruct (char_width a) as [|[|[|[|[|n]]]]] eqn:Hw.
  - exact Hshort.
  - exists (String a EmptyString), r.
    split_and!; [done | done | done | simpl; lia | left].
    unfold is_complete. by rewrite Hw.
  - destruct r as [|b r']; [exact Hshort|].
    exists (String a (String b EmptyString)), r'.
    split_and!; [done | done | done | simpl; lia | left].
    unfold is_complete. by rewrite Hw.
  - destruct r as [|b [|c r']]; [exact Hshort..|].
    exists (String a (String b (String c EmptyString))), r'.
    split_and!; [done | done | done | simpl; lia | left].
    unfold is_complete. by rewrite Hw.
  - destruct r as [|b [|c [|d r']]]; [exact Hshort..|].
    exists (String a (String b (String c (String d EmptyString)))), r'.
    split_and!; [done | done | done | simpl; lia | left].
    unfold is_complete. by rewrite Hw.
  - exact Hshort.
Qed.

(** Cutting a string into characters loses nothing. *)
Lemma join_chars (s : string) : join (chars s) = s.
Proof.
  induction s as [s IH] using string_length_ind.
  destruct (decide (s = EmptyString)) as [-> | Hne]; [done|].
  destruct (chars_unfold s Hne) as (c & t & Hs & _ & Hc & Hlt & _).
  rewrite Hc. cbn [join foldr]. fold (join (chars t)). by rewrite (IH t Hlt), <- Hs.
Qed.

Lemma chars_nil (s : string) : chars s = [] → s = EmptyString.
Proof. intros Hc. rewrite <- (join_chars s), Hc. done. Qed.

Lemma char_width_range (a : ascii) : (1 ≤ char_width a ≤ 4)%nat.
Proof. unfold char_width. repeat case_match; lia. Qed.

(** A whole character at the head of a string is its first character. *)
Lemma chars_app_complete (c t : string) :
  is_complete c = true → chars (c +:+ t) = c :: chars t.
Proof.
  unfold is_complete. destruct c as [|a r]; [done|].
  intros Hlen%Nat.eqb_eq. rewrite string_app_cons. cbn [chars].
  pose proof (char_width_range a) as Hrange.
  destruct (char_width a) as [|[|[|[|[|n]]]]];
    destruct r as [|b [|c [|d [|e r]]]]; simpl in Hlen; try lia; reflexivity.
Qed.

Lemma well_chunked_chars (s : string) : well_chunked (chars s).
Proof. unfold well_chunked. by rewrite join_chars. Qed.

Lemma well_chunked_inv (c : string) (l : list string) :
  well_chunked (c :: l) →
  c ≠ EmptyString ∧ well_chunked l ∧ chars c = [c]
  ∧ (l ≠ [] → is_complete c = true).
Proof.
  unfold well_chunked. cbn [join foldr]. fold (join l). intros Hwc.
  assert (c +:+ join l ≠ EmptyString) as Hne.
  { intros Heq. by rewrite Heq in Hwc. }
  destruct (chars_unfold _ Hne) as (c' & t & Hs & Hc' & Hc & _ & Hcomplete).
  rewrite Hwc in Hc. injection Hc as <- Hl.
  apply string_app_inv_head in Hs. subst t.
  split_and!; [done | done | |].
  - destruct Hcomplete as [Hcomplete | Hnil].
    + rewrite <- (string_app_nil_r c) at 1. by rewrite chars_app_complete.
    + rewrite Hnil, string_app_nil_r in Hwc. rewrite Hwc. f_equal.
      rewrite Hnil in Hl. done.
  - intros Hl'. destruct Hcomplete as [Hcomplete | Hnil]; [done|].
    rewrite Hnil in Hl. done.
Qed.

Lemma well_chunked_cons (c : string) (l : list string) :
  is_complete c = true → well_chunked l → well_chunked (c :: l).
Proof.
  unfold well_chunked. cbn [join foldr]. fold (join l).
  intros Hc Hl. by rewrite chars_app_complete, Hl.
Qed.

Lemma well_chunked_singleton (c : string) : chars c = [c] → well_chunked [c].
Proof. unfold well_chunked. cbn. by rewrite string_app_nil_r. Qed.

Lemma well_chunked_app (l1 l2 : list string) :
  Forall (λ c, is_complete c = true) l1 → well_chunked l2 → well_chunked (l1 ++ l2).
Proof.
  induction 1 as [|c l1 Hc _ IH]; intros Hl2; [done|].
  rewrite <- app_comm_cons. apply well_chunked_cons; auto.
Qed.

(** *** [strip] *)

Lemma lstrip_head (l : list string) :
  lstrip l = [] ∨ ∃ c r, lstrip l = c :: r ∧ char_isspace c = false.
Proof.
  induction l as [|c r IH]; simpl; [by left|].
  destruct (char_isspace c) eqn:Hc; [exact IH|].
  right; by exists c, r.
Qed.

Lemma lstrip_whitespace_only (l : list string) :
  lstrip l = [] ↔ forallb char_isspace l = true.
Proof.
  induction l as [|c r IH]; simpl; [done|].
  destruct (char_isspace c); simpl; [exact IH|].
  split; discriminate.
Qed.

Lemma lstrip_fixed (l : list string) :
  match l with [] => True | c :: _ => char_isspace c = false end → lstrip l = l.
Proof. destruct l as [|c r]; [done|]. simpl. by intros ->. Qed.

Lemma rstrip_empty_head (c : string) (r : list string) :
  rstrip (c :: r) = [] → char_isspace c = true.
Proof.
  simpl. destruct (rstrip r); [|discriminate].
  by destruct (char_isspace c).
Qed.

Lemma rstrip_keeps_head (c : string) (r : list string) :
  char_isspace c = false → ∃ r', rstrip (c :: r) = c :: r'.
Proof.
  intros Hc. simpl. destruct (rstrip r) as [|c' r'].
  - rewrite Hc. by exists [].
  - by exists (c' :: r').
Qed.

Lemma rstrip_idempotent (l : list string) : rstrip (rstrip l) = rstrip l.
Proof.
  induction l as [|c r IH]; [done|]. simpl.
  destruct (rstrip r) as [|c' r'] eqn:Hr.
  - destruct (char_isspace c) eqn:Hc; [done|]. simpl. by rewrite Hc.
  - simpl. simpl in IH. by rewrite IH.
Qed.

Lemma rstrip_app (l1 l2 : list string) :
  rstrip (l1 ++ l2) = match rstrip l2 with [] => rstrip l1 | r => l1 ++ r end.
Proof.
  induction l1 as [|c l1 IH].
  { cbn [app]. by destruct (rstrip l2). }
  rewrite <- app_comm_cons. cbn [rstrip]. rewrite IH.
  destruct (rstrip l2) as [|c2 r2]; [done|].
  by destruct l1.
Qed.

Lemma well_chunked_lstrip (l : list string) : well_chunked l → well_chunked (lstrip l).
Proof.
  induction l as [|c r IH]; [done|]. intros Hwc. simpl.
  destruct (char_isspace c); [|done].
  apply IH. by apply well_chunked_inv in Hwc as (_ & ? & _).
Qed.

Lemma well_chunked_rstrip (l : list string) : well_chunked l → well_chunked (rstrip l).
Proof.
  induction l as [|c r IH]; [done|]. intros Hwc.
  apply well_chunked_inv in Hwc as (_ & Hr & Hc & Hcomplete). simpl.
  specialize (IH Hr). destruct (rstrip r) as [|c' r'] eqn:Hrs.
  - destruct (char_isspace c); [done|]. by apply well_chunked_singleton.
  - apply well_chunked_cons; [|done]. apply Hcomplete. by intros ->.
Qed.

(** The characters of a stripped string. *)
Lemma chars_strip (s : string) : chars (strip s) = rstrip (lstrip (chars s)).
Proof.
  apply well_chunked_rstrip, well_chunked_lstrip, well_chunked_chars.
Qed.

(** [strip] leaves nothing exactly of the strings made of white space. *)
Lemma strip_empty_iff (s : string) :
  strip s = EmptyString ↔ whitespace_only s = true.
Proof.
  unfold whitespace_only. rewrite <- lstrip_whitespace_only. split.
  - intros Hs. apply (f_equal chars) in Hs. rewrite chars_strip in Hs.
    change (chars EmptyString) with (@nil string) in Hs.
    destruct (lstrip_head (chars s)) as [He | (c & r & He & Hc)]; [done|].
    rewrite He in Hs. apply rstrip_empty_head in Hs. congruence.
  - unfold strip. by intros ->.
Qed.

(** Nothing is left to strip from a stripped string. *)
Lemma strip_idempotent (s : string) : strip (strip s) = strip s.
Proof.
  unfold strip at 1. rewrite chars_strip. unfold strip. f_equal.
  destruct (lstrip_head (chars s)) as [-> | (c & r & -> & Hc)]; [done|].
  destruct (rstrip_keeps_head c r Hc) as [r' Hr].
  rewrite (lstrip_fixed (rstrip (c :: r))) by by rewrite Hr.
  apply rstrip_idempotent.
Qed.

(** *** [upper] *)

Lemma assoc_elem (n : N) (table : list (N * list N)) (v : list N) :
  assoc n table = Some v → (n, v) ∈ table.
Proof.
  induction table as [|[k w] rest IH]; [done|]. simpl.
  destruct (n =? k)%N eqn:Hk.
  - apply N.eqb_eq in Hk as ->. intros [= ->]. by left.
  - intros Hv. right. by apply IH.
Qed.

Lemma upper_table_ok : forallb upper_entry_ok upper_table = true.
Proof. by vm_compute. Qed.

Lemma case_upper_ok (n : N) (ms : list N) :
  case_upper n = Some ms →
  isspace n = false ∧ ms ≠ []
  ∧ Forall (λ m, is_complete (utf8 m) = true ∧ code_point (utf8 m) = Some m
                 ∧ isspace m = false ∧ case_upper m = None) ms.
Proof.
  intros Hn%assoc_elem.
  pose proof upper_table_ok as Hok. rewrite forallb_forall in Hok.
  apply list_elem_of_In in Hn. specialize (Hok _ Hn).
  unfold upper_entry_ok in Hok. cbn [fst snd] in Hok.
  apply andb_prop in Hok as [[Hsp Hne]%andb_prop Hall].
  split_and!.
  - by apply negb_true_iff.
  - by destruct ms.
  - apply Forall_forall. intros m Hm. rewrite forallb_forall in Hall.
    apply list_elem_of_In in Hm. specialize (Hall _ Hm).
    apply andb_prop in Hall as [[[Hc Hd]%andb_prop Hs]%andb_prop Hu].
    apply N.eqb_eq in Hd. apply negb_true_iff in Hs. apply bool_decide_eq_true in Hu.
    split_and!; [done | | done | done].
    unfold code_point. rewrite Hc, Hd. cbn [andb].
    by rewrite (proj2 (String.eqb_eq _ _) eq_refl).
Qed.

(** The characters of an upper case are whole, are their own upper case,
    and are white space only when the character was, in which case it is
    left as it is. *)
Lemma upper_char_cases (c : string) :
  upper_char c = [c]
  ∨ char_isspace c = false ∧ upper_char c ≠ []
    ∧ Forall (λ c', is_complete c' = true ∧ char_isspace c' = false
                    ∧ upper_char c' = [c']) (upper_char c).
Proof.
  unfold upper_char at 1 2 4. unfold char_isspace at 1.
  destruct (code_point c) as [n|]; [|by left]. cbn [mbind option_bind].
  destruct (case_upper n) as [ms|] eqn:Hn; [|by left].
  right. destruct (case_upper_ok n ms Hn) as (Hsp & Hne & Hall).
  split_and!; [done | by destruct ms |].
  apply Forall_fmap. eapply Forall_impl; [exact Hall|].
  intros m (Hc & Hcp & Hs & Hu). cbn.
  unfold char_isspace, upper_char. rewrite Hcp. cbn [mbind option_bind].
  by rewrite Hu.
Qed.

Lemma upper_char_nonempty (c : string) : upper_char c ≠ [].
Proof. destruct (upper_char_cases c) as [-> | (_ & ? & _)]; done. Qed.

Lemma upper_char_isspace (c : string) : char_isspace c = true → upper_char c = [c].
Proof. intros Hc. destruct (upper_char_cases c) as [? | [? _]]; [done | congruence]. Qed.

(** The upper case of a character that is no white space holds none. *)
Lemma upper_char_not_isspace (c : string) :
  char_isspace c = false → Forall (λ c', char_isspace c' = false) (upper_char c).
Proof.
  intros Hc. destruct (upper_char_cases c) as [-> | (_ & _ & Hall)].
  - by apply Forall_singleton.
  - eapply Forall_impl; [exact Hall|]. by intros c' (_ & ? & _).
Qed.

Lemma upper_char_idempotent (c : string) : upper_char c ≫= upper_char = upper_char c.
Proof.
  destruct (upper_char_cases c) as [Hc | (_ & _ & Hall)].
  - rewrite Hc. cbn. by rewrite Hc.
  - induction Hall as [|c' l (_ & _ & Hc') _ IH]; [done|].
    cbn. rewrite Hc'. cbn in IH. by rewrite IH.
Qed.

Lemma well_chunked_upper (l : list string) :
  well_chunked l → well_chunked (l ≫= upper_char).
Proof.
  induction l as [|c r IH]; [done|]. intros Hwc.
  apply well_chunked_inv in Hwc as (_ & Hr & Hc & Hcomplete).
  cbn. specialize (IH Hr).
  destruct (upper_char_cases c) as [-> | (_ & _ & Hall)].
  - destruct r as [|c2 r]; [by apply well_chunked_singleton|].
    apply well_chunked_cons; [by apply Hcomplete | done].
  - apply well_chunked_app; [|done].
    eapply Forall_impl; [exact Hall|]. by intros c' (? & _).
Qed.

(** The characters of an upper-cased string. *)
Lemma chars_upper (s : string) : chars (upper s) = chars s ≫= upper_char.
Proof. apply well_chunked_upper, well_chunked_chars. Qed.

Lemma upper_idempotent (s : string) : upper (upper s) = upper s.
Proof.
  unfold upper at 1. rewrite chars_upper. unfold upper. f_equal.
  induction (chars s) as [|c r IH]; [done|].
  cbn. rewrite bind_app, upper_char_idempotent. by f_equal.
Qed.

Lemma upper_empty_iff (s : string) : upper s = EmptyString ↔ s = EmptyString.
Proof.
  split; [|by intros ->].
  intros Hu. apply (f_equal chars) in Hu. rewrite chars_upper in Hu.
  change (chars EmptyString) with (@nil string) in Hu.
  apply chars_nil. destruct (chars s) as [|c r]; [done|].
  cbn in Hu. apply app_eq_nil in Hu as [Hc _]. by apply upper_char_nonempty in Hc.
Qed.

Lemma lstrip_upper (l : list string) : lstrip (l ≫= upper_char) = lstrip l ≫= upper_char.
Proof.
  induction l as [|c r IH]; [done|]. cbn [lstrip].
  destruct (char_isspace c) eqn:Hc.
  - cbn. rewrite (upper_char_isspace c Hc). cbn. by rewrite Hc.
  - apply lstrip_fixed. cbn.
    pose proof (upper_char_not_isspace c Hc) as Hall.
    pose proof (upper_char_nonempty c) as Hne.
    destruct (upper_char c) as [|c' l']; [done|]. cbn.
    by apply Forall_cons in Hall as [? _].
Qed.

Lemma rstrip_not_isspace (l : list string) :
  Forall (λ c, char_isspace c = false) l → rstrip l = l.
Proof.
  induction 1 as [|c l Hc _ IH]; [done|]. simpl. rewrite IH.
  destruct l; [by rewrite Hc | done].
Qed.

Lemma rstrip_upper (l : list string) : rstrip (l ≫= upper_char) = rstrip l ≫= upper_char.
Proof.
  induction l as [|c r IH]; [done|].
  cbn [mbind list_bind]. rewrite rstrip_app, IH. cbn [rstrip].
  destruct (rstrip r) as [|c2 r2] eqn:Hr.
  - cbn [mbind list_bind]. destruct (char_isspace c) eqn:Hc.
    + rewrite (upper_char_isspace c Hc). cbn. by rewrite Hc.
    + cbn. rewrite app_nil_r. apply rstrip_not_isspace.
      by apply upper_char_not_isspace.
  - pose proof (upper_char_nonempty c2) as Hne. cbn [mbind list_bind].
    destruct (upper_char c2 ++ _) as [|x y] eqn:Hx; [|done].
    by apply app_eq_nil in Hx as [? _].
Qed.

Lemma strip_upper (s : string) : strip (upper s) = upper (strip s).
Proof.
  unfold strip at 1. rewrite chars_upper, lstrip_upper, rstrip_upper.
  unfold upper. by rewrite chars_strip.
Qed.

(** The normal form of a ticker is its own normal form. *)
Lemma normalize_idempotent (s : string) :
  upper (strip (upper (strip s))) = upper (strip s).
Proof. by rewrite strip_upper, strip_idempotent, upper_idempotent. Qed.

(** The guard at the head of [get_ticker_price] is the test that nothing is
    left of the ticker once stripped. *)
Lemma blank_guard (ticker : string) :
  negb (str_truthy ticker) || bool_decide (strip ticker = EmptyString)
  = bool_decide (strip ticker = EmptyString).
Proof.
  destruct ticker as [|c r]; [done|]. reflexivity.
Qed.

Lemma truthy_guard (ticker : string) :
  str_truthy ticker && str_truthy (strip ticker)
  = negb (bool_decide (strip ticker = EmptyString)).
Proof.
  destruct ticker as [|c r]; [done|].
  cbn [str_truthy andb]. by destruct (strip (String c r)).
Qed.

(** ** The fetcher *)

Section FetcherFacts.
Context `{Externals} `{DataProvider} `{Config}.

Lemma fetch_bind_run {A B} (m : fetch A) (k : A → fetch B) (w : world) :
  (m ≫= k) w = let '(a, w') := m w in k a w'.
Proof. reflexivity. Qed.

Lemma get_ticker_price_blank_run (ticker : string) (w : world) :
  strip ticker = EmptyString → get_ticker_price ticker w = (None, w).
Proof.
  intros Hs. unfold get_ticker_price.
  rewrite blank_guard, bool_decide_eq_true_2; done.
Qed.

Lemma get_ticker_price_run (ticker : string) (w : world) :
  strip ticker ≠ EmptyString →
  get_ticker_price ticker w
  = attempt_loop (seqZ 0 MAX_RETRIES) (upper (strip ticker)) w.
Proof.
  intros Hs. unfold get_ticker_price.
  rewrite blank_guard, bool_decide_eq_false_2; done.
Qed.

(** Tickers with one normal form are fetched alike. *)
Lemma get_ticker_price_normal_form (a b : string) (w : world) :
  upper (strip a) = upper (strip b) →
  get_ticker_price a w = get_ticker_price b w.
Proof.
  intros Hn. destruct (decide (strip a = EmptyString)) as [Ha | Ha].
  - assert (strip b = EmptyString) as Hb.
    { apply upper_empty_iff. rewrite <- Hn. by apply upper_empty_iff. }
    by rewrite !get_ticker_price_blank_run.
  - assert (strip b ≠ EmptyString) as Hb.
    { intros Hb. apply Ha, upper_empty_iff. rewrite Hn. by apply upper_empty_iff. }
    by rewrite !get_ticker_price_run, Hn.
Qed.

(** C7. A ticker that is empty or made of white space only yields no
    price at once: the world is left as it was, so the provider was not
    called, no attempt was spent and nothing slept. *)
Theorem get_ticker_price_blank (ticker : string) (w : world) :
  ticker = EmptyString ∨ whitespace_only ticker = true →
  get_ticker_price ticker w = (None, w)
  ∧ trace (get_ticker_price ticker w).2 = trace w
  ∧ provider (get_ticker_price ticker w).2 = provider w.
Proof.
  intros Hblank.
  assert (strip ticker = EmptyString) as Hs.
  { apply strip_empty_iff. by destruct Hblank as [-> | ?]. }
  by rewrite get_ticker_price_blank_run.
Qed.
End FetcherFacts.

(** ** The price resolver *)

Section ResolverFacts.
Context `{Externals}.

Lemma is_none_false (v : pyval) : is_none v = false ↔ v ≠ PyNone.
Proof. destruct v; simpl; split; congruence. Qed.

Lemma gt0_zero : gt0 0%float = false.
Proof. reflexivity. Qed.

Lemma try_price_fields_hit (info : gmap string pyval) field rest p :
  usable info field p →
  try_price_fields (field :: rest) info = Ok (Some p).
Proof.
  intros (v & Hv & Hnone & Hf & Hp). simpl.
  apply is_none_false in Hnone. by rewrite Hv, Hnone, Hf, Hp.
Qed.

Lemma try_price_fields_skip (info : gmap string pyval) field rest :
  unusable info field →
  (∀ v, info !! field = Some v → py_float v ≠ Raise OverflowError) →
  try_price_fields (field :: rest) info = try_price_fields rest info.
Proof.
  intros Hun Hov. simpl.
  destruct (info !! field) as [v|] eqn:Hv; [|done].
  destruct (is_none v) eqn:Hnone; [done|].
  specialize (Hov v eq_refl).
  destruct (py_float v) as [price | e] eqn:Hf.
  - destruct (gt0 price) eqn:Hp; [|done].
    exfalso. apply (Hun price). exists v. by rewrite is_none_false in Hnone.
  - destruct e; try done.
    unfold py_float in Hf. destruct v; try discriminate.
    + unfold float_of_int in Hf. by destruct (is_infinity _).
    + by destruct (str_to_float s).
Qed.

(** The loop returns the first usable field, whatever comes after it. *)
Lemma try_price_fields_first (info : gmap string pyval) pre field post p :
  no_overflow info pre →
  (∀ f, f ∈ pre → unusable info f) →
  usable info field p →
  try_price_fields (pre ++ field :: post) info = Ok (Some p).
Proof.
  intros Hov Hpre Hu. induction pre as [|f pre IH]; simpl app.
  - by apply try_price_fields_hit.
  - rewrite try_price_fields_skip.
    + apply IH.
      * intros g v Hg. apply Hov. by right.
      * intros g Hg. apply Hpre. by right.
    + apply Hpre. by left.
    + intros v. apply Hov. by left.
Qed.

Lemma try_price_fields_none (info : gmap string pyval) fields :
  no_overflow info fields →
  (∀ f, f ∈ fields → unusable info f) →
  try_price_fields fields info = Ok None.
Proof.
  intros Hov Hun. induction fields as [|f fields IH]; [done|].
  rewrite try_price_fields_skip.
  - apply IH.
    + intros g v Hg. apply Hov. by right.
    + intros g Hg. apply Hun. by right.
  - apply Hun. by left.
  - intros v. apply Hov. by left.
Qed.

Lemma float_or_zero_usable (info : gmap string pyval) field v x :
  info !! field = Some v → float_or_zero v = Ok x → gt0 x = true →
  usable info field x.
Proof.
  intros Hv Hf Hx. exists v. unfold float_or_zero in Hf.
  destruct (is_none v) eqn:Hnone.
  - injection Hf as <-. by rewrite gt0_zero in Hx.
  - by rewrite is_none_false in Hnone.
Qed.

Lemma usable_float_or_zero (info : gmap string pyval) field x :
  usable info field x →
  ∃ v, info !! field = Some v ∧ float_or_zero v = Ok x ∧ gt0 x = true.
Proof.
  intros (v & Hv & Hnone & Hf & Hx). exists v. unfold float_or_zero.
  apply is_none_false in Hnone. by rewrite Hnone.
Qed.

Lemma float_or_zero_no_overflow (info : gmap string pyval) field v :
  no_overflow info [field] → info !! field = Some v →
  float_or_zero v ≠ Raise OverflowError.
Proof.
  intros Hov Hv. unfold float_or_zero. destruct (is_none v); [done|].
  apply (Hov field); [by left | done].
Qed.

Lemma float_or_zero_exceptions (v : pyval) e :
  float_or_zero v = Raise e → e = ValueError ∨ e = TypeError ∨ e = OverflowError.
Proof.
  unfold float_or_zero. destruct (is_none v); [done|].
  unfold py_float. destruct v; try discriminate; try (injection 1 as <-; tauto).
  - unfold float_of_int. destruct (is_infinity _); [|done]. injection 1 as <-; tauto.
  - destruct (str_to_float s); [done|]. injection 1 as <-; tauto.
Qed.

Lemma bid_ask_fallback_mean (info : gmap string pyval) b a :
  usable info "bid" b → usable info "ask" a →
  bid_ask_fallback info = Ok (Some ((b + a) / 2)%float).
Proof.
  intros (vb & Hvb & Hfb & Hb)%usable_float_or_zero
         (va & Hva & Hfa & Ha)%usable_float_or_zero.
  unfold bid_ask_fallback. rewrite Hvb, Hva, Hfb. cbn [result_bind].
  rewrite Hfa. cbn [result_bind]. by rewrite Hb, Ha.
Qed.

Lemma bid_ask_fallback_absent (info : gmap string pyval) :
  no_overflow info ["bid"; "ask"]%string →
  (∀ b a, ¬ (usable info "bid" b ∧ usable info "ask" a)) →
  bid_ask_fallback info = Ok None.
Proof.
  intros Hov Hno. unfold bid_ask_fallback.
  destruct (info !! "bid"%string) as [vb|] eqn:Hvb; [|done].
  destruct (info !! "ask"%string) as [va|] eqn:Hva; [|done].
  assert (float_or_zero vb ≠ Raise OverflowError) as Hob.
  { apply (float_or_zero_no_overflow info "bid"); [|done].
    intros f v ->%list_elem_of_singleton. apply Hov. by left. }
  assert (float_or_zero va ≠ Raise OverflowError) as Hoa.
  { apply (float_or_zero_no_overflow info "ask"); [|done].
    intros f v ->%list_elem_of_singleton. apply Hov. right; by left. }
  destruct (float_or_zero vb) as [bid | e] eqn:Hfb; cbn [result_bind].
  - destruct (float_or_zero va) as [ask | e] eqn:Hfa; cbn [result_bind].
    + destruct (gt0 bid) eqn:Hb; [|done]. destruct (gt0 ask) eqn:Ha; [|done].
      exfalso. apply (Hno bid ask). split; by eapply float_or_zero_usable.
    + destruct (float_or_zero_exceptions _ _ Hfa) as [-> | [-> | ->]]; done.
  - destruct (float_or_zero_exceptions _ _ Hfb) as [-> | [-> | ->]]; done.
Qed.

(** X19. What [_extract_price_from_info] returns on a record none of whose six
    fields holds an integer too large for a float: the first usable direct
    field; failing that, the mean of bid and ask when both are usable;
    failing that, nothing. *)
Lemma extract_price_no_overflow (info : gmap string pyval) :
  no_overflow info (price_fields ++ ["bid"; "ask"]%string) →
  (∀ pre field post p,
     price_fields = pre ++ field :: post →
     (∀ f, f ∈ pre → unusable info f) → usable info field p →
     _extract_price_from_info info = Ok (Some p))
  ∧ (∀ b a,
       (∀ f, f ∈ price_fields → unusable info f) →
       usable info "bid" b → usable info "ask" a →
       _extract_price_from_info info = Ok (Some ((b + a) / 2)%float))
  ∧ ((∀ f, f ∈ price_fields → unusable info f) →
     (∀ b a, ¬ (usable info "bid" b ∧ usable info "ask" a)) →
     _extract_price_from_info info = Ok None).
Proof.
  intros Hov.
  assert (no_overflow info price_fields) as Hovd.
  { intros f v Hf. apply Hov. apply elem_of_app. by left. }
  assert (no_overflow info ["bid"; "ask"]%string) as Hovf.
  { intros f v Hf. apply Hov. apply elem_of_app. by right. }
  unfold _extract_price_from_info. split; [|split].
  - intros pre field post p Hsplit Hpre Hu. rewrite Hsplit.
    rewrite (try_price_fields_first info pre field post p); try done.
    intros f v Hf. apply Hovd. rewrite Hsplit. apply elem_of_app. by left.
  - intros b a Hun Hb Ha. rewrite try_price_fields_none by done.
    by apply bid_ask_fallback_mean.
  - intros Hun Hno. rewrite try_price_fields_none by done.
    by apply bid_ask_fallback_absent.
Qed.

(** C1. The record [{currentPrice: 10**400, regularMarketPrice: 5.0}]:
    [float()] of the first field raises [OverflowError], which the loop's
    [except (ValueError, TypeError)] lets through, so the resolver raises
    although the second field is usable with price 5. *)
Theorem extract_price_int_overflow :
  let info : gmap string pyval :=
    <["currentPrice"%string := PyInt (10 ^ 400)]>
      (<["regularMarketPrice"%string := PyFloat 5]> ∅) in
  py_float (PyInt (10 ^ 400)) = Raise OverflowError
  ∧ usable info "regularMarketPrice" 5%float
  ∧ _extract_price_from_info info = Raise OverflowError.
Proof.
  intros info. split; [|split].
  - vm_compute. reflexivity.
  - exists (PyFloat 5). split_and!; [by vm_compute | done..].
  - vm_compute. reflexivity.
Qed.
End ResolverFacts.

(** ** The retry loop *)

Lemma retry_trace_one ticker delay : retry_trace ticker delay 1 = [EvLookup ticker].
Proof. reflexivity. Qed.

Lemma retry_trace_step ticker delay (n : nat) :
  retry_trace ticker delay (S (S n))
  = EvLookup ticker :: EvSleep delay :: retry_trace ticker delay (S n).
Proof. unfold retry_trace. simpl. by rewrite Nat.sub_0_r. Qed.

Lemma lookups_retry_trace ticker delay (n : nat) :
  lookups (retry_trace ticker delay (S n)) = S n.
Proof.
  induction n as [|n IH]; [reflexivity|].
  rewrite retry_trace_step.
  change (S (lookups (retry_trace ticker delay (S n))) = S (S n)).
  by rewrite IH.
Qed.

Lemma sleeps_retry_trace ticker delay (n : nat) :
  sleeps (retry_trace ticker delay (S n)) = n.
Proof.
  induction n as [|n IH]; [reflexivity|].
  rewrite retry_trace_step.
  change (S (sleeps (retry_trace ticker delay (S n))) = S n).
  by rewrite IH.
Qed.

Section RetryFacts.
Context `{Externals} `{DataProvider} `{Config}.

(** A failed attempt that reaches the end of the loop body: the pause, then
    the remaining attempts. *)
Lemma failed_attempt_last (k : Z) ticker (w : world) :
  k + 1 = MAX_RETRIES →
  (sleep_before_retry k;; attempt_loop (seqZ (Z.succ k) 0) ticker) w
  = (None, w).
Proof.
  intros Hk. rewrite fetch_bind_run. unfold sleep_before_retry.
  assert ((k <? MAX_RETRIES - 1) = false) as -> by lia.
  reflexivity.
Qed.

Lemma failed_attempt_more (k : Z) (m : nat) ticker (w : world) :
  k + Z.of_nat (S (S m)) = MAX_RETRIES →
  (sleep_before_retry k;; attempt_loop (seqZ (Z.succ k) (Z.of_nat (S m))) ticker) w
  = attempt_loop (seqZ (Z.succ k) (Z.of_nat (S m))) ticker
      (World _ (provider w) (trace w ++ [EvSleep RETRY_DELAY_SECONDS])).
Proof.
  intros Hk. rewrite fetch_bind_run. unfold sleep_before_retry.
  assert ((k <? MAX_RETRIES - 1) = true) as -> by lia.
  reflexivity.
Qed.

(** With a provider that never answers with a falsy record, the last
    [S m] attempts of the loop leave [n] lookups with a pause between any
    two of them and none at the end; without a price, all of them ran. *)
Lemma attempt_loop_retry_trace (m : nat) :
  never_falsy →
  ∀ (k : Z) ticker (w : world),
    k + Z.of_nat (S m) = MAX_RETRIES →
    ∃ n : nat,
      (1 ≤ n ≤ S m)%nat
      ∧ trace (attempt_loop (seqZ k (Z.of_nat (S m))) ticker w).2
        = trace w ++ retry_trace ticker RETRY_DELAY_SECONDS n
      ∧ ((attempt_loop (seqZ k (Z.of_nat (S m))) ticker w).1 = None → n = S m).
Proof.
  intros Hnf. induction m as [|m IH]; intros k ticker w Hk.
  - (* the final attempt *)
    exists 1%nat. rewrite seqZ_cons by lia.
    replace (Z.pred (Z.of_nat 1)) with 0 by lia.
    cbn [attempt_loop]. rewrite fetch_bind_run. unfold yf_Ticker_info.
    destruct (provider_info ticker (provider w)) as [o p] eqn:Ho.
    split; [lia|].
    destruct o as [|info].
    + rewrite failed_attempt_last by lia. done.
    + rewrite (Hnf ticker (provider w) info) by by rewrite Ho.
      destruct (_extract_price_from_info (default ∅ info)) as [[price|]|e];
        [done | rewrite failed_attempt_last by lia; done..].
  - rewrite seqZ_cons by lia.
    replace (Z.pred (Z.of_nat (S (S m)))) with (Z.of_nat (S m)) by lia.
    cbn [attempt_loop]. rewrite fetch_bind_run. unfold yf_Ticker_info.
    destruct (provider_info ticker (provider w)) as [o p] eqn:Ho.
    assert (∀ w1 : world,
      trace w1 = trace w ++ [EvLookup ticker] →
      ∃ n : nat,
        (1 ≤ n ≤ S (S m))%nat
        ∧ trace ((sleep_before_retry k;;
                  attempt_loop (seqZ (Z.succ k) (Z.of_nat (S m))) ticker) w1).2
          = trace w ++ retry_trace ticker RETRY_DELAY_SECONDS n
        ∧ (((sleep_before_retry k;;
             attempt_loop (seqZ (Z.succ k) (Z.of_nat (S m))) ticker) w1).1 = None
           → n = S (S m))) as Hfail.
    { intros w1 Hw1. rewrite failed_attempt_more by lia.
      destruct (IH (Z.succ k) ticker
                  (World _ (provider w1) (trace w1 ++ [EvSleep RETRY_DELAY_SECONDS])))
        as (n & Hn & Htr & Hnone); [lia|].
      exists (S n). split; [lia|]. split.
      - rewrite Htr. cbn [trace]. rewrite Hw1.
        destruct n as [|n]; [lia|]. rewrite retry_trace_step.
        by rewrite <- !app_assoc.
      - intros Hr. by rewrite (Hnone Hr). }
    destruct o as [|info].
    + by apply Hfail.
    + rewrite (Hnf ticker (provider w) info) by by rewrite Ho.
      destruct (_extract_price_from_info (default ∅ info)) as [[price|]|e];
        [|by apply Hfail..].
      exists 1%nat. split; [lia|]. done.
Qed.

(** X20. Apart from the falsy record, the pauses of [get_ticker_price] are as
    the retry policy has them: [n] lookups of the normalized ticker, [n - 1]
    pauses, each between two lookups, and all [MAX_RETRIES] attempts made
    when no price comes out. *)
Lemma get_ticker_price_retry_trace (ticker : string) (w : world) :
  never_falsy → 0 < MAX_RETRIES → strip ticker ≠ EmptyString →
  ∃ n : nat,
    (1 ≤ n)%nat ∧ Z.of_nat n ≤ MAX_RETRIES
    ∧ trace (get_ticker_price ticker w).2
      = trace w ++ retry_trace (upper (strip ticker)) RETRY_DELAY_SECONDS n
    ∧ lookups (retry_trace (upper (strip ticker)) RETRY_DELAY_SECONDS n) = n
    ∧ sleeps (retry_trace (upper (strip ticker)) RETRY_DELAY_SECONDS n) = (n - 1)%nat
    ∧ ((get_ticker_price ticker w).1 = None → Z.of_nat n = MAX_RETRIES).
Proof.
  intros Hnf Hmax Hs. rewrite get_ticker_price_run by done.
  destruct (Z.to_nat MAX_RETRIES) as [|m] eqn:Hm; [lia|].
  assert (Z.of_nat (S m) = MAX_RETRIES) as HM by lia.
  destruct (attempt_loop_retry_trace m Hnf 0 (upper (strip ticker)) w)
    as (n & Hn & Htr & Hnone); [lia|].
  rewrite HM in Htr, Hnone.
  exists n. destruct n as [|n]; [lia|].
  rewrite lookups_retry_trace, sleeps_retry_trace.
  split_and!; [lia | lia | done | done | lia |].
  intros Hr. specialize (Hnone Hr). lia.
Qed.
End RetryFacts.

(** ** The exchange rate *)

Section ExchangeRateFacts.
Context `{Externals} `{DataProvider} `{Config}.

(** C10. [get_exchange_rate] asks the provider once, for the currency pair
    as given, and never sleeps: no fallback chain, no retry.  A
    [previousClose] that is present and that [float()] accepts is returned
    as it is, whatever its sign; a missing field, an empty or [None]
    record, a raising lookup and a [previousClose] that [float()] rejects,
    [None] included, all give no rate. *)
Theorem get_exchange_rate_single_lookup (currency_pair : string) (w : world) :
  let o := (provider_info currency_pair (provider w)).1 in
  let rate := (get_exchange_rate currency_pair w).1 in
  trace (get_exchange_rate currency_pair w).2 = trace w ++ [EvLookup currency_pair]
  ∧ provider (get_exchange_rate currency_pair w).2
    = (provider_info currency_pair (provider w)).2
  ∧ (∀ info v f,
       o = LookupReturns (Some info) → info !! "previousClose"%string = Some v →
       py_float v = Ok f → rate = Some f)
  ∧ (∀ info v e,
       o = LookupReturns (Some info) → info !! "previousClose"%string = Some v →
       py_float v = Raise e → rate = None)
  ∧ (∀ info,
       o = LookupReturns (Some info) → info !! "previousClose"%string = None →
       rate = None)
  ∧ (o = LookupReturns (Some ∅) → rate = None)
  ∧ (o = LookupReturns None → rate = None)
  ∧ (o = LookupRaises → rate = None).
Proof.
  intros o rate. subst o rate. unfold get_exchange_rate.
  rewrite fetch_bind_run. unfold yf_Ticker_info.
  destruct (provider_info currency_pair (provider w)) as [o p].
  cbn [fst snd mret fetch_ret trace provider].
  split_and!; try done.
  - intros info v f -> Hv Hf. cbn [info_falsy negb].
    rewrite bool_decide_eq_false_2; [by rewrite Hv, Hf|].
    intros ->. by rewrite lookup_empty in Hv.
  - intros info v e -> Hv Hf. cbn [info_falsy negb].
    destruct (bool_decide (info = ∅)); [done|]. by rewrite Hv, Hf.
  - intros info -> Hv. cbn [info_falsy negb].
    destruct (bool_decide (info = ∅)); [done|]. by rewrite Hv.
  - by intros ->.
  - by intros ->.
  - by intros ->.
Qed.
End ExchangeRateFacts.

(** ** The batch *)

Section BatchFacts.
Context `{Externals} `{DataProvider} `{Config}.

(** Both branches of the loop body store what the single-ticker fetch
    gives: for a blank ticker that is [None], with the world untouched. *)
Lemma fetch_each_cons ticker rest (results : gmap string (option float)) (w : world) :
  fetch_each (ticker :: rest) results w
  = fetch_each rest (<[ticker := (get_ticker_price ticker w).1]> results)
      (get_ticker_price ticker w).2.
Proof.
  cbn [fetch_each]. rewrite truthy_guard.
  destruct (decide (strip ticker = EmptyString)) as [Hs | Hs].
  - rewrite bool_decide_eq_true_2 by done. cbn [negb].
    by rewrite get_ticker_price_blank_run.
  - rewrite bool_decide_eq_false_2 by done. cbn [negb].
    rewrite fetch_bind_run. by destruct (get_ticker_price ticker w).
Qed.

Lemma fetch_each_app pre post (results : gmap string (option float)) (w : world) :
  fetch_each (pre ++ post) results w
  = fetch_each post (fetch_each pre results w).1 (fetch_each pre results w).2.
Proof.
  revert results w. induction pre as [|t pre IH]; intros results w; [done|].
  rewrite <- app_comm_cons, !fetch_each_cons. apply IH.
Qed.

(** The dictionary built so far does not steer the fetches. *)
Lemma fetch_each_world tickers (r1 r2 : gmap string (option float)) (w : world) :
  (fetch_each tickers r1 w).2 = (fetch_each tickers r2 w).2.
Proof.
  revert r1 r2 w. induction tickers as [|t tickers IH]; intros r1 r2 w; [done|].
  rewrite !fetch_each_cons. apply IH.
Qed.

Lemma fetch_each_lookup_notin tickers (results : gmap string (option float))
    (w : world) (t : string) :
  t ∉ tickers → (fetch_each tickers results w).1 !! t = results !! t.
Proof.
  revert results w. induction tickers as [|u tickers IH]; intros results w Hnot; [done|].
  rewrite fetch_each_cons, IH.
  - apply lookup_insert_ne. intros ->. apply Hnot. by left.
  - intros Hin. apply Hnot. by right.
Qed.

Lemma fetch_each_dom tickers (results : gmap string (option float)) (w : world) :
  dom (fetch_each tickers results w).1 = list_to_set tickers ∪ dom results.
Proof.
  revert results w. induction tickers as [|u tickers IH]; intros results w.
  - cbn. by rewrite (left_id_L ∅ (∪)).
  - rewrite fetch_each_cons, IH, dom_insert_L. cbn [list_to_set].
    by rewrite (assoc_L (∪)), (comm_L (∪) _ {[u]}).
Qed.

(** The entry of a ticker is what its last fetch in the batch returned. *)
Lemma get_multiple_prices_last_write pre t post (w : world) :
  t ∉ post →
  (get_multiple_prices (pre ++ t :: post) w).1 !! t
  = Some (get_ticker_price t (get_multiple_prices pre w).2).1.
Proof.
  intros Hnot. unfold get_multiple_prices.
  rewrite fetch_each_app, fetch_each_cons, fetch_each_lookup_notin by done.
  apply lookup_insert_eq.
Qed.

(** With a memoryless provider the price of a ticker is the same from
    every world. *)
Lemma attempt_loop_memoryless attempts ticker (w w' : world) :
  memoryless → (attempt_loop attempts ticker w).1 = (attempt_loop attempts ticker w').1.
Proof.
  intros Hm. revert w w'. induction attempts as [|k attempts IH]; intros w w'; [done|].
  cbn [attempt_loop]. rewrite !fetch_bind_run. unfold yf_Ticker_info.
  specialize (Hm ticker (provider w) (provider w')).
  destruct (provider_info ticker (provider w)) as [o p].
  destruct (provider_info ticker (provider w')) as [o' p'].
  cbn [fst] in Hm. subst o'.
  assert (∀ w1 w2 : world,
    ((sleep_before_retry k;; attempt_loop attempts ticker) w1).1
    = ((sleep_before_retry k;; attempt_loop attempts ticker) w2).1) as Hfail.
  { intros w1 w2. rewrite !fetch_bind_run. unfold sleep_before_retry.
    destruct (k <? MAX_RETRIES - 1); apply IH. }
  destruct o as [|info]; [apply Hfail|].
  destruct (info_falsy info); [apply IH|].
  destruct (_extract_price_from_info (default ∅ info)) as [[price|]|e];
    [done | apply Hfail..].
Qed.

Lemma get_ticker_price_memoryless ticker (w w' : world) :
  memoryless → (get_ticker_price ticker w).1 = (get_ticker_price ticker w').1.
Proof.
  intros Hm. unfold get_ticker_price.
  destruct (negb (str_truthy ticker) || bool_decide (strip ticker = EmptyString));
    [done|]. by apply attempt_loop_memoryless.
Qed.

(** C5. [get_multiple_prices] returns a dictionary whose keys are exactly
    the input tickers, one entry for each distinct one.  The entry of a
    ticker holds what the single-ticker fetch returned at its last
    occurrence in the list, a [None] price included, and the batch goes on
    to the tickers after it.  When the provider answers each ticker
    regardless of what it was asked before, the entry is what the
    single-ticker fetch returns for that ticker on its own, so no other
    ticker of the batch has a part in it. *)
Theorem get_multiple_prices_entries (tickers : list string) (w : world) :
  let results := (get_multiple_prices tickers w).1 in
  dom results = list_to_set tickers
  ∧ (∀ t, t ∈ tickers → is_Some (results !! t))
  ∧ (∀ pre t post,
       tickers = pre ++ t :: post → t ∉ post →
       results !! t = Some (get_ticker_price t (get_multiple_prices pre w).2).1)
  ∧ (memoryless →
     ∀ t w0, t ∈ tickers → results !! t = Some (get_ticker_price t w0).1).
Proof.
  intros results. subst results.
  assert (dom (get_multiple_prices tickers w).1 = list_to_set tickers) as Hdom.
  { unfold get_multiple_prices.
    by rewrite fetch_each_dom, dom_empty_L, (right_id_L ∅ (∪)). }
  split_and!.
  - done.
  - intros t Ht. apply elem_of_dom. rewrite Hdom. by apply elem_of_list_to_set.
  - intros pre t post -> Hnot. by apply get_multiple_prices_last_write.
  - intros Hm t w0 Ht.
    destruct (list_elem_of_split_r _ _ Ht) as (pre & post & -> & Hnot).
    rewrite get_multiple_prices_last_write by done.
    f_equal. by apply get_ticker_price_memoryless.
Qed.

(** C6. ["  aapl  "] and ["AAPL"] have the same normal form, ["AAPL"], and
    the single-ticker fetch treats them alike: the same lookups of
    ["AAPL"], the same pauses, the same price.  The dictionary of
    [get_multiple_prices] is keyed by the tickers as given, so the two
    inputs make two entries, each with the price of its own fetch. *)
Theorem padded_ticker_same_fetch_two_entries (w : world) :
  upper (strip "  aapl  ") = "AAPL"%string
  ∧ upper (strip "AAPL") = "AAPL"%string
  ∧ get_ticker_price "  aapl  " w = get_ticker_price "AAPL" w
  ∧ dom (get_multiple_prices ["  aapl  "; "AAPL"]%string w).1
    = {["  aapl  "%string; "AAPL"%string]}
  ∧ (get_multiple_prices ["  aapl  "; "AAPL"]%string w).1 !! "  aapl  "%string
    = Some (get_ticker_price "  aapl  " w).1
  ∧ (get_multiple_prices ["  aapl  "; "AAPL"]%string w).1 !! "AAPL"%string
    = Some (get_ticker_price "AAPL" (get_ticker_price "  aapl  " w).2).1.
Proof.
  split_and!.
  - by vm_compute.
  - by vm_compute.
  - apply get_ticker_price_normal_form. by vm_compute.
  - unfold get_multiple_prices.
    by rewrite fetch_each_dom, dom_empty_L, (right_id_L ∅ (∪)).
  - apply (get_multiple_prices_last_write [] "  aapl  " ["AAPL"%string] w).
    by intros ?%list_elem_of_singleton.
  - change ["  aapl  "%string; "AAPL"%string] with (["  aapl  "%string] ++ ["AAPL"%string]).
    rewrite get_multiple_prices_last_write by apply not_elem_of_nil.
    unfold get_multiple_prices. by rewrite fetch_each_cons.
Qed.
End BatchFacts.

(** ** The fetcher on scripted providers *)

Section ScriptedRuns.
#[local] Existing Instance sample_externals.
#[local] Existing Instance scripted_provider.
#[local] Existing Instance sample_config.

(** C2. With three attempts allowed, a lookup that twice returns an empty
    record and then a quote is asked three times and no pause is made; one
    that returns an empty record three times gives no price after three
    lookups and no pause: the [continue] of the empty-record branch skips
    the pause at the end of the loop body.  A lookup that raises twice
    before the quote is asked three times with a pause of
    [RETRY_DELAY_SECONDS] after each of the two failures. *)
Theorem get_ticker_price_empty_record_no_pause :
  get_ticker_price "AAPL" (World _ [empty_record; empty_record; quote_at 5] [])
  = (Some 5%float,
     World _ [] [EvLookup "AAPL"; EvLookup "AAPL"; EvLookup "AAPL"])
  ∧ get_ticker_price "AAPL" (World _ [empty_record; empty_record; empty_record] [])
    = (None, World _ [] [EvLookup "AAPL"; EvLookup "AAPL"; EvLookup "AAPL"])
  ∧ sleeps (trace (get_ticker_price "AAPL"
                     (World _ [empty_record; empty_record; empty_record] [])).2) = 0%nat
  ∧ get_ticker_price "AAPL" (World _ [LookupRaises; LookupRaises; quote_at 5] [])
    = (Some 5%float,
       World _ [] [EvLookup "AAPL"; EvSleep 2; EvLookup "AAPL"; EvSleep 2;
                   EvLookup "AAPL"]).
Proof. split_and!; by vm_compute. Qed.

Example get_ticker_price_all_raise :
  get_ticker_price "AAPL" (World _ [LookupRaises; LookupRaises; LookupRaises] [])
  = (None,
     World _ [] [EvLookup "AAPL"; EvSleep 2; EvLookup "AAPL"; EvSleep 2;
                 EvLookup "AAPL"]).
Proof. by vm_compute. Qed.

(** A ticker made of a space, a tabulation, U+00A0, U+0085 and U+2003. *)
Lemma get_ticker_price_blank_witness :
  whitespace_only (text [32; 9; 160; 133; 8195]) = true
  ∧ get_ticker_price (text [32; 9; 160; 133; 8195]) (World _ [quote_at 5] [])
    = (None, World _ [quote_at 5] []).
Proof.
  split; [by vm_compute|].
  apply (get_ticker_price_blank (text [32; 9; 160; 133; 8195])
           (@World scripted_provider [quote_at 5] [])).
  right. by vm_compute.
Defined.

Lemma get_exchange_rate_single_lookup_witness :
  (get_exchange_rate "CAD=X"
     (World _ [LookupReturns (Some {[ "previousClose"%string := PyInt (-3) ]})] [])).1
  = Some (-3)%float.
Proof.
  apply (get_exchange_rate_single_lookup "CAD=X"
           (@World scripted_provider
              [LookupReturns (Some {[ "previousClose"%string := PyInt (-3) ]})] []))
    with (info := {[ "previousClose"%string := PyInt (-3) ]}) (v := PyInt (-3));
    reflexivity.
Defined.

(** C10, as stated, fails: a [previousClose] that is present and [None]
    gives no rate, since [float(None)] raises inside the [try]. *)
Lemma get_exchange_rate_null_close :
  let info : gmap string pyval := {[ "previousClose"%string := PyNone ]} in
  let rate := (get_exchange_rate "CAD=X" (World _ [LookupReturns (Some info)] [])).1 in
  info !! "previousClose"%string = Some PyNone
  ∧ rate = None
  ∧ ¬ (∃ f, rate = Some f).
Proof.
  intros info rate. split_and!; [by vm_compute..|].
  intros [f Hf]. by vm_compute in Hf.
Qed.

Example get_exchange_rate_zero :
  get_exchange_rate "CAD=X"
    (World _ [LookupReturns (Some {[ "previousClose"%string := PyFloat 0 ]})] [])
  = (Some 0%float, World _ [] [EvLookup "CAD=X"]).
Proof. by vm_compute. Qed.

(** C6, as stated, fails: the two spellings of one ticker make two entries
    of the returned dictionary, not one. *)
Lemma padded_ticker_two_entries :
  let results :=
    (get_multiple_prices ["  aapl  "; "AAPL"]%string
       (World _ [quote_at 5; quote_at 6] [])).1 in
  size results = 2%nat
  ∧ results !! "  aapl  "%string = Some (Some 5%float)
  ∧ results !! "AAPL"%string = Some (Some 6%float)
  ∧ ¬ (∃ key : string, dom results = {[ key ]}).
Proof.
  intros results. split_and!; try by vm_compute.
  intros [key Hkey]. apply (f_equal size) in Hkey.
  rewrite size_singleton, size_dom in Hkey. by vm_compute in Hkey.
Qed.
End ScriptedRuns.

Section TableRuns.
#[local] Existing Instance sample_externals.
#[local] Existing Instance sample_config.
#[local] Existing Instance msft_only_provider.

Lemma table_provider_memoryless : memoryless.
Proof. intros ticker s s'. reflexivity. Qed.

Lemma get_multiple_prices_entries_witness :
  (get_multiple_prices ["AAPL"; "MSFT"; "AAPL"]%string (World _ tt [])).1 !! "MSFT"%string
  = Some (get_ticker_price "MSFT" (World _ tt [])).1.
Proof.
  apply (get_multiple_prices_entries ["AAPL"; "MSFT"; "AAPL"]%string
           (@World msft_only_provider tt [])).
  - exact table_provider_memoryless.
  - apply list_elem_of_In. right; left; reflexivity.
Defined.

(** A ticker that exhausts its attempts is absent on its own: the batch
    goes on and its neighbour has its price. *)
Example get_multiple_prices_one_failure :
  let results :=
    (get_multiple_prices ["AAPL"; "MSFT"; "AAPL"]%string (World _ tt [])).1 in
  size results = 2%nat
  ∧ results !! "AAPL"%string = Some None
  ∧ results !! "MSFT"%string = Some (Some 5%float).
Proof. intros results. split_and!; by vm_compute. Qed.
End TableRuns.

(** ** The scheduler *)

Lemma to_microseconds_split (d : datetime) :
  to_microseconds d
  = top_of_hour d + minute d * 60000000 + second d * 1000000 + microsecond d.
Proof. unfold top_of_hour, to_microseconds. cbn [ordinal hour minute second microsecond]. lia. Qed.

Lemma next_hour_top (d : datetime) :
  valid_datetime d →
  replace_minute (datetime_add d (timedelta_hours 1)) 0
  = Ok (of_microseconds (top_of_hour d + 3600000000)).
Proof.
  intros [Hh Hm Hs Hu]. unfold replace_minute, datetime_add, timedelta_hours.
  cbn [Z.leb Z.ltb Z.compare andb]. f_equal.
  rewrite to_microseconds_split.
  unfold of_microseconds, top_of_hour, to_microseconds.
  cbn [ordinal hour minute second microsecond].
  f_equal; Z.div_mod_to_equations; lia.
Qed.

Lemma to_microseconds_next_hour (d : datetime) :
  valid_datetime d →
  to_microseconds (of_microseconds (top_of_hour d + 3600000000))
  = top_of_hour d + 3600000000.
Proof.
  intros [Hh Hm Hs Hu].
  unfold of_microseconds, top_of_hour, to_microseconds.
  cbn [ordinal hour minute second microsecond].
  Z.div_mod_to_equations. lia.
Qed.

Section SchedulerFacts.
Context `{Config}.

(** C3. [should_update]: a forced update always runs; otherwise none runs
    outside the market hours; otherwise the first one runs; otherwise one
    runs exactly when at least [UPDATE_INTERVAL_MINUTES] have passed since
    the last.  With the market from 9 to 16 and ten minutes between
    updates: none at 08:59, one at 09:00 when none was made before, none at
    09:05 and one at 09:10 after an update at 09:00, none at 16:00. *)
Theorem should_update_cases (self : UpdateScheduler) (now : datetime) (force : bool) :
  (force = true → should_update self now force = true)
  ∧ (force = false →
     hour now < MARKET_OPEN_HOUR ∨ MARKET_CLOSE_HOUR ≤ hour now →
     should_update self now force = false)
  ∧ (force = false →
     MARKET_OPEN_HOUR ≤ hour now < MARKET_CLOSE_HOUR →
     last_update self = None →
     should_update self now force = true)
  ∧ (∀ last,
       force = false →
       MARKET_OPEN_HOUR ≤ hour now < MARKET_CLOSE_HOUR →
       last_update self = Some last →
       (should_update self now force = true
        ↔ timedelta_minutes UPDATE_INTERVAL_MINUTES ≤ datetime_sub now last))
  ∧ (MARKET_OPEN_HOUR = 9 → MARKET_CLOSE_HOUR = 16 → UPDATE_INTERVAL_MINUTES = 10 →
     ∀ day,
       should_update self (at_time day 8 59 0 0) false = false
       ∧ should_update (Scheduler None) (at_time day 9 0 0 0) false = true
       ∧ should_update (Scheduler (Some (at_time day 9 0 0 0)))
           (at_time day 9 5 0 0) false = false
       ∧ should_update (Scheduler (Some (at_time day 9 0 0 0)))
           (at_time day 9 10 0 0) false = true
       ∧ should_update self (at_time day 16 0 0 0) false = false).
Proof.
  unfold should_update, _is_outside_market_hours. split_and!.
  - by intros ->.
  - intros -> Hout.
    assert ((hour now <? MARKET_OPEN_HOUR) || (MARKET_CLOSE_HOUR <=? hour now) = true)
      as -> by lia.
    done.
  - intros -> Hin Hlast.
    assert ((hour now <? MARKET_OPEN_HOUR) || (MARKET_CLOSE_HOUR <=? hour now) = false)
      as -> by lia.
    by rewrite Hlast.
  - intros last -> Hin Hlast.
    assert ((hour now <? MARKET_OPEN_HOUR) || (MARKET_CLOSE_HOUR <=? hour now) = false)
      as -> by lia.
    rewrite Hlast. apply Z.leb_le.
  - intros -> -> -> day. unfold datetime_sub, timedelta_minutes, to_microseconds, at_time.
    cbn [ordinal hour minute second microsecond last_update].
    split_and!; try reflexivity.
    + apply Z.leb_gt. lia.
    + apply Z.leb_le. lia.
Qed.

(** C4. [_calculate_wait_until_next_interval] returns the whole seconds,
    rounded down, from [now] to the first update boundary strictly after
    [now].  That boundary is always in the future, but the result is only
    never negative: it is above zero when a full second or more is left, as
    it is whenever [now] has no fraction of a second (on a boundary too),
    and zero within the last second before a boundary.  With ten minutes
    between updates it is 180 at 09:07 and 600 at 09:50. *)
Theorem wait_until_next_interval_whole_seconds (now : datetime) :
  valid_datetime now → 0 < UPDATE_INTERVAL_MINUTES →
  ∃ target wait,
    _calculate_wait_until_next_interval now = Ok wait
    ∧ interval_boundary now target
    ∧ to_microseconds now < target
    ∧ (∀ t, interval_boundary now t → to_microseconds now < t → target ≤ t)
    ∧ wait = (target - to_microseconds now) / 1000000
    ∧ 0 ≤ wait
    ∧ (1000000 ≤ target - to_microseconds now ↔ 0 < wait)
    ∧ (microsecond now = 0 →
       0 < wait ∧ wait * 1000000 = target - to_microseconds now)
    ∧ (UPDATE_INTERVAL_MINUTES = 10 →
       ∀ day,
         _calculate_wait_until_next_interval (at_time day 9 7 0 0) = Ok 180
         ∧ _calculate_wait_until_next_interval (at_time day 9 50 0 0) = Ok 600).
Proof.
  intros Hvalid Hpos. pose proof Hvalid as [Hh Hm Hs Hu].
  set (q := minute now / UPDATE_INTERVAL_MINUTES).
  set (next := (q + 1) * UPDATE_INTERVAL_MINUTES).
  assert (q * UPDATE_INTERVAL_MINUTES ≤ minute now) as Hlo.
  { rewrite Z.mul_comm. by apply Z.mul_div_le. }
  assert (minute now < next) as Hhi.
  { unfold next. rewrite Z.mul_comm, Z.add_1_r. by apply Z.mul_succ_div_gt. }
  assert (0 ≤ q) as Hq by (apply Z.div_pos; lia).
  exists (top_of_hour now + timedelta_minutes (Z.min 60 next)).
  exists ((top_of_hour now + timedelta_minutes (Z.min 60 next) - to_microseconds now)
          / 1000000).
  pose proof (to_microseconds_split now) as Hnow.
  assert (to_microseconds now < top_of_hour now + timedelta_minutes (Z.min 60 next))
    as Hfuture by (unfold timedelta_minutes; lia).
  split_and!.
  - unfold _calculate_wait_until_next_interval, py_floordiv.
    assert ((UPDATE_INTERVAL_MINUTES =? 0) = false) as -> by lia.
    cbn [result_bind]. fold q. fold next.
    assert (∀ target_time,
      to_microseconds target_time = top_of_hour now + timedelta_minutes (Z.min 60 next) →
      Z.max 0 (int_total_seconds (datetime_sub target_time now))
      = (top_of_hour now + timedelta_minutes (Z.min 60 next) - to_microseconds now)
        / 1000000) as Hwait.
    { intros target_time Ht. unfold int_total_seconds, datetime_sub. rewrite Ht.
      rewrite Z.quot_div_nonneg by lia.
      apply Z.max_r. apply Z.div_pos; lia. }
    destruct (60 <=? next) eqn:Hroll.
    + rewrite next_hour_top by done. cbn [result_bind]. f_equal.
      apply Hwait. rewrite to_microseconds_next_hour by done.
      unfold timedelta_minutes. lia.
    + unfold replace_minute.
      assert ((0 <=? next) && (next <? 60) = true) as -> by lia.
      cbn [result_bind]. f_equal. apply Hwait.
      unfold top_of_hour, to_microseconds, timedelta_minutes.
      cbn [ordinal hour minute second microsecond]. lia.
  - exists (q + 1). split; [lia | done].
  - done.
  - intros t (k & Hk & ->) Hafter. unfold timedelta_minutes in *.
    assert (Z.min 60 next ≤ Z.min 60 (k * UPDATE_INTERVAL_MINUTES)); [|lia].
    destruct (decide (60 ≤ k * UPDATE_INTERVAL_MINUTES)) as [Hk60 | Hk60]; [lia|].
    assert (minute now < k * UPDATE_INTERVAL_MINUTES) as Hmk by lia.
    assert (q < k) as Hqk.
    { apply (Z.mul_lt_mono_pos_r UPDATE_INTERVAL_MINUTES); lia. }
    assert (next ≤ k * UPDATE_INTERVAL_MINUTES); [|lia].
    unfold next. apply Z.mul_le_mono_nonneg_r; lia.
  - done.
  - apply Z.div_pos; lia.
  - split; intros Hw.
    + apply Z.div_str_pos. lia.
    + apply Z.le_ngt. intros Hlt. rewrite Z.div_small in Hw; lia.
  - intros Hus. unfold timedelta_minutes in *.
    assert (top_of_hour now + Z.min 60 next * 60000000 - to_microseconds now
            = (Z.min 60 next * 60 - minute now * 60 - second now) * 1000000) as ->
      by lia.
    rewrite Z.div_mul by done. lia.
  - intros HI day. unfold _calculate_wait_until_next_interval, py_floordiv.
    rewrite HI. unfold at_time. cbn [ordinal hour minute second microsecond].
    split.
    + change (7 / 10) with 0. change (10 =? 0) with false. cbn [result_bind].
      change ((0 + 1) * 10) with 10.
      change (60 <=? 10) with false. unfold replace_minute.
      change ((0 <=? 10) && (10 <? 60)) with true. cbn [result_bind].
      unfold int_total_seconds, datetime_sub, to_microseconds.
      cbn [ordinal hour minute second microsecond]. f_equal.
      replace (_ - _) with 180000000 by lia. reflexivity.
    + change (50 / 10) with 5. change (10 =? 0) with false. cbn [result_bind].
      change ((5 + 1) * 10) with 60.
      change (60 <=? 60) with true.
      rewrite (next_hour_top (DateTime day 9 50 0 0)) by (split; cbn; lia).
      cbn [result_bind]. unfold int_total_seconds, datetime_sub.
      rewrite (to_microseconds_next_hour (DateTime day 9 50 0 0)) by (split; cbn; lia).
      unfold top_of_hour, to_microseconds.
      cbn [ordinal hour minute second microsecond]. f_equal.
      replace (_ - _) with 600000000 by lia. reflexivity.
Qed.
End SchedulerFacts.

(** ** The scheduler with the market from 9 to 16 and ten-minute updates *)

Section SchedulerRuns.
#[local] Existing Instance sample_config.

Lemma should_update_cases_witness :
  should_update (Scheduler (Some (at_time 0 9 0 0 0))) (at_time 0 9 10 0 0) false = true
  ∧ should_update (Scheduler (Some (at_time 0 9 0 0 0))) (at_time 0 8 59 0 0) false = false.
Proof.
  split.
  - destruct (should_update_cases (H := sample_config)
                (Scheduler (Some (at_time 0 9 0 0 0))) (at_time 0 9 10 0 0) false)
      as (_ & _ & _ & Hlast & _).
    apply (Hlast (at_time 0 9 0 0 0)).
    + reflexivity.
    + by vm_compute.
    + reflexivity.
    + by vm_compute.
  - destruct (should_update_cases (H := sample_config)
                (Scheduler (Some (at_time 0 9 0 0 0))) (at_time 0 8 59 0 0) false)
      as (_ & Hout & _).
    apply Hout.
    + reflexivity.
    + left. by vm_compute.
Defined.

Lemma wait_until_next_interval_witness :
  ∃ wait,
    _calculate_wait_until_next_interval (at_time 0 9 20 0 0) = Ok wait ∧ 0 < wait.
Proof.
  destruct (wait_until_next_interval_whole_seconds (H := sample_config)
              (at_time 0 9 20 0 0))
    as (target & wait & Hwait & _ & _ & _ & _ & _ & _ & Hwhole & _).
  - split; by vm_compute.
  - by vm_compute.
  - exists wait. split; [exact Hwait|]. apply Hwhole. reflexivity.
Defined.

(** C4, as stated, fails: half a second before the boundary of 09:10 the
    wait is zero. *)
Lemma wait_zero_in_last_second :
  valid_datetime (at_time 0 9 9 59 500000)
  ∧ _calculate_wait_until_next_interval (at_time 0 9 9 59 500000) = Ok 0
  ∧ ¬ (∃ wait,
         _calculate_wait_until_next_interval (at_time 0 9 9 59 500000) = Ok wait
         ∧ 0 < wait).
Proof.
  split_and!.
  - split; by vm_compute.
  - by vm_compute.
  - intros (wait & Hwait & Hpos). vm_compute in Hwait.
    injection Hwait as <-. lia.
Qed.

Example wait_on_boundary :
  _calculate_wait_until_next_interval (at_time 0 9 10 0 0) = Ok 600.
Proof. by vm_compute. Qed.
End SchedulerRuns.

(** ** Column letters *)

(** Induction on a string from its last character. *)
Lemma string_rev_ind (P : string → Prop) :
  P EmptyString →
  (∀ s c, P s → P (s +:+ String c EmptyString)) →
  ∀ s, P s.
Proof.
  intros Hnil Hsnoc s.
  assert (∀ (n : nat) s, String.length s = n → P s) as Hlen; [|by apply (Hlen (String.length s))].
  clear s. induction n as [|n IH]; intros s Hs.
  - destruct s; [done | discriminate].
  - assert (∃ s' c, s = s' +:+ String c EmptyString ∧ String.length s' = n)
      as (s' & c & -> & Hs').
    { clear IH. revert n Hs. induction s as [|a r IHr]; intros n Hs; [discriminate|].
      destruct r as [|b r].
      - exists EmptyString, a. simpl in *. split; [done | lia].
      - destruct n as [|n]; [discriminate|].
        destruct (IHr n) as (s' & c & Heq & Hlen'); [simpl in *; lia|].
        exists (String a s'), c. rewrite string_app_cons, <- Heq.
        split; [done | simpl; by rewrite Hlen']. }
    apply Hsnoc, IH, Hs'.
Qed.

Lemma column_letter_loop_pos (col_num : Z) (s : string) :
  0 < col_num →
  column_letter_loop col_num s
  = column_letter_loop ((col_num - 1) / 26)
      (String (chr (65 + (col_num - 1) mod 26)) s).
Proof.
  intros Hpos. rewrite column_letter_loop_equation_1.
  destruct (decide (0 < col_num)); [|lia].
  by rewrite column_letter_loop_clause_1_equation_1.
Qed.

Lemma column_letter_loop_nonpos (col_num : Z) (s : string) :
  col_num ≤ 0 → column_letter_loop col_num s = s.
Proof.
  intros Hle. rewrite column_letter_loop_equation_1.
  destruct (decide (0 < col_num)); [lia | done].
Qed.

(** The loop only ever prepends to what it was given. *)
Lemma column_letter_loop_app (col_num : Z) (s : string) :
  column_letter_loop col_num s = column_letter_loop col_num EmptyString +:+ s.
Proof.
  destruct (decide (col_num ≤ 0)) as [Hle | Hpos].
  { by rewrite !column_letter_loop_nonpos. }
  assert (0 ≤ col_num) as Hnn by lia. clear Hpos.
  revert s. revert col_num Hnn.
  refine (Zlt_0_ind (λ n, ∀ s, column_letter_loop n s
                               = column_letter_loop n EmptyString +:+ s) _).
  intros n IH Hn s.
  destruct (decide (n = 0)) as [-> | Hne].
  { by rewrite !column_letter_loop_nonpos. }
  rewrite !(column_letter_loop_pos n) by lia.
  assert (0 ≤ (n - 1) / 26 < n) as Hlt.
  { split; [apply Z.div_pos; lia | apply Z.div_lt_upper_bound; lia]. }
  rewrite (IH _ Hlt (String _ s)), (IH _ Hlt (String _ EmptyString)).
  by rewrite string_app_assoc.
Qed.

Lemma get_column_letter_step (col_num : Z) :
  0 < col_num →
  _get_column_letter col_num
  = _get_column_letter ((col_num - 1) / 26)
    +:+ String (chr (65 + (col_num - 1) mod 26)) EmptyString.
Proof.
  intros Hpos. unfold _get_column_letter.
  rewrite column_letter_loop_pos by done. apply column_letter_loop_app.
Qed.

Lemma get_column_letter_nonpos (col_num : Z) :
  col_num ≤ 0 → _get_column_letter col_num = EmptyString.
Proof. apply column_letter_loop_nonpos. Qed.

Lemma letter_digit (r : Z) :
  0 ≤ r < 26 →
  Z.of_nat (nat_of_ascii (chr (65 + r))) - 64 = r + 1
  ∧ is_upper_letter (chr (65 + r)) = true.
Proof.
  intros Hr. unfold chr, is_upper_letter.
  rewrite nat_ascii_embedding by lia.
  split; [lia|]. apply andb_true_intro. split; apply Nat.leb_le; lia.
Qed.

Lemma upper_letter_digit (c : ascii) :
  is_upper_letter c = true →
  1 ≤ Z.of_nat (nat_of_ascii c) - 64 ≤ 26
  ∧ chr (65 + (Z.of_nat (nat_of_ascii c) - 64 - 1)) = c.
Proof.
  unfold is_upper_letter, chr. intros [Hlo Hhi]%andb_prop.
  apply Nat.leb_le in Hlo, Hhi. split; [lia|].
  replace (Z.to_nat _) with (nat_of_ascii c) by lia.
  apply ascii_nat_embedding.
Qed.

Lemma column_number_from_app (acc : Z) (s1 s2 : string) :
  column_number_from acc (s1 +:+ s2) = column_number_from (column_number_from acc s1) s2.
Proof.
  revert acc. induction s1 as [|c r IH]; intros acc; [done|].
  rewrite string_app_cons. apply IH.
Qed.

Lemma column_number_snoc (s : string) (c : ascii) :
  column_number (s +:+ String c EmptyString)
  = column_number s * 26 + (Z.of_nat (nat_of_ascii c) - 64).
Proof. unfold column_number. by rewrite column_number_from_app. Qed.

Lemma all_upper_letters_app (s1 s2 : string) :
  all_upper_letters (s1 +:+ s2) = all_upper_letters s1 && all_upper_letters s2.
Proof.
  induction s1 as [|c r IH]; [done|].
  rewrite string_app_cons. simpl. by rewrite IH, andb_assoc.
Qed.

Lemma column_number_nonneg (s : string) :
  all_upper_letters s = true → 0 ≤ column_number s.
Proof.
  induction s as [|s c IH] using string_rev_ind; [done|].
  rewrite all_upper_letters_app, column_number_snoc.
  intros [Hs [Hc _]%andb_prop]%andb_prop.
  apply upper_letter_digit in Hc. specialize (IH Hs). lia.
Qed.

(** The label of a column reads back as the column. *)
Lemma column_number_get_column_letter (n : Z) :
  0 ≤ n →
  column_number (_get_column_letter n) = n
  ∧ all_upper_letters (_get_column_letter n) = true.
Proof.
  revert n.
  refine (Zlt_0_ind (λ n, column_number (_get_column_letter n) = n
                          ∧ all_upper_letters (_get_column_letter n) = true) _).
  intros n IH Hn.
  destruct (decide (n = 0)) as [-> | Hne]; [done|].
  rewrite get_column_letter_step by lia.
  destruct (IH ((n - 1) / 26)) as [IHn IHu].
  { split; [apply Z.div_pos; lia | apply Z.div_lt_upper_bound; lia]. }
  destruct (letter_digit ((n - 1) mod 26)) as [Hd Hu].
  { apply Z.mod_pos_bound. lia. }
  rewrite column_number_snoc, all_upper_letters_app, IHn, IHu, Hd.
  simpl. rewrite Hu. split; [|done].
  pose proof (Z.div_mod (n - 1) 26). lia.
Qed.

(** A label is the label of the column it denotes. *)
Lemma get_column_letter_column_number (s : string) :
  all_upper_letters s = true → _get_column_letter (column_number s) = s.
Proof.
  induction s as [|s c IH] using string_rev_ind; [done|].
  rewrite all_upper_letters_app. intros [Hs [Hc _]%andb_prop]%andb_prop.
  pose proof (column_number_nonneg s Hs) as Hnn.
  destruct (upper_letter_digit c Hc) as [Hd Hchr].
  rewrite column_number_snoc.
  set (d := Z.of_nat (nat_of_ascii c) - 64) in *.
  rewrite get_column_letter_step by lia.
  replace ((column_number s * 26 + d - 1) / 26) with (column_number s)
    by (Z.div_mod_to_equations; lia).
  replace ((column_number s * 26 + d - 1) mod 26) with (d - 1)
    by (Z.div_mod_to_equations; lia).
  by rewrite (IH Hs), Hchr.
Qed.

(** C8. For a column number from 1 on, [_get_column_letter] gives the
    numeral of the column in base 26 without zero: a non-empty word over
    A..Z, the letters standing for the digits 1..26, whose value is the
    column, and the only such word.  So 1 is A, 26 is Z, 27 is AA, 52 is
    AZ, 53 is BA, 702 is ZZ and 703 is AAA. *)
Theorem get_column_letter_bijective_base26 (n : Z) :
  1 ≤ n →
  all_upper_letters (_get_column_letter n) = true
  ∧ _get_column_letter n ≠ EmptyString
  ∧ column_number (_get_column_letter n) = n
  ∧ (∀ s, all_upper_letters s = true → column_number s = n → s = _get_column_letter n)
  ∧ _get_column_letter <$> [1; 26; 27; 52; 53; 702; 703]
    = ["A"; "Z"; "AA"; "AZ"; "BA"; "ZZ"; "AAA"]%string.
Proof.
  intros Hn. destruct (column_number_get_column_letter n) as [Hval Hup]; [lia|].
  split_and!; try done.
  - intros Hempty. rewrite Hempty in Hval. unfold column_number in Hval. simpl in Hval. lia.
  - intros s Hs <-. symmetry. by apply get_column_letter_column_number.
Qed.

Lemma get_column_letter_bijective_base26_witness :
  1 ≤ 28
  ∧ _get_column_letter 28 = "AB"%string
  ∧ column_number (_get_column_letter 28) = 28.
Proof.
  split; [lia|]. split; [reflexivity|].
  apply (get_column_letter_bijective_base26 28). lia.
Defined.

(** ** Cell addresses *)

Lemma decimal_from_app (acc : Z) (s1 s2 : string) :
  decimal_from acc (s1 +:+ s2) = decimal_from acc s1 ≫= λ a, decimal_from a s2.
Proof.
  revert acc. induction s1 as [|c r IH]; intros acc; [done|].
  rewrite string_app_cons. simpl. destruct (is_digit c); [apply IH | done].
Qed.

Lemma pretty_N_go_app (x : N) (s : string) :
  pretty_N_go x s = pretty_N_go x EmptyString +:+ s.
Proof.
  revert s. induction (N.lt_wf_0 x) as [x _ IH]; intros s.
  destruct (decide (x = 0%N)) as [-> | Hx]; [by rewrite !pretty_N_go_0|].
  rewrite !(pretty_N_go_step x) by lia.
  assert (x `div` 10 < x)%N as Hlt by (apply N.div_lt; lia).
  rewrite (IH _ Hlt (String _ s)), (IH _ Hlt (String _ EmptyString)).
  by rewrite string_app_assoc.
Qed.

Lemma pretty_N_char_digit (d : N) :
  (d < 10)%N →
  is_digit (pretty_N_char d) = true
  ∧ Z.of_nat (nat_of_ascii (pretty_N_char d)) - 48 = Z.of_N d.
Proof.
  intros Hd.
  assert (d = 0 ∨ d = 1 ∨ d = 2 ∨ d = 3 ∨ d = 4 ∨ d = 5 ∨ d = 6 ∨ d = 7
          ∨ d = 8 ∨ d = 9)%N as Hcases by lia.
  repeat destruct Hcases as [-> | Hcases]; try subst d; by vm_compute.
Qed.

(** Reading back the decimal digits of a number. *)
Lemma decimal_pretty_N_go (x : N) :
  decimal_from 0 (pretty_N_go x EmptyString) = Some (Z.of_N x).
Proof.
  induction (N.lt_wf_0 x) as [x _ IH].
  destruct (decide (x = 0%N)) as [-> | Hx]; [done|].
  rewrite pretty_N_go_step, pretty_N_go_app, decimal_from_app by lia.
  rewrite IH by (apply N.div_lt; lia).
  destruct (pretty_N_char_digit (x `mod` 10)) as [Hdig Hval].
  { apply N.mod_lt. lia. }
  cbn [mbind option_bind decimal_from]. rewrite Hdig, Hval. f_equal.
  pose proof (N.div_mod x 10). lia.
Qed.

Lemma decimal_from_head (acc : Z) (c : ascii) (r : string) (v : Z) :
  decimal_from acc (String c r) = Some v → is_upper_letter c = false.
Proof.
  simpl. unfold is_digit, is_upper_letter.
  destruct (48 <=? nat_of_ascii c)%nat eqn:Hlo; [|done].
  destruct (nat_of_ascii c <=? 57)%nat eqn:Hhi; [|done].
  intros _. apply Nat.leb_le in Hhi.
  apply andb_false_intro1. apply Nat.leb_gt. lia.
Qed.

(** What [f"{price_row}"] is read back as, when it is a row number. *)
Lemma row_number_pretty (row r : Z) :
  row_number (pretty row) = Some r → r = row.
Proof.
  destruct row as [|p|p].
  - discriminate.
  - change (pretty (Z.pos p)) with (pretty (N.pos p)).
    unfold pretty, pretty_N. destruct (decide (N.pos p = 0%N)); [done|].
    pose proof (decimal_pretty_N_go (N.pos p)) as Hdec. unfold row_number.
    destruct (pretty_N_go (N.pos p) EmptyString) as [|c s]; [done|].
    destruct (Ascii.eqb c "0"); [done|]. rewrite Hdec. intros [= <-]. lia.
  - discriminate.
Qed.

Lemma pretty_Z_head (row : Z) :
  match pretty row with
  | EmptyString => True
  | String c _ => is_upper_letter c = false
  end.
Proof.
  destruct row as [|p|p]; [done| |done].
  change (pretty (Z.pos p)) with (pretty (N.pos p)).
  unfold pretty, pretty_N. destruct (decide (N.pos p = 0%N)); [done|].
  pose proof (decimal_pretty_N_go (N.pos p)) as Hdec.
  destruct (pretty_N_go (N.pos p) EmptyString) as [|c s]; [done|].
  by eapply decimal_from_head.
Qed.

Lemma split_label_app (letters digits : string) :
  all_upper_letters letters = true →
  match digits with
  | EmptyString => True
  | String c _ => is_upper_letter c = false
  end →
  split_label (letters +:+ digits) = (letters, digits).
Proof.
  intros Hup Hhead. induction letters as [|c r IH].
  - destruct digits as [|d ds]; [done|]. simpl. by rewrite Hhead.
  - simpl in Hup. apply andb_prop in Hup as [Hc Hr].
    rewrite string_app_cons. simpl. by rewrite Hc, (IH Hr).
Qed.

(** The address [update_prices] builds for a column of the price row is
    resolved to that very cell, or not at all. *)
Lemma a1_to_rowcol_cell_address (col row : Z) (rc : Z * Z) :
  1 ≤ col →
  a1_to_rowcol (_get_column_letter col +:+ pretty row) = Some rc →
  rc = (row, col).
Proof.
  intros Hcol. unfold a1_to_rowcol.
  destruct (column_number_get_column_letter col) as [Hval Hup]; [lia|].
  rewrite split_label_app by (done || apply pretty_Z_head).
  destruct (_get_column_letter col) as [|c s] eqn:Hletters; [done|].
  destruct (row_number (pretty row)) as [r|] eqn:Hrow; [|done].
  apply row_number_pretty in Hrow as ->. try rewrite Hletters in Hval.
  cbn [mbind option_bind]. intros [= <-]. by rewrite Hval.
Qed.

(** ** The frame of a batch write *)

Lemma write_ranges_unchanged (updates : list (string * float))
    (cs cs' : gmap (Z * Z) cell) (rc : Z * Z) :
  write_ranges updates cs = Some cs' →
  (∀ range value, (range, value) ∈ updates → a1_to_rowcol range ≠ Some rc) →
  cs' !! rc = cs !! rc.
Proof.
  revert cs. induction updates as [|[range value] rest IH]; intros cs Hrun Hnot.
  - by injection Hrun as <-.
  - cbn [write_ranges] in Hrun.
    destruct (a1_to_rowcol range) as [rc0|] eqn:Hrange; [|done].
    cbn in Hrun. rewrite (IH _ Hrun).
    + apply lookup_insert_ne. intros ->.
      by apply (Hnot range value); [left|].
    + intros range' value' Hin. apply (Hnot range' value'). by right.
Qed.

(** A batch write changes no cell but those its ranges resolve to, whether
    it goes through or not. *)
Lemma batch_update_unchanged (updates : list (string * float))
    (ws : worksheet) (rc : Z * Z) :
  (∀ range value, (range, value) ∈ updates → a1_to_rowcol range ≠ Some rc) →
  (batch_update updates ws).2 !! rc = ws !! rc.
Proof.
  intros Hnot. unfold batch_update.
  destruct (forallb _ updates); [|done].
  destruct (request_fails ws); [done|].
  destruct (write_ranges updates (cells ws)) as [cs|] eqn:Hrun; [|done].
  by apply (write_ranges_unchanged updates (cells ws)).
Qed.

(** What a failed batch write leaves: the cells as they were. *)
Lemma batch_update_failure (updates : list (string * float)) (ws : worksheet) :
  (batch_update updates ws).1 = false → cells (batch_update updates ws).2 = cells ws.
Proof.
  unfold batch_update. destruct (forallb _ updates); [|done].
  destruct (request_fails ws); [done|].
  by destruct (write_ranges updates (cells ws)).
Qed.

Section SheetFacts.
Context `{Externals}.

Lemma prepare_updates_elem (ticker_prices : gmap string (option float))
    (price_row col_index : Z) (tickers : list string) range value :
  (range, value) ∈ prepare_updates ticker_prices price_row col_index tickers →
  ∃ (i : nat) ticker,
    tickers !! i = Some ticker
    ∧ ticker_prices !! ticker = Some (Some value)
    ∧ range = (_get_column_letter (col_index + Z.of_nat i) +:+ pretty price_row)%string.
Proof.
  revert col_index. induction tickers as [|ticker rest IH]; intros col_index Hin.
  - by apply elem_of_nil in Hin.
  - cbn [prepare_updates] in Hin.
    assert ((range, value) ∈ prepare_updates ticker_prices price_row (col_index + 1) rest →
            ∃ (i : nat) ticker',
              (ticker :: rest) !! i = Some ticker'
              ∧ ticker_prices !! ticker' = Some (Some value)
              ∧ range = (_get_column_letter (col_index + Z.of_nat i)
                         +:+ pretty price_row)%string) as Hrest.
    { intros (i & ticker' & Hi & Hp & ->)%IH. exists (S i), ticker'.
      split_and!; [done | done |]. do 2 f_equal. lia. }
    destruct (ticker_prices !! ticker) as [[price|]|] eqn:Hprice; [|by auto..].
    apply elem_of_cons in Hin as [[= -> ->] | Hin]; [|by auto].
    exists 0%nat, ticker. split_and!; [done | done |]. do 2 f_equal. lia.
Qed.

(** What [update_prices] leaves alone: every cell but those of the price
    row in the columns 1, 2, ... of the tickers, counted as [get_tickers]
    lists them, that have a price. *)
Lemma update_prices_frame (ticker_prices : gmap string (option float))
    (ticker_row price_row : Z) (ws : worksheet) (rc : Z * Z) :
  (∀ (i : nat) ticker price,
     get_tickers ws ticker_row !! i = Some ticker →
     ticker_prices !! ticker = Some (Some price) →
     rc ≠ (price_row, 1 + Z.of_nat i)) →
  (update_prices ticker_prices ticker_row price_row ws).2 !! rc = ws !! rc.
Proof.
  intros Hframe. unfold update_prices.
  set (updates := prepare_updates ticker_prices price_row 1 (get_tickers ws ticker_row)).
  assert (∀ range value, (range, value) ∈ updates → a1_to_rowcol range ≠ Some rc)
    as Hnot.
  { intros range value (i & ticker & Hi & Hp & ->)%prepare_updates_elem Hrc.
    apply a1_to_rowcol_cell_address in Hrc; [|lia].
    by apply (Hframe i ticker value). }
  destruct updates as [|u updates]; [done|].
  by rewrite batch_update_unchanged.
Qed.

Lemma filter_all {A} (P : A → Prop) `{∀ x, Decision (P x)} (l : list A) :
  (∀ x, x ∈ l → P x) → filter P l = l.
Proof.
  induction l as [|x l IH]; intros Hall; [done|].
  rewrite filter_cons_True by (apply Hall; by left).
  f_equal. apply IH. intros y Hy. apply Hall. by right.
Qed.

(** In a ticker row without blanks the tickers are the headers of the
    columns, in order. *)
Lemma get_tickers_dense (ws : worksheet) (row : Z) (i : nat) ticker :
  dense_row ws row →
  get_tickers ws row !! i = Some ticker →
  ticker = strip (cell_text (ws !! (row, 1 + Z.of_nat i))).
Proof.
  intros Hdense. unfold get_tickers. destruct (request_fails ws); [done|].
  rewrite filter_all.
  - unfold row_values. rewrite !list_lookup_fmap.
    destruct (seqZ 1 (last_column ws row) !! i) as [col|] eqn:Hcol; [|done].
    apply lookup_seqZ in Hcol as [-> _]. by intros [= <-].
  - intros t Ht. specialize (Hdense t Ht). by destruct (strip t).
Qed.

(** X21. On a sheet whose ticker row has no blank cell, [update_prices] leaves
    alone every cell outside the price row and every cell of the price row
    whose column header is no ticker with a price in the mapping. *)
Lemma update_prices_frame_dense (ticker_prices : gmap string (option float))
    (ticker_row price_row : Z) (ws : worksheet) (r c : Z) :
  dense_row ws ticker_row →
  r ≠ price_row
  ∨ (∀ price,
       ticker_prices !! strip (cell_text (ws !! (ticker_row, c))) ≠ Some (Some price)) →
  (update_prices ticker_prices ticker_row price_row ws).2 !! (r, c) = ws !! (r, c).
Proof.
  intros Hdense Hother. apply update_prices_frame.
  intros i ticker price Hi Hp [= -> ->].
  destruct Hother as [Hrow | Hheader]; [done|].
  apply (Hheader price). by rewrite <- (get_tickers_dense ws ticker_row i ticker).
Qed.
End SheetFacts.

(** ** Writing the prices *)

Section SheetRuns.
#[local] Existing Instance sample_externals.

(** C9. On a sheet whose ticker row has a blank cell before MSFT, the new
    price of MSFT goes to column B, under the blank header, and the price
    cell of MSFT in column C keeps its old value: [get_tickers] drops the
    blank cells before [update_prices] numbers the columns, so every ticker
    after a blank is written one column to the left of its own. *)
Theorem update_prices_blank_header_shifts_columns :
  let ticker_prices : gmap string (option float) :=
    {[ "MSFT"%string := Some 5%float ]} in
  row_values gapped_sheet 1 = ["AAPL"; ""; "MSFT"]%string
  ∧ get_tickers gapped_sheet 1 = ["AAPL"; "MSFT"]%string
  ∧ update_prices ticker_prices 1 2 gapped_sheet
    = (true, <[(2, 2) := CellNumber 5]> gapped_sheet)
  ∧ gapped_sheet !! (1, 2) = None
  ∧ gapped_sheet !! (2, 2) = None
  ∧ (update_prices ticker_prices 1 2 gapped_sheet).2 !! (2, 2) = Some (CellNumber 5)
  ∧ (update_prices ticker_prices 1 2 gapped_sheet).2 !! (2, 3) = Some (CellNumber 2).
Proof. intros ticker_prices. split_and!; by vm_compute. Qed.

(** Without a blank in the ticker row the price lands in its column. *)
Example update_prices_dense_header :
  let ws : worksheet :=
    <[(1, 1) := CellText "AAPL"]> (<[(1, 2) := CellText " MSFT "]>
    (<[(2, 1) := CellNumber 1]> ∅)) in
  let ticker_prices : gmap string (option float) :=
    <["AAPL"%string := None]> {[ "MSFT"%string := Some 5%float ]} in
  update_prices ticker_prices 1 2 ws = (true, <[(2, 2) := CellNumber 5]> ws).
Proof. intros ws ticker_prices. by vm_compute. Qed.
End SheetRuns.

(** * Further properties *)

(** ** The price resolver, read backwards *)

Section ResolverSound.
Context `{Externals}.

Lemma py_float_exceptions (v : pyval) e :
  py_float v = Raise e → e = ValueError ∨ e = TypeError ∨ e = OverflowError.
Proof.
  unfold py_float. destruct v; try discriminate; try (injection 1 as <-; tauto).
  - unfold float_of_int. destruct (is_infinity _); [|done]. injection 1 as <-; tauto.
  - destruct (str_to_float s); [done|]. injection 1 as <-; tauto.
Qed.

Lemma py_float_overflow (v : pyval) :
  py_float v = Raise OverflowError →
  ∃ z, v = PyInt z ∧ float_of_int z = Raise OverflowError.
Proof.
  unfold py_float. destruct v; try discriminate.
  - intros Hz. by exists z.
  - by destruct (str_to_float s).
Qed.

(** What the loop over the direct fields returned, read off its result. *)
Lemma try_price_fields_inv (info : gmap string pyval) fields r :
  try_price_fields fields info = r →
  match r with
  | Ok (Some p) =>
      ∃ pre field post,
        fields = pre ++ field :: post
        ∧ (∀ f, f ∈ pre → unusable info f) ∧ usable info field p
  | Ok None => ∀ f, f ∈ fields → unusable info f
  | Raise e =>
      e = OverflowError
      ∧ ∃ field z, field ∈ fields ∧ info !! field = Some (PyInt z)
                   ∧ float_of_int z = Raise OverflowError
  end.
Proof.
  revert r. induction fields as [|field rest IH]; intros r Hr.
  - simpl in Hr. subst r. intros f Hf. by apply elem_of_nil in Hf.
  - assert (unusable info field →
            try_price_fields rest info = r →
            match r with
            | Ok (Some p) =>
                ∃ pre field' post,
                  field :: rest = pre ++ field' :: post
                  ∧ (∀ f, f ∈ pre → unusable info f) ∧ usable info field' p
            | Ok None => ∀ f, f ∈ field :: rest → unusable info f
            | Raise e =>
                e = OverflowError
                ∧ ∃ field' z, field' ∈ field :: rest ∧ info !! field' = Some (PyInt z)
                              ∧ float_of_int z = Raise OverflowError
            end) as Hskip.
    { intros Hun Hrest. specialize (IH r Hrest). destruct r as [[p|]|e].
      - destruct IH as (pre & field' & post & -> & Hpre & Hu).
        exists (field :: pre), field', post. split_and!; [done| |done].
        intros f [-> | Hf]%elem_of_cons; [done | by apply Hpre].
      - intros f [-> | Hf]%elem_of_cons; [done | by apply IH].
      - destruct IH as (-> & field' & z & Hin & Hz & Hov). split; [done|].
        exists field', z. split_and!; [by right | done..]. }
    simpl in Hr. destruct (info !! field) as [v|] eqn:Hv.
    + destruct (is_none v) eqn:Hnone.
      { apply Hskip; [|done]. intros p (v' & Hv' & Hne & _).
        rewrite Hv in Hv'. injection Hv' as <-. by destruct v. }
      destruct (py_float v) as [price|e] eqn:Hf.
      * destruct (gt0 price) eqn:Hp.
        -- subst r. exists [], field, rest. split_and!; [done| |].
           ++ intros f Hf'. by apply elem_of_nil in Hf'.
           ++ exists v. by rewrite is_none_false in Hnone.
        -- apply Hskip; [|done]. intros p (v' & Hv' & _ & Hf' & Hp').
           rewrite Hv in Hv'. injection Hv' as <-. congruence.
      * assert (unusable info field) as Hun.
        { intros p (v' & Hv' & _ & Hf' & _). rewrite Hv in Hv'.
          injection Hv' as <-. congruence. }
        destruct (py_float_exceptions _ _ Hf) as [-> | [-> | ->]];
          [by apply Hskip.. |].
        subst r. split; [done|].
        destruct (py_float_overflow _ Hf) as (z & -> & Hz).
        exists field, z. split_and!; [by left | done..].
    + apply Hskip; [|done]. intros p (v' & Hv' & _). congruence.
Qed.

Lemma bid_ask_fallback_inv (info : gmap string pyval) r :
  bid_ask_fallback info = r →
  match r with
  | Ok (Some p) =>
      ∃ b a, usable info "bid" b ∧ usable info "ask" a ∧ p = ((b + a) / 2)%float
  | Ok None => ∀ b a, ¬ (usable info "bid" b ∧ usable info "ask" a)
  | Raise e =>
      e = OverflowError
      ∧ ∃ field z, field ∈ ["bid"; "ask"]%string ∧ info !! field = Some (PyInt z)
                   ∧ float_of_int z = Raise OverflowError
  end.
Proof.
  unfold bid_ask_fallback. intros Hr.
  destruct (info !! "bid"%string) as [vb|] eqn:Hvb; cycle 1.
  { subst r. intros b a [(v & Hv & _) _]. congruence. }
  destruct (info !! "ask"%string) as [va|] eqn:Hva; cycle 1.
  { subst r. intros b a [_ (v & Hv & _)]. congruence. }
  assert (∀ field v x, info !! field = Some v → float_or_zero v = Ok x →
                       ∀ y, usable info field y → y = x) as Huniq.
  { intros field v x Hv Hx y (v' & Hv' & Hne & Hy & _).
    rewrite Hv in Hv'. injection Hv' as <-. unfold float_or_zero in Hx.
    apply is_none_false in Hne. rewrite Hne in Hx. congruence. }
  assert (∀ field v e, info !! field = Some v → float_or_zero v = Raise e →
                       unusable info field) as Hfail.
  { intros field v e Hv He y (v' & Hv' & Hne & Hy & _).
    rewrite Hv in Hv'. injection Hv' as <-. unfold float_or_zero in He.
    apply is_none_false in Hne. rewrite Hne in He. congruence. }
  assert (∀ field v, info !! field = Some v → field ∈ ["bid"; "ask"]%string →
                     float_or_zero v = Raise OverflowError →
                     ∃ field z, field ∈ ["bid"; "ask"]%string
                                ∧ info !! field = Some (PyInt z)
                                ∧ float_of_int z = Raise OverflowError) as Hover.
  { intros field v Hv Hin Hov. unfold float_or_zero in Hov.
    destruct (is_none v); [done|].
    destruct (py_float_overflow _ Hov) as (z & -> & Hz). by exists field, z. }
  destruct (float_or_zero vb) as [bid|e] eqn:Hfb; cbn [result_bind] in Hr.
  - destruct (float_or_zero va) as [ask|e] eqn:Hfa; cbn [result_bind] in Hr.
    + destruct (gt0 bid) eqn:Hb; cbn [andb] in Hr.
      * destruct (gt0 ask) eqn:Ha; subst r.
        -- exists bid, ask. split_and!; [by eapply float_or_zero_usable.. | done].
        -- intros b a [_ Hua]. pose proof (Huniq _ _ _ Hva Hfa _ Hua) as ->.
           destruct Hua as (_ & _ & _ & _ & Hgt). congruence.
      * subst r. intros b a [Hub _]. pose proof (Huniq _ _ _ Hvb Hfb _ Hub) as ->.
        destruct Hub as (_ & _ & _ & _ & Hgt). congruence.
    + destruct (float_or_zero_exceptions _ _ Hfa) as [-> | [-> | ->]]; subst r.
      * intros b a [_ Hua]. exact (Hfail _ _ _ Hva Hfa a Hua).
      * intros b a [_ Hua]. exact (Hfail _ _ _ Hva Hfa a Hua).
      * split; [done|]. apply (Hover "ask"%string va); [done | | done].
        right; by left.
  - destruct (float_or_zero_exceptions _ _ Hfb) as [-> | [-> | ->]]; subst r.
    + intros b a [Hub _]. exact (Hfail _ _ _ Hvb Hfb b Hub).
    + intros b a [Hub _]. exact (Hfail _ _ _ Hvb Hfb b Hub).
    + split; [done|]. apply (Hover "bid"%string vb); [done | by left | done].
Qed.

(** X1. Whatever [_extract_price_from_info] returns is accounted for by the
    record.  A price is the value of the first usable direct field, or,
    when no direct field is usable, the mean of a usable bid and a usable
    ask; no price means that no direct field is usable and that bid and ask
    are not both usable. *)
Theorem extract_price_sound (info : gmap string pyval) (r : option float) :
  _extract_price_from_info info = Ok r →
  match r with
  | Some p =>
      (∃ pre field post,
         price_fields = pre ++ field :: post
         ∧ (∀ f, f ∈ pre → unusable info f) ∧ usable info field p)
      ∨ ((∀ f, f ∈ price_fields → unusable info f)
         ∧ ∃ b a, usable info "bid" b ∧ usable info "ask" a
                  ∧ p = ((b + a) / 2)%float)
  | None =>
      (∀ f, f ∈ price_fields → unusable info f)
      ∧ ∀ b a, ¬ (usable info "bid" b ∧ usable info "ask" a)
  end.
Proof.
  unfold _extract_price_from_info. intros Hr.
  pose proof (try_price_fields_inv info price_fields _ eq_refl) as Hdirect.
  destruct (try_price_fields price_fields info) as [[p|]|e].
  - injection Hr as <-. by left.
  - pose proof (bid_ask_fallback_inv info _ Hr) as Hfb.
    destruct r as [p|]; [right|]; done.
  - done.
Qed.

(** X2. The only exception [_extract_price_from_info] lets out is the
    [OverflowError] of [float()] on an integer too large for a float, held
    by one of the six fields it reads; it never raises a [ValueError] or a
    [TypeError]. *)
Theorem extract_price_raises_only_overflow (info : gmap string pyval) (e : pyexc) :
  _extract_price_from_info info = Raise e →
  e = OverflowError
  ∧ ∃ field z,
      field ∈ price_fields ++ ["bid"; "ask"]%string
      ∧ info !! field = Some (PyInt z)
      ∧ float_of_int z = Raise OverflowError.
Proof.
  unfold _extract_price_from_info. intros Hr.
  pose proof (try_price_fields_inv info price_fields _ eq_refl) as Hdirect.
  destruct (try_price_fields price_fields info) as [[p|]|e'].
  - done.
  - destruct (bid_ask_fallback_inv info _ Hr) as (-> & field & z & Hin & Hz & Hov).
    split; [done|]. exists field, z. split_and!; [|done..].
    apply elem_of_app. by right.
  - injection Hr as <-. destruct Hdirect as (-> & field & z & Hin & Hz & Hov).
    split; [done|]. exists field, z. split_and!; [|done..].
    apply elem_of_app. by left.
Qed.
End ResolverSound.

(** ** The shape of every fetch *)

Lemma lookups_app (a b : list event) : lookups (a ++ b) = (lookups a + lookups b)%nat.
Proof. unfold lookups. by rewrite filter_app, length_app. Qed.

Lemma sleeps_app (a b : list event) : sleeps (a ++ b) = (sleeps a + sleeps b)%nat.
Proof. unfold sleeps. by rewrite filter_app, length_app. Qed.

Lemma lookups_cons_lookup ticker (l : list event) :
  lookups (EvLookup ticker :: l) = S (lookups l).
Proof. reflexivity. Qed.

Lemma sleeps_cons_lookup ticker (l : list event) :
  sleeps (EvLookup ticker :: l) = sleeps l.
Proof. reflexivity. Qed.

Lemma lookups_cons_sleep delay (l : list event) :
  lookups (EvSleep delay :: l) = lookups l.
Proof. reflexivity. Qed.

Lemma sleeps_cons_sleep delay (l : list event) :
  sleeps (EvSleep delay :: l) = S (sleeps l).
Proof. reflexivity. Qed.

Lemma ends_with_lookup_cons ticker e (evs : list event) :
  evs ≠ [] → ends_with_lookup ticker evs → ends_with_lookup ticker (e :: evs).
Proof.
  intros Hne [-> | [pre ->]]; [done|]. right. by exists (e :: pre).
Qed.

Lemma lookups_nonempty (evs : list event) : (1 ≤ lookups evs)%nat → evs ≠ [].
Proof. intros Hl ->. unfold lookups in Hl. simpl in Hl. lia. Qed.

Section FetchShape.
Context `{Externals} `{DataProvider} `{Config}.

(** The events of the last [m] attempts of the loop. *)
Lemma attempt_loop_shape (m : nat) :
  ∀ (k : Z) ticker (w : world),
    k + Z.of_nat m = MAX_RETRIES →
    ∃ evs,
      trace (attempt_loop (seqZ k (Z.of_nat m)) ticker w).2 = trace w ++ evs
      ∧ (lookups evs ≤ m)%nat
      ∧ ((1 ≤ m)%nat → (1 ≤ lookups evs)%nat)
      ∧ (sleeps evs ≤ lookups evs - 1)%nat
      ∧ Forall (λ e, e = EvLookup ticker ∨ e = EvSleep RETRY_DELAY_SECONDS) evs
      ∧ ends_with_lookup ticker evs
      ∧ ((attempt_loop (seqZ k (Z.of_nat m)) ticker w).1 = None → lookups evs = m).
Proof.
  induction m as [|m IH]; intros k ticker w Hk.
  { exists []. cbn. rewrite app_nil_r. split_and!; try done. by left. }
  rewrite seqZ_cons by lia.
  replace (Z.pred (Z.of_nat (S m))) with (Z.of_nat m) by lia.
  cbn [attempt_loop]. rewrite fetch_bind_run. unfold yf_Ticker_info.
  destruct (provider_info ticker (provider w)) as [o p] eqn:Ho.
  set (w1 := World _ p (trace w ++ [EvLookup ticker])).
  (* continuing with the next attempt, after the events [se] *)
  assert (∀ (se : list event) (w2 : world),
    trace w2 = trace w1 ++ se →
    (se = [] ∨ (se = [EvSleep RETRY_DELAY_SECONDS] ∧ (1 ≤ m)%nat)) →
    ∃ evs,
      trace (attempt_loop (seqZ (Z.succ k) (Z.of_nat m)) ticker w2).2 = trace w ++ evs
      ∧ (lookups evs ≤ S m)%nat
      ∧ ((1 ≤ S m)%nat → (1 ≤ lookups evs)%nat)
      ∧ (sleeps evs ≤ lookups evs - 1)%nat
      ∧ Forall (λ e, e = EvLookup ticker ∨ e = EvSleep RETRY_DELAY_SECONDS) evs
      ∧ ends_with_lookup ticker evs
      ∧ ((attempt_loop (seqZ (Z.succ k) (Z.of_nat m)) ticker w2).1 = None
         → lookups evs = S m)) as Hnext.
  { intros se w2 Hw2 Hse.
    destruct (IH (Z.succ k) ticker w2) as (evs & Htr & Hle & Hge & Hsl & Hall & Hend & Hnone);
      [lia|].
    exists (EvLookup ticker :: se ++ evs).
    assert (lookups se = 0%nat ∧ (sleeps se = 0 ∨ sleeps se = 1 ∧ 1 ≤ m)%nat) as [Hls Hss].
    { destruct Hse as [-> | [-> Hm]]; split; auto. }
    rewrite lookups_cons_lookup, sleeps_cons_lookup, lookups_app, sleeps_app, Hls.
    split_and!.
    - rewrite Htr, Hw2. subst w1. cbn [trace]. by rewrite <- !app_assoc.
    - lia.
    - lia.
    - destruct Hss as [-> | [-> Hm]]; [lia|]. specialize (Hge Hm). lia.
    - apply Forall_cons. split; [by left|]. apply Forall_app. split; [|done].
      destruct Hse as [-> | [-> _]]; [done|]. apply Forall_singleton. by right.
    - destruct m as [|m'].
      + assert (evs = []) as ->.
        { destruct Hend as [-> | [pre ->]]; [done|].
          rewrite lookups_app in Hle.
          change (lookups [EvLookup ticker]) with 1%nat in Hle. lia. }
        destruct Hse as [-> | [_ Hm]]; [|lia]. right. by exists [].
      + assert (evs ≠ []) as Hne by (apply lookups_nonempty, Hge; lia).
        apply ends_with_lookup_cons.
        { intros Heq. by apply app_eq_nil in Heq as [_ ->]. }
        destruct Hend as [-> | [pre ->]]; [done|].
        right. exists (se ++ pre). by rewrite app_assoc.
    - intros Hr. rewrite (Hnone Hr). lia. }
  assert (∃ evs,
      trace ((sleep_before_retry k;;
              attempt_loop (seqZ (Z.succ k) (Z.of_nat m)) ticker) w1).2 = trace w ++ evs
      ∧ (lookups evs ≤ S m)%nat
      ∧ ((1 ≤ S m)%nat → (1 ≤ lookups evs)%nat)
      ∧ (sleeps evs ≤ lookups evs - 1)%nat
      ∧ Forall (λ e, e = EvLookup ticker ∨ e = EvSleep RETRY_DELAY_SECONDS) evs
      ∧ ends_with_lookup ticker evs
      ∧ (((sleep_before_retry k;;
           attempt_loop (seqZ (Z.succ k) (Z.of_nat m)) ticker) w1).1 = None
         → lookups evs = S m)) as Hfail.
  { rewrite fetch_bind_run. unfold sleep_before_retry.
    destruct (k <? MAX_RETRIES - 1) eqn:Hlast.
    - apply (Hnext [EvSleep RETRY_DELAY_SECONDS]); [done|]. right. split; [done | lia].
    - apply (Hnext []); [|by left]. cbn. by rewrite app_nil_r. }
  destruct o as [|info]; [exact Hfail|].
  destruct (info_falsy info).
  { apply (Hnext []); [|by left]. by rewrite app_nil_r. }
  destruct (_extract_price_from_info (default ∅ info)) as [[price|]|e];
    [|exact Hfail..].
  exists [EvLookup ticker].
  change (lookups [EvLookup ticker]) with 1%nat.
  change (sleeps [EvLookup ticker]) with 0%nat.
  split_and!.
  - done.
  - lia.
  - done.
  - lia.
  - apply Forall_singleton. by left.
  - right. by exists [].
  - done.
Qed.

(** The events of one call of [get_ticker_price]. *)
Lemma get_ticker_price_shape (ticker : string) (w : world) :
  ∃ evs,
    trace (get_ticker_price ticker w).2 = trace w ++ evs
    ∧ (lookups evs ≤ Z.to_nat MAX_RETRIES)%nat
    ∧ (sleeps evs ≤ lookups evs - 1)%nat
    ∧ Forall (λ e, e = EvLookup (upper (strip ticker))
                   ∨ e = EvSleep RETRY_DELAY_SECONDS) evs
    ∧ ends_with_lookup (upper (strip ticker)) evs
    ∧ (strip ticker ≠ EmptyString → (get_ticker_price ticker w).1 = None →
       lookups evs = Z.to_nat MAX_RETRIES).
Proof.
  destruct (decide (strip ticker = EmptyString)) as [Hs | Hs].
  { rewrite get_ticker_price_blank_run by done. exists [].
    rewrite app_nil_r. split_and!; try done; [cbn; lia | by left]. }
  rewrite get_ticker_price_run by done.
  destruct (decide (MAX_RETRIES ≤ 0)) as [Hmax | Hmax].
  { rewrite seqZ_nil by done. exists [].
    cbn. rewrite app_nil_r. split_and!; try done; [lia | by left | lia]. }
  assert (MAX_RETRIES = Z.of_nat (Z.to_nat MAX_RETRIES)) as HM by lia.
  destruct (attempt_loop_shape (Z.to_nat MAX_RETRIES) 0 (upper (strip ticker)) w)
    as (evs & Htr & Hle & _ & Hsl & Hall & Hend & Hnone); [lia|].
  rewrite <- HM in Htr, Hnone.
  exists evs. split_and!; auto.
Qed.

(** X3. Every call of [get_ticker_price], whatever the provider answers:
    it asks the provider at most [MAX_RETRIES] times, always for the
    normalized ticker; it pauses only for [RETRY_DELAY_SECONDS], fewer
    times than it asks; the last thing it does is a lookup, never a pause;
    and it gives up on a non-blank ticker only after [MAX_RETRIES]
    lookups. *)
Theorem get_ticker_price_trace_bounds (ticker : string) (w : world) :
  ∃ evs,
    trace (get_ticker_price ticker w).2 = trace w ++ evs
    ∧ (lookups evs ≤ Z.to_nat MAX_RETRIES)%nat
    ∧ (sleeps evs ≤ lookups evs - 1)%nat
    ∧ Forall (λ e, e = EvLookup (upper (strip ticker))
                   ∨ e = EvSleep RETRY_DELAY_SECONDS) evs
    ∧ ends_with_lookup (upper (strip ticker)) evs
    ∧ (strip ticker ≠ EmptyString → (get_ticker_price ticker w).1 = None →
       lookups evs = Z.to_nat MAX_RETRIES).
Proof. apply get_ticker_price_shape. Qed.

Lemma after_lookups_S (ticker : string) (k : nat) (s : provider_state) :
  after_lookups ticker (S k) s = after_lookups ticker k (provider_info ticker s).2.
Proof. reflexivity. Qed.

(** A price out of the loop comes from the first answer that gives one. *)
Lemma attempt_loop_resolved attempts ticker (w : world) (p : float) :
  (attempt_loop attempts ticker w).1 = Some p →
  ∃ k : nat,
    (k < length attempts)%nat
    ∧ resolves (nth_answer ticker k (provider w)) p
    ∧ (∀ j q, (j < k)%nat → ¬ resolves (nth_answer ticker j (provider w)) q)
    ∧ provider (attempt_loop attempts ticker w).2
      = after_lookups ticker (S k) (provider w)
    ∧ lookups (trace (attempt_loop attempts ticker w).2)
      = (lookups (trace w) + S k)%nat.
Proof.
  revert w. induction attempts as [|a attempts IH]; intros w; [done|].
  cbn [attempt_loop]. rewrite fetch_bind_run. unfold yf_Ticker_info.
  destruct (provider_info ticker (provider w)) as [o pr] eqn:Ho.
  set (w1 := World _ pr (trace w ++ [EvLookup ticker])).
  (* going on with the next attempt, from a world [w2] after this lookup *)
  assert (∀ w2 : world,
    provider w2 = pr → lookups (trace w2) = S (lookups (trace w)) →
    (∀ q, ¬ resolves o q) →
    (attempt_loop attempts ticker w2).1 = Some p →
    ∃ k : nat,
      (k < length (a :: attempts))%nat
      ∧ resolves (nth_answer ticker k (provider w)) p
      ∧ (∀ j q, (j < k)%nat → ¬ resolves (nth_answer ticker j (provider w)) q)
      ∧ provider (attempt_loop attempts ticker w2).2
        = after_lookups ticker (S k) (provider w)
      ∧ lookups (trace (attempt_loop attempts ticker w2).2)
        = (lookups (trace w) + S k)%nat) as Hnext.
  { intros w2 Hpr Htr Hno Hp.
    destruct (IH w2 Hp) as (k & Hk & Hres & Hfirst & Hprov & Hlook).
    assert (∀ j, nth_answer ticker (S j) (provider w) = nth_answer ticker j (provider w2))
      as Hshift.
    { intros j. unfold nth_answer. by rewrite after_lookups_S, Ho, Hpr. }
    exists (S k). split_and!.
    - cbn [length]. lia.
    - by rewrite Hshift.
    - intros [|j] q Hj.
      + unfold nth_answer. cbn [after_lookups]. rewrite Ho. apply Hno.
      + rewrite Hshift. apply Hfirst. lia.
    - rewrite Hprov, (after_lookups_S ticker (S k)), Ho. by rewrite Hpr.
    - rewrite Hlook, Htr. lia. }
  assert (lookups (trace w1) = S (lookups (trace w))) as Hw1.
  { subst w1. cbn [trace]. rewrite lookups_app.
    change (lookups [EvLookup ticker]) with 1%nat. lia. }
  assert ((∀ q, ¬ resolves o q) →
    ((sleep_before_retry a;; attempt_loop attempts ticker) w1).1 = Some p →
    ∃ k : nat,
      (k < length (a :: attempts))%nat
      ∧ resolves (nth_answer ticker k (provider w)) p
      ∧ (∀ j q, (j < k)%nat → ¬ resolves (nth_answer ticker j (provider w)) q)
      ∧ provider ((sleep_before_retry a;; attempt_loop attempts ticker) w1).2
        = after_lookups ticker (S k) (provider w)
      ∧ lookups (trace ((sleep_before_retry a;; attempt_loop attempts ticker) w1).2)
        = (lookups (trace w) + S k)%nat) as Hfail.
  { intros Hno. rewrite fetch_bind_run. unfold sleep_before_retry.
    destruct (a <? MAX_RETRIES - 1).
    - apply Hnext; [done | | done]. cbn [time_sleep trace]. rewrite lookups_app.
      change (lookups [EvSleep RETRY_DELAY_SECONDS]) with 0%nat. lia.
    - by apply Hnext. }
  destruct o as [|info].
  { apply Hfail. by intros q (info & ? & _). }
  destruct info as [info|]; cycle 1.
  { apply Hnext; [done..| ]. by intros q (info & ? & _). }
  change (default ∅ (Some info)) with info.
  cbn [info_falsy]. case_bool_decide as Hempty.
  { apply Hnext; [done..|]. intros q (info' & [= <-] & ? & _). done. }
  destruct (_extract_price_from_info info) as [[price|]|e] eqn:Hx.
  - cbn [mret fetch_ret fst snd]. intros [= ->]. exists 0%nat. split_and!.
    + cbn [length]. lia.
    + unfold nth_answer. cbn [after_lookups]. rewrite Ho. by exists info.
    + intros j q Hj. lia.
    + cbn [after_lookups]. by rewrite Ho.
    + rewrite Hw1. lia.
  - apply Hfail. intros q (info' & [= <-] & _ & Hq). congruence.
  - apply Hfail. intros q (info' & [= <-] & _ & Hq). congruence.
Qed.

(** X4. A price returned by [get_ticker_price] is never made up.  The
    ticker is not blank, and the price is what the first answer of the
    provider that gives one resolves to: lookup number [k] of the normalized
    ticker in this run, with [k] below [MAX_RETRIES], a record that is not
    empty; no earlier answer gave a price; and the run made these [k + 1]
    lookups and no other, leaving the provider in the state after them. *)
Theorem get_ticker_price_resolved (ticker : string) (w : world) (p : float) :
  (get_ticker_price ticker w).1 = Some p →
  strip ticker ≠ EmptyString
  ∧ ∃ k : nat,
      Z.of_nat k < MAX_RETRIES
      ∧ resolves (nth_answer (upper (strip ticker)) k (provider w)) p
      ∧ (∀ j q, (j < k)%nat →
                ¬ resolves (nth_answer (upper (strip ticker)) j (provider w)) q)
      ∧ provider (get_ticker_price ticker w).2
        = after_lookups (upper (strip ticker)) (S k) (provider w)
      ∧ lookups (trace (get_ticker_price ticker w).2)
        = (lookups (trace w) + S k)%nat.
Proof.
  intros Hp. destruct (decide (strip ticker = EmptyString)) as [Hs | Hs].
  { by rewrite get_ticker_price_blank_run in Hp. }
  split; [done|]. rewrite get_ticker_price_run in * by done.
  destruct (attempt_loop_resolved _ _ _ _ Hp) as (k & Hk & Hrest).
  exists k. split; [|done]. rewrite length_seqZ in Hk. lia.
Qed.

(** X5. A batch of [n] tickers asks the provider at most
    [n * MAX_RETRIES] times and pauses at most [n * (MAX_RETRIES - 1)]
    times; the trace only grows. *)
Theorem get_multiple_prices_trace_bounds (tickers : list string) (w : world) :
  ∃ evs,
    trace (get_multiple_prices tickers w).2 = trace w ++ evs
    ∧ (lookups evs ≤ length tickers * Z.to_nat MAX_RETRIES)%nat
    ∧ (sleeps evs ≤ length tickers * (Z.to_nat MAX_RETRIES - 1))%nat.
Proof.
  unfold get_multiple_prices. generalize (∅ : gmap string (option float)).
  revert w. induction tickers as [|t tickers IH]; intros w results.
  { exists []. cbn. by rewrite app_nil_r. }
  rewrite fetch_each_cons.
  destruct (get_ticker_price_shape t w) as (evs1 & Htr1 & Hl1 & Hs1 & _).
  destruct (IH (get_ticker_price t w).2 (<[t:=(get_ticker_price t w).1]> results))
    as (evs2 & Htr2 & Hl2 & Hs2).
  exists (evs1 ++ evs2). rewrite lookups_app, sleeps_app. split_and!.
  - by rewrite Htr2, Htr1, app_assoc.
  - cbn [length]. lia.
  - cbn [length]. lia.
Qed.
End FetchShape.

(** ** Normal forms of tickers *)

Section NormalForm.
Context `{Externals} `{DataProvider} `{Config}.

(** X6. Normalizing a ticker beforehand changes nothing: the trimmed,
    upper-cased ticker is fetched exactly as the ticker itself, and two
    tickers with one normal form are fetched alike. *)
Theorem get_ticker_price_of_normal_form (ticker other : string) (w : world) :
  get_ticker_price (upper (strip ticker)) w = get_ticker_price ticker w
  ∧ (upper (strip ticker) = upper (strip other) →
     get_ticker_price ticker w = get_ticker_price other w).
Proof.
  split.
  - apply get_ticker_price_normal_form, normalize_idempotent.
  - apply get_ticker_price_normal_form.
Qed.
End NormalForm.

(** ** The scheduler's waits and their target *)

Lemma to_microseconds_day (d : datetime) :
  to_microseconds d
  = day_start (ordinal d) + hour d * 3600000000 + minute d * 60000000
    + second d * 1000000 + microsecond d.
Proof. unfold to_microseconds, day_start. lia. Qed.

Lemma tomorrow_ordinal (d : datetime) :
  valid_datetime d →
  ordinal (datetime_add d (timedelta_days 1)) = ordinal d + 1.
Proof.
  intros [Hh Hm Hs Hu]. unfold datetime_add, timedelta_days, of_microseconds.
  cbn [ordinal]. rewrite to_microseconds_day. unfold day_start.
  Z.div_mod_to_equations. lia.
Qed.

Lemma int_total_seconds_nonneg (td : timedelta) :
  0 ≤ td → Z.max 0 (int_total_seconds td) = td / 1000000.
Proof.
  intros Htd. unfold int_total_seconds. rewrite Z.quot_div_nonneg by lia.
  apply Z.max_r. apply Z.div_pos; lia.
Qed.

Section WaitFacts.
Context `{Config}.

(** The waits are computed from the instant [get_next_update_time]
    reports. *)
Lemma wait_from_next_update_time (now : datetime) :
  (if _is_outside_market_hours now
   then _calculate_wait_until_market_open now
   else _calculate_wait_until_next_interval now)
  = result_bind (get_next_update_time now) (λ target_time,
      Ok (Z.max 0 (int_total_seconds (datetime_sub target_time now)))).
Proof.
  unfold get_next_update_time, _calculate_wait_until_market_open,
    _calculate_wait_until_next_interval.
  destruct (_is_outside_market_hours now); [done|].
  destruct (py_floordiv (minute now) UPDATE_INTERVAL_MINUTES); done.
Qed.

(** Where [get_next_update_time] points when the market is closed. *)
Lemma next_update_time_closed (now : datetime) :
  valid_datetime now → 0 ≤ MARKET_OPEN_HOUR < 24 →
  _is_outside_market_hours now = true →
  get_next_update_time now
  = Ok {| ordinal := if hour now <? MARKET_OPEN_HOUR then ordinal now else ordinal now + 1;
          hour := MARKET_OPEN_HOUR; minute := 0; second := 0; microsecond := 0 |}.
Proof.
  intros Hvalid Hopen Hout. unfold get_next_update_time. rewrite Hout.
  unfold replace_hour.
  assert ((0 <=? MARKET_OPEN_HOUR) && (MARKET_OPEN_HOUR <? 24) = true) as -> by lia.
  destruct (hour now <? MARKET_OPEN_HOUR); [done|].
  by rewrite tomorrow_ordinal.
Qed.

(** Where it points during market hours. *)
Lemma next_update_time_open (now : datetime) :
  valid_datetime now → 0 < UPDATE_INTERVAL_MINUTES →
  _is_outside_market_hours now = false →
  ∃ t next,
    get_next_update_time now = Ok t
    ∧ next = (minute now / UPDATE_INTERVAL_MINUTES + 1) * UPDATE_INTERVAL_MINUTES
    ∧ minute now < next
    ∧ valid_datetime t ∧ second t = 0 ∧ microsecond t = 0
    ∧ to_microseconds t = top_of_hour now + timedelta_minutes (Z.min 60 next).
Proof.
  intros Hvalid Hpos Hin. pose proof Hvalid as [Hh Hm Hs Hu].
  unfold get_next_update_time, py_floordiv. rewrite Hin.
  assert ((UPDATE_INTERVAL_MINUTES =? 0) = false) as -> by lia.
  cbn [result_bind].
  set (next := (minute now / UPDATE_INTERVAL_MINUTES + 1) * UPDATE_INTERVAL_MINUTES).
  assert (minute now < next) as Hhi.
  { unfold next. rewrite Z.mul_comm, Z.add_1_r. by apply Z.mul_succ_div_gt. }
  destruct (60 <=? next) eqn:Hroll.
  - rewrite next_hour_top by done.
    exists (of_microseconds (top_of_hour now + 3600000000)), next.
    split_and!; try done.
    + unfold of_microseconds, top_of_hour, to_microseconds.
      cbn [ordinal hour minute second microsecond].
      split; cbn [ordinal hour minute second microsecond];
        Z.div_mod_to_equations; lia.
    + unfold of_microseconds, top_of_hour, to_microseconds.
      cbn [ordinal hour minute second microsecond]. Z.div_mod_to_equations. lia.
    + unfold of_microseconds, top_of_hour, to_microseconds.
      cbn [ordinal hour minute second microsecond]. Z.div_mod_to_equations. lia.
    + rewrite to_microseconds_next_hour by done. unfold timedelta_minutes. lia.
  - unfold replace_minute.
    assert ((0 <=? next) && (next <? 60) = true) as -> by lia.
    eexists _, next. split_and!; try done.
    + split; cbn [ordinal hour minute second microsecond]; lia.
    + unfold top_of_hour, to_microseconds, timedelta_minutes.
      cbn [ordinal hour minute second microsecond]. lia.
Qed.

(** The next update time under a sound configuration. *)
Lemma next_update_time_spec (now : datetime) :
  valid_datetime now → 0 ≤ MARKET_OPEN_HOUR < 24 → 0 < UPDATE_INTERVAL_MINUTES →
  ∃ t,
    get_next_update_time now = Ok t
    ∧ valid_datetime t ∧ second t = 0 ∧ microsecond t = 0
    ∧ to_microseconds now < to_microseconds t
    ∧ to_microseconds t - to_microseconds now ≤ timedelta_days 1
    ∧ (_is_outside_market_hours now = true → hour t = MARKET_OPEN_HOUR ∧ minute t = 0)
    ∧ (_is_outside_market_hours now = false →
       interval_boundary now (to_microseconds t)).
Proof.
  intros Hvalid Hopen Hpos. pose proof Hvalid as [Hh Hm Hs Hu].
  destruct (_is_outside_market_hours now) eqn:Hout.
  - rewrite next_update_time_closed by done. eexists. split; [done|].
    rewrite (to_microseconds_day now). unfold to_microseconds, day_start, timedelta_days.
    cbn [ordinal hour minute second microsecond].
    destruct (hour now <? MARKET_OPEN_HOUR) eqn:Hbefore;
      (split_and!; try done; try lia;
       split; cbn [ordinal hour minute second microsecond]; lia).
  - destruct (next_update_time_open now) as (t & next & Ht & Hnext & Hhi & Hv & Hs0 & Hu0 & Hus);
      [done..|].
    exists t. rewrite Hus, (to_microseconds_split now).
    unfold timedelta_minutes, timedelta_days.
    split_and!; try done; try lia.
    intros _. exists (minute now / UPDATE_INTERVAL_MINUTES + 1).
    split; [|by rewrite <- Hnext].
    assert (0 ≤ minute now / UPDATE_INTERVAL_MINUTES) by (apply Z.div_pos; lia). lia.
Qed.

(** X7. Under a sound configuration [get_next_update_time] always answers
    with a well-formed instant on a whole minute, strictly after now and at
    most a day away: the opening hour sharp when the market is closed, an
    update boundary of the running hour when it is open. *)
Theorem get_next_update_time_in_future (now : datetime) :
  valid_datetime now → 0 ≤ MARKET_OPEN_HOUR < 24 → 0 < UPDATE_INTERVAL_MINUTES →
  ∃ t,
    get_next_update_time now = Ok t
    ∧ valid_datetime t ∧ second t = 0 ∧ microsecond t = 0
    ∧ to_microseconds now < to_microseconds t
    ∧ to_microseconds t - to_microseconds now ≤ timedelta_days 1
    ∧ (_is_outside_market_hours now = true → hour t = MARKET_OPEN_HOUR ∧ minute t = 0)
    ∧ (_is_outside_market_hours now = false →
       interval_boundary now (to_microseconds t)).
Proof. apply next_update_time_spec. Qed.

(** X8. [wait_until_next_update] sleeps at most once, for a whole number of
    seconds above zero, and the sleep ends in the last second before the
    instant [get_next_update_time] reports or exactly on it, never after
    it; it does not sleep at all only when that instant is less than a
    second away. *)
Theorem wait_until_next_update_reaches_next_time (now : datetime) :
  valid_datetime now → 0 ≤ MARKET_OPEN_HOUR < 24 → 0 < UPDATE_INTERVAL_MINUTES →
  ∃ t,
    get_next_update_time now = Ok t
    ∧ match wait_until_next_update now with
      | Ok (Some n) =>
          0 < n
          ∧ to_microseconds t - 1000000 < to_microseconds now + n * 1000000
            ≤ to_microseconds t
      | Ok None => to_microseconds t - to_microseconds now < 1000000
      | Raise _ => False
      end.
Proof.
  intros Hvalid Hopen Hpos.
  destruct (next_update_time_spec now) as (t & Ht & _ & _ & _ & Hfuture & _); [done..|].
  exists t. split; [done|].
  unfold wait_until_next_update. rewrite wait_from_next_update_time, Ht.
  cbn [result_bind]. unfold datetime_sub.
  rewrite int_total_seconds_nonneg by lia.
  set (diff := to_microseconds t - to_microseconds now) in *.
  destruct (0 <? diff / 1000000) eqn:Hwait.
  - pose proof (Z.div_mod diff 1000000). pose proof (Z.mod_pos_bound diff 1000000). lia.
  - assert (diff / 1000000 ≤ 0) as Hzero by lia.
    apply Z.nle_gt. intros Hge.
    assert (0 < diff / 1000000); [|lia]. apply Z.div_str_pos. lia.
Qed.

(** X9. [_calculate_wait_until_market_open], at any time of day and with an
    opening hour in range, returns the whole seconds, rounded down, to the
    next opening: today's when the hour is before the opening hour,
    tomorrow's otherwise.  That opening is strictly ahead and at most a day
    away, so the wait is between 0 and 86400 seconds; it is exact, and
    above zero, when now has no fraction of a second. *)
Theorem wait_until_market_open_whole_seconds (now : datetime) :
  valid_datetime now → 0 ≤ MARKET_OPEN_HOUR < 24 →
  ∃ target wait,
    _calculate_wait_until_market_open now = Ok wait
    ∧ target
      = day_start (if hour now <? MARKET_OPEN_HOUR then ordinal now else ordinal now + 1)
        + timedelta_hours MARKET_OPEN_HOUR
    ∧ to_microseconds now < target
    ∧ wait = (target - to_microseconds now) / 1000000
    ∧ 0 ≤ wait ≤ 86400
    ∧ (microsecond now = 0 →
       0 < wait ∧ wait * 1000000 = target - to_microseconds now).
Proof.
  intros Hvalid Hopen. pose proof Hvalid as [Hh Hm Hs Hu].
  set (target :=
         day_start (if hour now <? MARKET_OPEN_HOUR then ordinal now else ordinal now + 1)
         + timedelta_hours MARKET_OPEN_HOUR).
  exists target, ((target - to_microseconds now) / 1000000).
  assert (to_microseconds now < target
          ∧ target - to_microseconds now ≤ 86400000000) as [Hfuture Hday].
  { subst target. rewrite to_microseconds_day. unfold day_start, timedelta_hours.
    destruct (hour now <? MARKET_OPEN_HOUR) eqn:Hbefore; lia. }
  split_and!; try done.
  - unfold _calculate_wait_until_market_open, replace_hour.
    assert ((0 <=? MARKET_OPEN_HOUR) && (MARKET_OPEN_HOUR <? 24) = true) as -> by lia.
    assert ((if hour now <? MARKET_OPEN_HOUR
             then Ok {| ordinal := ordinal now; hour := MARKET_OPEN_HOUR; minute := 0;
                        second := 0; microsecond := 0 |}
             else Ok {| ordinal := ordinal (datetime_add now (timedelta_days 1));
                        hour := MARKET_OPEN_HOUR; minute := 0;
                        second := 0; microsecond := 0 |})
            = Ok {| ordinal := if hour now <? MARKET_OPEN_HOUR
                               then ordinal now else ordinal now + 1;
                    hour := MARKET_OPEN_HOUR; minute := 0;
                    second := 0; microsecond := 0 |}) as ->.
    { destruct (hour now <? MARKET_OPEN_HOUR); [done|]. by rewrite tomorrow_ordinal. }
    cbn [result_bind]. f_equal. unfold datetime_sub.
    assert (to_microseconds
              {| ordinal := if hour now <? MARKET_OPEN_HOUR
                            then ordinal now else ordinal now + 1;
                 hour := MARKET_OPEN_HOUR; minute := 0; second := 0; microsecond := 0 |}
            = target) as ->.
    { subst target. unfold to_microseconds, day_start, timedelta_hours.
      cbn [ordinal hour minute second microsecond]. lia. }
    apply int_total_seconds_nonneg. lia.
  - Z.div_mod_to_equations. lia.
  - Z.div_mod_to_equations. lia.
  - intros Hus. subst target. revert Hfuture Hday.
    rewrite to_microseconds_day, Hus. unfold day_start, timedelta_hours.
    destruct (hour now <? MARKET_OPEN_HOUR) eqn:Hbefore; intros Hfuture Hday;
      Z.div_mod_to_equations; lia.
Qed.
End WaitFacts.

(** ** The wait of the first version *)

(** X10. [waitUntilNextTime] of [getStock.py] always sleeps, a minute at
    least in all.  Up to hour 8 it sleeps whole hours and wakes in hour 9
    at the same minute and second.  From hour 9 on it wakes on a minute
    that is a multiple of ten; from hour 16 on that is on the next day,
    after 08:00 and no later than 09:00. *)
Theorem waitUntilNextTime_wakes (now : datetime) :
  valid_datetime now →
  let total := foldr Z.add 0 (waitUntilNextTime now) in
  let wake := after_seconds now total in
  Forall (λ s, 0 < s) (waitUntilNextTime now)
  ∧ 60 ≤ total
  ∧ second wake = second now ∧ microsecond wake = microsecond now
  ∧ (hour now ≤ 8 →
     ordinal wake = ordinal now ∧ hour wake = 9 ∧ minute wake = minute now)
  ∧ (9 ≤ hour now → minute wake mod 10 = 0)
  ∧ (9 ≤ hour now < 16 → total ≤ 600)
  ∧ (16 ≤ hour now →
     ordinal wake = ordinal now + 1
     ∧ (hour wake = 8 ∧ 0 < minute wake ∨ hour wake = 9 ∧ minute wake = 0)).
Proof.
  intros [Hh Hm Hs Hu] total wake. subst wake total.
  unfold waitUntilNextTime, after_seconds, datetime_add, of_microseconds.
  cbn [ordinal hour minute second microsecond].
  rewrite (to_microseconds_day now). unfold day_start.
  pose proof (Z.mod_pos_bound (minute now) 10 ltac:(lia)) as Hmod.
  pose proof (Z.div_mod (minute now) 10 ltac:(lia)) as Hdiv.
  set (r := minute now mod 10) in *. set (q := minute now / 10) in *.
  destruct (hour now <=? 8) eqn:Hearly.
  - cbn [foldr]. split_and!; try lia.
    + apply Forall_singleton. lia.
    + Z.div_mod_to_equations. lia.
    + Z.div_mod_to_equations. lia.
    + intros _. split_and!; Z.div_mod_to_equations; lia.
  - destruct (16 <=? hour now) eqn:Hlate.
    + cbn [app foldr]. split_and!; try lia.
      * apply Forall_cons. split; [lia|]. apply Forall_singleton. lia.
      * Z.div_mod_to_equations. lia.
      * Z.div_mod_to_equations. lia.
      * intros _. Z.div_mod_to_equations. lia.
      * intros _. split; [Z.div_mod_to_equations; lia|].
        destruct (decide (q = 5)) as [Hq | Hq].
        -- right. split; Z.div_mod_to_equations; lia.
        -- left. split; Z.div_mod_to_equations; lia.
    + cbn [app foldr]. split_and!; try lia.
      * apply Forall_singleton. lia.
      * Z.div_mod_to_equations. lia.
      * Z.div_mod_to_equations. lia.
      * intros _. Z.div_mod_to_equations. lia.
Qed.

(** ** What [update_prices] writes *)

Lemma pretty_N_go_head (x : N) (s : string) :
  (0 < x)%N →
  ∃ c r, pretty_N_go x s = String c r ∧ Ascii.eqb c "0" = false.
Proof.
  revert s. induction (N.lt_wf_0 x) as [x _ IH]; intros s Hx.
  rewrite pretty_N_go_step by done.
  destruct (decide (x < 10)%N) as [Hsmall | Hbig].
  - rewrite N.div_small, pretty_N_go_0, N.mod_small by done.
    eexists _, _. split; [done|].
    assert (x = 1 ∨ x = 2 ∨ x = 3 ∨ x = 4 ∨ x = 5 ∨ x = 6 ∨ x = 7 ∨ x = 8 ∨ x = 9)%N
      as Hcases by lia.
    repeat destruct Hcases as [-> | Hcases]; try subst x; reflexivity.
  - apply IH.
    + apply N.div_lt; lia.
    + apply N.div_str_pos. lia.
Qed.

(** A row number from 1 on reads back from its decimal form, and nothing
    else does. *)
Lemma row_number_pretty_pos (row : Z) :
  1 ≤ row → row_number (pretty row) = Some row.
Proof.
  intros Hrow. destruct row as [|p|p]; [lia| |lia].
  change (pretty (Z.pos p)) with (pretty (N.pos p)).
  unfold pretty, pretty_N. destruct (decide (N.pos p = 0%N)); [done|].
  destruct (pretty_N_go_head (N.pos p) EmptyString) as (c & r & Hgo & Hc); [lia|].
  pose proof (decimal_pretty_N_go (N.pos p)) as Hdec.
  unfold row_number. rewrite Hgo in *. by rewrite Hc, Hdec.
Qed.

Lemma row_number_pretty_some (row r : Z) :
  row_number (pretty row) = Some r → 1 ≤ row.
Proof. destruct row as [|p|p]; [discriminate | lia | discriminate]. Qed.

Lemma a1_to_rowcol_cell_address_ok (col row : Z) :
  1 ≤ col → 1 ≤ row →
  a1_to_rowcol (_get_column_letter col +:+ pretty row) = Some (row, col).
Proof.
  intros Hcol Hrow. unfold a1_to_rowcol.
  destruct (column_number_get_column_letter col) as [Hval Hup]; [lia|].
  rewrite split_label_app by (done || apply pretty_Z_head).
  destruct (_get_column_letter col) as [|c s] eqn:Hletters.
  { unfold column_number in Hval. simpl in Hval. lia. }
  rewrite row_number_pretty_pos by done. cbn [mbind option_bind]. by rewrite Hval.
Qed.

Lemma a1_to_rowcol_row_positive (col row : Z) (rc : Z * Z) :
  a1_to_rowcol (_get_column_letter col +:+ pretty row) = Some rc → 1 ≤ row.
Proof.
  unfold a1_to_rowcol.
  destruct (decide (col ≤ 0)) as [Hcol | Hcol].
  { rewrite get_column_letter_nonpos by done.
    change (EmptyString +:+ pretty row) with (pretty row).
    pose proof (pretty_Z_head row) as Hhead.
    destruct (pretty row) as [|c s]; [done|]. simpl. by rewrite Hhead. }
  destruct (column_number_get_column_letter col) as [_ Hup]; [lia|].
  rewrite split_label_app by (done || apply pretty_Z_head).
  destruct (_get_column_letter col); [done|].
  destruct (row_number (pretty row)) as [r|] eqn:Hr; [|done].
  intros _. by eapply row_number_pretty_some.
Qed.

(** *** Requests that go through *)

Lemma answers_S (n : nat) (ws : worksheet) :
  answers (S n) ws ↔ request_fails ws = false ∧ answers n (after_request ws).
Proof.
  unfold answers, request_fails, after_request. cbn [outages].
  destruct (outages ws) as [|fails rest]; cbn [take tail].
  - rewrite take_nil. split; [done | intros _; apply Forall_nil_2].
  - rewrite Forall_cons. by destruct fails.
Qed.

Lemma answers_le (n m : nat) (ws : worksheet) :
  (n ≤ m)%nat → answers m ws → answers n ws.
Proof.
  revert m ws. induction n as [|n IH]; intros m ws Hle Hm.
  { apply Forall_nil_2. }
  destruct m as [|m]; [lia|]. apply answers_S in Hm as [? Hm].
  apply answers_S. split; [done|]. apply (IH m); [lia | done].
Qed.

Lemma answers_outages (n : nat) (ws ws' : worksheet) :
  outages ws' = outages ws → answers n ws → answers n ws'.
Proof. unfold answers. by intros ->. Qed.

Section WriteFacts.
Context `{Externals}.

(** Running the prepared batch: it goes through, every ticker with a price
    has it in its cell, and the columns before the first are untouched. *)
Lemma prepare_updates_run (ticker_prices : gmap string (option float))
    (price_row : Z) (tickers : list string) :
  1 ≤ price_row →
  ∀ (col_index : Z) (cs : gmap (Z * Z) cell),
    1 ≤ col_index →
    ∃ cs' : gmap (Z * Z) cell,
      write_ranges (prepare_updates ticker_prices price_row col_index tickers) cs
      = Some cs'
      ∧ (∀ (i : nat) ticker price,
           tickers !! i = Some ticker →
           ticker_prices !! ticker = Some (Some price) →
           cs' !! (price_row, col_index + Z.of_nat i) = Some (CellNumber price))
      ∧ (∀ c, c < col_index → cs' !! (price_row, c) = cs !! (price_row, c)).
Proof.
  intros Hrow. induction tickers as [|t rest IH]; intros k cs Hk.
  { exists cs. split_and!; [done | | done]. intros i ticker price Hi. done. }
  cbn [prepare_updates].
  destruct (ticker_prices !! t) as [[p|]|] eqn:Hp.
  - cbn [write_ranges]. rewrite a1_to_rowcol_cell_address_ok by done.
    cbn [mbind option_bind].
    destruct (IH (k + 1) (<[(price_row, k):=CellNumber p]> cs)) as (cs' & Hrun & Hw & Hf);
      [lia|].
    exists cs'. split_and!; [done| |].
    + intros [|i] ticker price Hi Hprice.
      * injection Hi as <-. rewrite Hp in Hprice. injection Hprice as <-.
        rewrite Z.add_0_r, Hf by lia. apply lookup_insert_eq.
      * replace (k + Z.of_nat (S i)) with (k + 1 + Z.of_nat i) by lia.
        by apply (Hw i ticker).
    + intros c Hc. rewrite Hf by lia. apply lookup_insert_ne. intros [= ->]. lia.
  - destruct (IH (k + 1) cs) as (cs' & Hrun & Hw & Hf); [lia|].
    exists cs'. split_and!; [done| |].
    + intros [|i] ticker price Hi Hprice.
      * injection Hi as <-. congruence.
      * replace (k + Z.of_nat (S i)) with (k + 1 + Z.of_nat i) by lia.
        by apply (Hw i ticker).
    + intros c Hc. apply Hf. lia.
  - destruct (IH (k + 1) cs) as (cs' & Hrun & Hw & Hf); [lia|].
    exists cs'. split_and!; [done| |].
    + intros [|i] ticker price Hi Hprice.
      * injection Hi as <-. congruence.
      * replace (k + Z.of_nat (S i)) with (k + 1 + Z.of_nat i) by lia.
        by apply (Hw i ticker).
    + intros c Hc. apply Hf. lia.
Qed.

Lemma prepare_updates_nonempty (ticker_prices : gmap string (option float))
    (price_row col_index : Z) (tickers : list string) (i : nat) ticker price :
  tickers !! i = Some ticker →
  ticker_prices !! ticker = Some (Some price) →
  prepare_updates ticker_prices price_row col_index tickers ≠ [].
Proof.
  revert col_index i. induction tickers as [|t rest IH]; intros k i Hi Hp; [done|].
  cbn [prepare_updates]. destruct i as [|i].
  - injection Hi as ->. by rewrite Hp.
  - destruct (ticker_prices !! t) as [[p|]|]; [done | by eapply IH..].
Qed.

(** The values of the prepared batch are JSON numbers exactly when the
    prices of the listed tickers are. *)
Lemma prepare_updates_json (ticker_prices : gmap string (option float))
    (price_row col_index : Z) (tickers : list string) :
  forallb (λ u, json_number u.2)
    (prepare_updates ticker_prices price_row col_index tickers) = true
  ↔ ∀ t q, t ∈ tickers → ticker_prices !! t = Some (Some q) → json_number q = true.
Proof.
  revert col_index. induction tickers as [|t rest IH]; intros k.
  { split; [|done]. by intros _ t q ?%elem_of_nil. }
  cbn [prepare_updates]. split.
  - intros Hall u q [-> | Hu]%elem_of_cons Hq.
    + rewrite Hq in Hall. cbn in Hall. by apply andb_prop in Hall as [? _].
    + assert (forallb (λ u, json_number u.2)
                (prepare_updates ticker_prices price_row (k + 1) rest) = true) as Hrest.
      { destruct (ticker_prices !! t) as [[p|]|]; cbn in Hall;
          [by apply andb_prop in Hall as [_ ?] | done..]. }
      exact (proj1 (IH (k + 1)) Hrest u q Hu Hq).
  - intros Hall.
    assert (forallb (λ u, json_number u.2)
              (prepare_updates ticker_prices price_row (k + 1) rest) = true) as Hrest.
    { apply IH. intros u q Hu. apply Hall. by right. }
    destruct (ticker_prices !! t) as [[p|]|] eqn:Hp; [|done..].
    cbn. rewrite Hrest, (Hall t p); [done | by left | done].
Qed.

(** [update_prices] when its two requests go through, the price row is a
    row and the prices to write are JSON numbers. *)
Lemma update_prices_run (ticker_prices : gmap string (option float))
    (ticker_row price_row : Z) (ws : worksheet) (i : nat) ticker price :
  1 ≤ price_row → answers 2 ws →
  (∀ t q, t ∈ get_tickers ws ticker_row → ticker_prices !! t = Some (Some q) →
          json_number q = true) →
  get_tickers ws ticker_row !! i = Some ticker →
  ticker_prices !! ticker = Some (Some price) →
  ∃ cs',
    write_ranges (prepare_updates ticker_prices price_row 1 (get_tickers ws ticker_row))
      (cells ws) = Some cs'
    ∧ update_prices ticker_prices ticker_row price_row ws
      = (true, Worksheet cs' (tail (tail (outages ws)))).
Proof.
  intros Hrow Hup Hjson Hi Hp.
  apply answers_S in Hup as [_ [Hsecond _]%answers_S].
  pose proof (prepare_updates_nonempty ticker_prices price_row 1 _ i ticker price Hi Hp)
    as Hne.
  destruct (prepare_updates_run ticker_prices price_row (get_tickers ws ticker_row)
              Hrow 1 (cells ws)) as (cs' & Hrun & _); [lia|].
  exists cs'. split; [done|]. unfold update_prices.
  destruct (prepare_updates ticker_prices price_row 1 (get_tickers ws ticker_row))
    as [|u updates] eqn:Hupd; [done|].
  unfold batch_update. rewrite <- Hupd in Hrun |- *.
  rewrite (proj2 (prepare_updates_json _ _ _ _) Hjson), Hsecond.
  cbn [after_request cells outages]. by rewrite Hrun.
Qed.

(** X11. When the two requests of [update_prices] go through, the price
    row is 1 or more and the prices of the listed tickers are numbers JSON
    has, [update_prices] succeeds as soon as one ticker listed by
    [get_tickers] has a price, and then every listed ticker with a price
    has it in the price row, in the column of its position in that list. *)
Theorem update_prices_writes (ticker_prices : gmap string (option float))
    (ticker_row price_row : Z) (ws : worksheet) (i : nat) ticker price :
  1 ≤ price_row → answers 2 ws →
  (∀ t q, t ∈ get_tickers ws ticker_row → ticker_prices !! t = Some (Some q) →
          json_number q = true) →
  get_tickers ws ticker_row !! i = Some ticker →
  ticker_prices !! ticker = Some (Some price) →
  (update_prices ticker_prices ticker_row price_row ws).1 = true
  ∧ (update_prices ticker_prices ticker_row price_row ws).2
      !! (price_row, 1 + Z.of_nat i) = Some (CellNumber price).
Proof.
  intros Hrow Hup Hjson Hi Hp.
  destruct (update_prices_run ticker_prices ticker_row price_row ws i ticker price)
    as (cs' & Hrun & ->); [done..|].
  split; [done|].
  destruct (prepare_updates_run ticker_prices price_row (get_tickers ws ticker_row)
              Hrow 1 (cells ws)) as (cs'' & Hrun' & Hw & _); [lia|].
  rewrite Hrun in Hrun'. injection Hrun' as <-. by apply (Hw i ticker).
Qed.

(** X12. [update_prices] reports success exactly when its two requests go
    through, the price row is a row of the sheet (1 or more), some ticker
    listed by [get_tickers] has a price in the mapping and every price of a
    listed ticker is a number JSON has; when it reports failure the cells
    are as they were. *)
Theorem update_prices_succeeds_iff (ticker_prices : gmap string (option float))
    (ticker_row price_row : Z) (ws : worksheet) :
  ((update_prices ticker_prices ticker_row price_row ws).1 = true
   ↔ 1 ≤ price_row ∧ answers 2 ws
     ∧ (∃ (i : nat) ticker price,
          get_tickers ws ticker_row !! i = Some ticker
          ∧ ticker_prices !! ticker = Some (Some price))
     ∧ (∀ t q, t ∈ get_tickers ws ticker_row → ticker_prices !! t = Some (Some q) →
               json_number q = true))
  ∧ ((update_prices ticker_prices ticker_row price_row ws).1 = false →
     cells (update_prices ticker_prices ticker_row price_row ws).2 = cells ws).
Proof.
  split.
  - split.
    + unfold update_prices.
      destruct (prepare_updates ticker_prices price_row 1 (get_tickers ws ticker_row))
        as [|[range value] updates] eqn:Hupd; [done|].
      assert ((range, value) ∈ prepare_updates ticker_prices price_row 1
                                 (get_tickers ws ticker_row)) as Hin.
      { rewrite Hupd. by left. }
      apply prepare_updates_elem in Hin as (i & ticker & Hi & Hp & ->).
      unfold batch_update. rewrite <- Hupd.
      destruct (forallb _ _) eqn:Hjson; [|done].
      destruct (request_fails (after_request ws)) eqn:Hsecond; [done|].
      destruct (write_ranges _ _) as [cs'|] eqn:Hrun; [|done]. intros _.
      split_and!.
      * rewrite Hupd in Hrun. cbn [write_ranges] in Hrun.
        destruct (a1_to_rowcol _) as [rc|] eqn:Hrc in Hrun; [|done].
        by eapply a1_to_rowcol_row_positive.
      * apply answers_S. split.
        -- unfold get_tickers in Hi. by destruct (request_fails ws).
        -- apply answers_S. split; [done|]. apply Forall_nil_2.
      * by exists i, ticker, value.
      * exact (proj1 (prepare_updates_json _ _ _ _) Hjson).
    + intros (Hrow & Hup & (i & ticker & price & Hi & Hp) & Hjson).
      by destruct (update_prices_run ticker_prices ticker_row price_row ws i ticker price)
        as (cs' & _ & ->).
  - unfold update_prices.
    destruct (prepare_updates ticker_prices price_row 1 (get_tickers ws ticker_row))
      as [|u updates]; [done|].
    intros Hfail. by rewrite batch_update_failure.
Qed.

End WriteFacts.

(** X14. Column labels do not collide: two columns from 1 on with the same
    label are the same column.  A column number of 0 or less has the empty
    label. *)
Theorem get_column_letter_injective (a b : Z) :
  (1 ≤ a → 1 ≤ b → _get_column_letter a = _get_column_letter b → a = b)
  ∧ (a ≤ 0 → _get_column_letter a = EmptyString).
Proof.
  split; [|apply get_column_letter_nonpos].
  intros Ha Hb Heq.
  destruct (column_number_get_column_letter a) as [Hva _]; [lia|].
  destruct (column_number_get_column_letter b) as [Hvb _]; [lia|].
  rewrite <- Hva, <- Hvb. by rewrite Heq.
Qed.

(** ** The ticker filter *)

Lemma find_char_from_bounds (i : Z) (c : ascii) (s : string) :
  0 ≤ i →
  (find_char_from i c s = -1 ↔ lacks_char c s = true)
  ∧ (find_char_from i c s = -1 ∨ i ≤ find_char_from i c s).
Proof.
  revert i. induction s as [|a r IH]; intros i Hi; [by split; [|left]|].
  simpl. destruct (Ascii.eqb a c).
  - split; [|right; lia]. split; [lia | done].
  - destruct (IH (i + 1)) as [Hiff Hge]; [lia|]. split; [done|].
    destruct Hge as [-> | Hge]; [by left | right; lia].
Qed.

Lemma str_find_char_lacks (s : string) (c : ascii) :
  (str_find_char s c =? -1) = lacks_char c s.
Proof.
  unfold str_find_char. destruct (find_char_from_bounds 0 c s) as [Hiff _]; [lia|].
  destruct (lacks_char c s).
  - apply Z.eqb_eq. by apply Hiff.
  - apply Z.eqb_neq. intros Heq. by apply Hiff in Heq.
Qed.

Lemma filter_tickers_loop_app (skip_set tickers valid : list string) :
  filter_tickers_loop skip_set tickers valid
  = valid ++ (tickers ≫= filter_ticker skip_set).
Proof.
  revert valid. induction tickers as [|t rest IH]; intros valid.
  - cbn. by rewrite app_nil_r.
  - cbn [filter_tickers_loop]. rewrite IH. cbn. by rewrite <- app_assoc.
Qed.

Lemma filter_ticker_spec (skip_set : list string) (ticker x : string) :
  x ∈ filter_ticker skip_set ticker
  ↔ x = strip ticker ∧ x ≠ EmptyString ∧ (x ∉ skip_set) ∧ lacks_char "@" x = true.
Proof.
  unfold filter_ticker. rewrite str_find_char_lacks.
  destruct (strip ticker) as [|c r] eqn:Hs; cbn [str_truthy andb].
  { split; [by intros ?%elem_of_nil | by intros (-> & ? & _)]. }
  case_bool_decide as Hskip; cbn [negb andb].
  { split; [by intros ?%elem_of_nil | by intros (-> & _ & ? & _)]. }
  destruct (lacks_char "@" (String c r)) eqn:Hat.
  - rewrite list_elem_of_singleton. split; [by intros -> | by intros [-> _]].
  - split; [by intros ?%elem_of_nil | intros (-> & _ & _ & ?); congruence].
Qed.

Lemma filter_ticker_fixed (skip_set : list string) (x : string) :
  x ≠ EmptyString → strip x = x → x ∉ skip_set → lacks_char "@" x = true →
  filter_ticker skip_set x = [x].
Proof.
  intros Hne Hs Hskip Hat. unfold filter_ticker.
  rewrite str_find_char_lacks, Hs, Hat, bool_decide_eq_false_2 by done.
  by destruct x.
Qed.

Lemma elem_of_filter_tickers (SKIP_TICKERS tickers : list string) (x : string) :
  x ∈ _filter_tickers SKIP_TICKERS tickers
  ↔ ∃ ticker, ticker ∈ tickers ∧ x = strip ticker
              ∧ x ≠ EmptyString ∧ (x ∉ SKIP_TICKERS) ∧ lacks_char "@" x = true.
Proof.
  unfold _filter_tickers. rewrite filter_tickers_loop_app. cbn [app].
  rewrite list_elem_of_bind. split.
  - intros (ticker & Hx & Hin). apply filter_ticker_spec in Hx. by exists ticker.
  - intros (ticker & Hin & Hx). exists ticker. split; [|done].
    by apply filter_ticker_spec.
Qed.

Lemma filter_ticker_valid (skip_set : list string) (ticker : string) :
  filter_ticker skip_set ticker
  = if decide (valid_ticker skip_set (strip ticker)) then [strip ticker] else [].
Proof.
  unfold filter_ticker, valid_ticker. rewrite str_find_char_lacks.
  destruct (decide _) as [(Hne & Hskip & Hat) | Hno].
  - rewrite Hat, bool_decide_eq_false_2 by done. by destruct (strip ticker).
  - destruct (strip ticker) as [|c r] eqn:Hs; [done|]. cbn [str_truthy andb].
    case_bool_decide as Hskip; [done|]. cbn [negb andb].
    destruct (lacks_char "@" (String c r)) eqn:Hat; [|done].
    exfalso. by apply Hno.
Qed.

(** X15. [_filter_tickers] returns the stripped tickers that are not
    empty, are not skip tickers and hold no ["@"], each as often as it
    comes and in the order of the input, and nothing else. *)
Theorem filter_tickers_spec (SKIP_TICKERS tickers : list string) :
  _filter_tickers SKIP_TICKERS tickers
  = filter (valid_ticker SKIP_TICKERS) (strip <$> tickers)
  ∧ ∀ x, x ∈ _filter_tickers SKIP_TICKERS tickers
         ↔ ∃ ticker, ticker ∈ tickers ∧ x = strip ticker
                     ∧ x ≠ EmptyString ∧ (x ∉ SKIP_TICKERS) ∧ lacks_char "@" x = true.
Proof.
  split; [|intros x; apply elem_of_filter_tickers].
  unfold _filter_tickers. rewrite filter_tickers_loop_app. cbn [app].
  induction tickers as [|t rest IH]; [done|].
  cbn [mbind list_bind fmap list_fmap]. rewrite filter_cons, filter_ticker_valid.
  fold (list_bind _ _ (filter_ticker SKIP_TICKERS) rest).
  destruct (decide (valid_ticker SKIP_TICKERS (strip t))); cbn [app]; by f_equal.
Qed.

(** X16. Filtering twice is filtering once: the tickers [_filter_tickers]
    returns pass it unchanged. *)
Theorem filter_tickers_idempotent (SKIP_TICKERS tickers : list string) :
  _filter_tickers SKIP_TICKERS (_filter_tickers SKIP_TICKERS tickers)
  = _filter_tickers SKIP_TICKERS tickers.
Proof.
  unfold _filter_tickers. rewrite !filter_tickers_loop_app. cbn [app].
  induction tickers as [|t rest IH]; [done|].
  cbn. rewrite bind_app, IH. f_equal.
  destruct (filter_ticker SKIP_TICKERS t) as [|x l] eqn:Hf; [done|].
  assert (x ∈ filter_ticker SKIP_TICKERS t) as Hx by (rewrite Hf; by left).
  assert (l = []) as ->.
  { unfold filter_ticker in Hf.
    destruct (_ && _) in Hf; [by injection Hf | discriminate]. }
  apply filter_ticker_spec in Hx as (-> & Hne & Hskip & Hat).
  cbn. rewrite app_nil_r. apply filter_ticker_fixed; try done.
  apply strip_idempotent.
Qed.

(** ** One update cycle *)

Lemma update_cell_other (row col : Z) (value : cell) (ws : worksheet) (rc : Z * Z) :
  rc ≠ (row, col) → (update_cell row col value ws).2 !! rc = ws !! rc.
Proof.
  intros Hne. unfold update_cell. destruct (_ && _); [|done].
  destruct (request_fails ws); [done|].
  by apply lookup_insert_ne.
Qed.

Lemma update_cell_written (row col : Z) (value : cell) (ws : worksheet) :
  1 ≤ row → 1 ≤ col → json_value value = true → request_fails ws = false →
  (update_cell row col value ws).2 !! (row, col) = Some value.
Proof.
  intros Hrow Hcol Hjson Hup. unfold update_cell. rewrite Hjson, Hup.
  assert ((1 <=? row) && (1 <=? col) = true) as -> by lia.
  apply lookup_insert_eq.
Qed.

(** A single write makes one request or none. *)
Lemma update_cell_outages (row col : Z) (value : cell) (ws : worksheet) :
  outages (update_cell row col value ws).2 = outages ws
  ∨ outages (update_cell row col value ws).2 = outages (after_request ws).
Proof.
  unfold update_cell. destruct (_ && _); [|by left].
  destruct (request_fails ws); by right.
Qed.

Lemma update_prices_failure_unchanged `{Externals}
    (ticker_prices : gmap string (option float)) (ticker_row price_row : Z)
    (ws : worksheet) :
  (update_prices ticker_prices ticker_row price_row ws).1 = false →
  cells (update_prices ticker_prices ticker_row price_row ws).2 = cells ws.
Proof.
  unfold update_prices.
  destruct (prepare_updates ticker_prices price_row 1 (get_tickers ws ticker_row))
    as [|u updates]; [done|].
  intros Hfail. by rewrite batch_update_failure.
Qed.

(** A successful [update_prices] made two requests. *)
Lemma update_prices_success_outages `{Externals}
    (ticker_prices : gmap string (option float)) (ticker_row price_row : Z)
    (ws : worksheet) :
  (update_prices ticker_prices ticker_row price_row ws).1 = true →
  outages (update_prices ticker_prices ticker_row price_row ws).2
  = outages (after_request (after_request ws)).
Proof.
  unfold update_prices.
  destruct (prepare_updates ticker_prices price_row 1 (get_tickers ws ticker_row))
    as [|u updates]; [done|].
  unfold batch_update. destruct (forallb _ _); [|done].
  destruct (request_fails (after_request ws)); [done|].
  by destruct (write_ranges _ _).
Qed.

Section CycleFacts.
Context `{Externals} `{DataProvider} `{Config} `{Layout} `{TimeFormat}.

(** X17. An update cycle that fails leaves the cells and the scheduler as
    they were, so the next check still finds the update due.  One that
    succeeds records the instant read for the scheduler as the last update,
    whether the timestamp could be written or not; the formatted timestamp
    is in its cell when that cell is a cell of the sheet and the five
    requests a cycle makes at most all go through. *)
Theorem perform_update_outcome (timestamp_now completed_now : datetime)
    (self : StockDataApp) :
  let ok := (perform_update timestamp_now completed_now self).1 in
  let self' := (perform_update timestamp_now completed_now self).2 in
  (ok = false →
   cells (app_sheet self') = cells (app_sheet self)
   ∧ app_scheduler self' = app_scheduler self)
  ∧ (ok = true →
     last_update (app_scheduler self') = Some completed_now
     ∧ (1 ≤ TIMESTAMP_CELL.1 → 1 ≤ TIMESTAMP_CELL.2 → answers 5 (app_sheet self) →
        app_sheet self' !! TIMESTAMP_CELL
        = Some (CellText (strftime "%I:%M%p @ %Y-%m-%d" timestamp_now)))).
Proof.
  intros ok self'. subst ok self'. unfold perform_update.
  destruct (get_tickers (app_sheet self) TICKER_ROW) as [|t0 all]; [done|].
  destruct (_filter_tickers SKIP_TICKERS (t0 :: all)) as [|v0 valid]; [done|].
  destruct (get_multiple_prices (v0 :: valid) (app_world self)) as [ticker_prices w1].
  case_bool_decide; [done|].
  set (ws0 := after_request (app_sheet self)).
  pose proof (update_prices_failure_unchanged ticker_prices TICKER_ROW PRICE_ROW ws0)
    as Hfail.
  pose proof (update_prices_success_outages ticker_prices TICKER_ROW PRICE_ROW ws0)
    as Hdone.
  destruct (update_prices ticker_prices TICKER_ROW PRICE_ROW ws0)
    as [[] ws1]; cbn [negb].
  - destruct (get_exchange_rate "CAD=X" w1) as [rate w2].
    cbn [fst snd app_sheet app_scheduler]. split; [done|]. intros _.
    split; [done|]. intros Hrow Hcol Hup.
    apply answers_S in Hup as [_ Hup]. fold ws0 in Hup.
    apply answers_S in Hup as [_ [_ Hup]%answers_S].
    apply (answers_outages 2 _ ws1) in Hup; [|by apply Hdone].
    set (ws2 := match rate with
                | Some rate => (update_exchange_rate rate None ws1).2
                | None => ws1
                end).
    assert (answers 1 ws2) as [Hts _]%answers_S.
    { subst ws2. destruct rate as [rate|]; [|apply (answers_le 1 2); [lia | done]].
      unfold update_exchange_rate.
      destruct (update_cell_outages (default CAD_EXCHANGE_CELL None).1
                  (default CAD_EXCHANGE_CELL None).2 (CellNumber rate) ws1) as [Ho | Ho].
      - apply (answers_outages 1 ws1); [done|]. apply (answers_le 1 2); [lia | done].
      - apply (answers_outages 1 (after_request ws1)); [done|].
        by apply answers_S in Hup as [_ ?]. }
    unfold update_timestamp. cbn [default from_option id].
    destruct TIMESTAMP_CELL as [r c] eqn:Hcell.
    by apply update_cell_written.
  - cbn [fst snd app_sheet app_scheduler]. split; [|done]. intros _.
    split; [exact (Hfail eq_refl) | done].
Qed.

(** X18. On a sheet whose ticker row has no blank cell, an update cycle
    changes no cell but the timestamp cell, the exchange-rate cell and
    cells of the price row; and in the price row it never writes under a
    header that is blank, a skip ticker or holds an ["@"]. *)
Theorem perform_update_frame (timestamp_now completed_now : datetime)
    (self : StockDataApp) (r c : Z) :
  dense_row (app_sheet self) TICKER_ROW →
  (r, c) ≠ TIMESTAMP_CELL → (r, c) ≠ CAD_EXCHANGE_CELL →
  let header := strip (cell_text (app_sheet self !! (TICKER_ROW, c))) in
  r ≠ PRICE_ROW ∨ header = EmptyString ∨ header ∈ SKIP_TICKERS
  ∨ lacks_char "@" header = false →
  app_sheet (perform_update timestamp_now completed_now self).2 !! (r, c)
  = app_sheet self !! (r, c).
Proof.
  intros Hdense Hts Hcad header Hother. unfold perform_update.
  destruct (get_tickers (app_sheet self) TICKER_ROW) as [|t0 all] eqn:Hall; [done|].
  destruct (_filter_tickers SKIP_TICKERS (t0 :: all)) as [|v0 valid] eqn:Hvalid; [done|].
  pose proof (fetch_each_dom (v0 :: valid) ∅ (app_world self)) as Hdom.
  fold (get_multiple_prices (v0 :: valid) (app_world self)) in Hdom.
  destruct (get_multiple_prices (v0 :: valid) (app_world self)) as [ticker_prices w1].
  cbn [fst] in Hdom.
  case_bool_decide; [done|].
  set (ws0 := after_request (app_sheet self)).
  assert ((update_prices ticker_prices TICKER_ROW PRICE_ROW ws0).2 !! (r, c)
          = app_sheet self !! (r, c)) as Hprices.
  { change (app_sheet self !! (r, c)) with (ws0 !! (r, c)).
    apply update_prices_frame. intros i ticker price Hi Hp [= -> ->].
    assert (dense_row ws0 TICKER_ROW) as Hdense0 by exact Hdense.
    pose proof (get_tickers_dense _ _ _ _ Hdense0 Hi) as Hheader.
    change (ws0 !! (TICKER_ROW, 1 + Z.of_nat i))
      with (app_sheet self !! (TICKER_ROW, 1 + Z.of_nat i)) in Hheader.
    fold header in Hheader. subst ticker.
    assert (header ∈ _filter_tickers SKIP_TICKERS (t0 :: all)) as Hin.
    { assert (header ∈ dom ticker_prices) as Hd by (apply elem_of_dom; by rewrite Hp).
      rewrite Hdom, dom_empty_L, (right_id_L ∅ (∪)) in Hd.
      apply elem_of_list_to_set in Hd. by rewrite Hvalid. }
    apply elem_of_filter_tickers in Hin as (_ & _ & _ & Hne & Hskip & Hat).
    destruct Hother as [? | [? | [? | ?]]]; [done | done | done | congruence]. }
  destruct (update_prices ticker_prices TICKER_ROW PRICE_ROW ws0)
    as [[] ws1]; cbn [negb]; cbn [snd] in Hprices; [|done].
  destruct (get_exchange_rate "CAD=X" w1) as [rate w2]. cbn [snd app_sheet].
  unfold update_timestamp. cbn [default from_option id].
  destruct TIMESTAMP_CELL as [tr tc]. rewrite update_cell_other by done.
  destruct rate as [rate|]; [|done].
  unfold update_exchange_rate. cbn [default from_option id].
  destruct CAD_EXCHANGE_CELL as [cr cc]. by rewrite update_cell_other.
Qed.
End CycleFacts.

(** ** The further properties on examples *)

Section ResolverRuns.
#[local] Existing Instance sample_externals.

Lemma sample_bid_ask_no_overflow :
  no_overflow (<["bid"%string := PyInt 10]> (<["ask"%string := PyInt 12]> ∅))
    (price_fields ++ ["bid"; "ask"]%string).
Proof.
  intros field v Hin Hv Hov.
  repeat (apply elem_of_cons in Hin as [-> | Hin]);
    try (vm_compute in Hv; discriminate);
    try (vm_compute in Hv; injection Hv as <-; vm_compute in Hov; discriminate).
  by apply elem_of_nil in Hin.
Defined.

Lemma sample_bid_ask_unusable (f : string) :
  f ∈ price_fields →
  unusable (<["bid"%string := PyInt 10]> (<["ask"%string := PyInt 12]> ∅)) f.
Proof.
  intros Hin p (v & Hv & _).
  repeat (apply elem_of_cons in Hin as [-> | Hin]);
    try (vm_compute in Hv; discriminate).
  by apply elem_of_nil in Hin.
Defined.

Lemma extract_price_no_overflow_witness :
  _extract_price_from_info (<["bid"%string := PyInt 10]> (<["ask"%string := PyInt 12]> ∅))
  = Ok (Some ((10 + 12) / 2)%float).
Proof.
  destruct (extract_price_no_overflow (H := sample_externals) _ sample_bid_ask_no_overflow)
    as (_ & Hmean & _).
  apply Hmean.
  - exact sample_bid_ask_unusable.
  - exists (PyInt 10). split_and!; [by vm_compute | done | by vm_compute | by vm_compute].
  - exists (PyInt 12). split_and!; [by vm_compute | done | by vm_compute | by vm_compute].
Defined.

Lemma extract_price_sound_witness :
  let info : gmap string pyval :=
    <["bid"%string := PyInt 10]> (<["ask"%string := PyInt 12]> ∅) in
  (∃ pre field post,
     price_fields = pre ++ field :: post
     ∧ (∀ f, f ∈ pre → unusable info f) ∧ usable info field 11%float)
  ∨ ((∀ f, f ∈ price_fields → unusable info f)
     ∧ ∃ b a, usable info "bid" b ∧ usable info "ask" a
              ∧ 11%float = ((b + a) / 2)%float).
Proof.
  intros info.
  apply (extract_price_sound (H := sample_externals) info (Some 11%float)).
  by vm_compute.
Defined.

Lemma extract_price_raises_only_overflow_witness :
  let info : gmap string pyval := {[ "open"%string := PyInt (10 ^ 400) ]} in
  OverflowError = OverflowError
  ∧ ∃ field z,
      field ∈ price_fields ++ ["bid"; "ask"]%string
      ∧ info !! field = Some (PyInt z)
      ∧ float_of_int z = Raise OverflowError.
Proof.
  intros info.
  apply (extract_price_raises_only_overflow (H := sample_externals) info OverflowError).
  by vm_compute.
Defined.
End ResolverRuns.

Section FetchRuns.
#[local] Existing Instance sample_externals.
#[local] Existing Instance sample_config.

Lemma get_ticker_price_resolved_witness :
  ∃ k : nat,
    Z.of_nat k < 3
    ∧ resolves (@nth_answer scripted_provider (upper (strip "aapl ")) k
                  [LookupRaises; quote_at 5]) 5%float
    ∧ provider (get_ticker_price "aapl "
                  (@World scripted_provider [LookupRaises; quote_at 5] [])).2
      = @after_lookups scripted_provider (upper (strip "aapl ")) (S k)
          [LookupRaises; quote_at 5].
Proof.
  destruct (get_ticker_price_resolved (H0 := scripted_provider) "aapl "
              (@World scripted_provider [LookupRaises; quote_at 5] []) 5%float)
    as (_ & k & Hk & Hres & _ & Hprov & _).
  - by vm_compute.
  - exists k. split_and!; [exact Hk | exact Hres | exact Hprov].
Defined.

(** The second lookup gave the price: the first answer was no record. *)
Example get_ticker_price_second_answer :
  get_ticker_price "aapl " (@World scripted_provider [LookupRaises; quote_at 5] [])
  = (Some 5%float,
     @World scripted_provider [] [EvLookup "AAPL"; EvSleep 2; EvLookup "AAPL"])
  ∧ @nth_answer scripted_provider "AAPL" 1 [LookupRaises; quote_at 5] = quote_at 5
  ∧ @after_lookups scripted_provider "AAPL" 2 [LookupRaises; quote_at 5] = [].
Proof. split_and!; by vm_compute. Qed.

(** [" é"] and ["É" + U+00A0] have one normal form, ["É"]. *)
Lemma get_ticker_price_of_normal_form_witness :
  get_ticker_price (text [32; 233]) (@World scripted_provider [quote_at 5] [])
  = get_ticker_price (text [201; 160]) (@World scripted_provider [quote_at 5] []).
Proof.
  destruct (get_ticker_price_of_normal_form (H0 := scripted_provider)
              (text [32; 233]) (text [201; 160])
              (@World scripted_provider [quote_at 5] [])) as [_ Hsame].
  apply Hsame. by vm_compute.
Defined.

(** Text beyond ASCII: ["é"] is looked up as ["É"], ["straße"] as
    ["STRASSE"], and a ticker of no-break spaces is not looked up at all. *)
Example get_ticker_price_beyond_ascii :
  upper (strip (text [32; 233])) = text [201]
  ∧ trace (get_ticker_price (text [233]) (@World scripted_provider [quote_at 5] [])).2
    = [EvLookup (text [201])]
  ∧ upper (text [115; 116; 114; 97; 223; 101]) = "STRASSE"%string
  ∧ get_ticker_price (text [160; 160]) (@World scripted_provider [quote_at 5] [])
    = (None, @World scripted_provider [quote_at 5] []).
Proof. split_and!; by vm_compute. Qed.

Lemma msft_only_never_falsy : @never_falsy msft_only_provider.
Proof.
  intros ticker s info. cbn. unfold msft_only.
  case_bool_decide; [|discriminate]. by intros [= <-].
Defined.

Lemma get_ticker_price_retry_trace_witness :
  ∃ n : nat,
    (1 ≤ n)%nat
    ∧ trace (get_ticker_price "AAPL" (@World msft_only_provider tt [])).2
      = retry_trace "AAPL" 2 n.
Proof.
  destruct (get_ticker_price_retry_trace (H0 := msft_only_provider) "AAPL"
              (@World msft_only_provider tt []) msft_only_never_falsy)
    as (n & Hn & _ & Htr & _).
  - by vm_compute.
  - by vm_compute.
  - exists n. split; [exact Hn | exact Htr].
Defined.
End FetchRuns.

Section WaitRuns.
#[local] Existing Instance sample_config.

Lemma sample_open_hour : 0 ≤ MARKET_OPEN_HOUR < 24.
Proof. split; by vm_compute. Defined.

Lemma sample_interval : 0 < UPDATE_INTERVAL_MINUTES.
Proof. by vm_compute. Defined.

Lemma sample_evening : valid_datetime (at_time 0 17 25 30 500000).
Proof. split; by vm_compute. Defined.

Lemma get_next_update_time_in_future_witness :
  ∃ t,
    get_next_update_time (at_time 0 17 25 30 500000) = Ok t
    ∧ to_microseconds (at_time 0 17 25 30 500000) < to_microseconds t.
Proof.
  destruct (get_next_update_time_in_future (H := sample_config)
              (at_time 0 17 25 30 500000) sample_evening sample_open_hour sample_interval)
    as (t & Ht & _ & _ & _ & Hfuture & _).
  exists t. split; [exact Ht | exact Hfuture].
Defined.

Lemma wait_until_next_update_reaches_next_time_witness :
  ∃ t,
    get_next_update_time (at_time 0 17 25 30 500000) = Ok t
    ∧ match wait_until_next_update (at_time 0 17 25 30 500000) with
      | Ok (Some n) =>
          0 < n
          ∧ to_microseconds t - 1000000
            < to_microseconds (at_time 0 17 25 30 500000) + n * 1000000
            ≤ to_microseconds t
      | Ok None =>
          to_microseconds t - to_microseconds (at_time 0 17 25 30 500000) < 1000000
      | Raise _ => False
      end.
Proof.
  exact (wait_until_next_update_reaches_next_time (H := sample_config)
           (at_time 0 17 25 30 500000) sample_evening sample_open_hour sample_interval).
Defined.

Lemma wait_until_market_open_whole_seconds_witness :
  ∃ wait,
    _calculate_wait_until_market_open (at_time 0 17 25 30 500000) = Ok wait
    ∧ 0 ≤ wait ≤ 86400.
Proof.
  destruct (wait_until_market_open_whole_seconds (H := sample_config)
              (at_time 0 17 25 30 500000) sample_evening sample_open_hour)
    as (target & wait & Hwait & _ & _ & _ & Hrange & _).
  exists wait. split; [exact Hwait | exact Hrange].
Defined.

Example wait_until_market_open_evening :
  _calculate_wait_until_market_open (at_time 0 17 25 30 500000) = Ok 56069
  ∧ wait_until_next_update (at_time 0 8 59 59 500000) = Ok None.
Proof. split; by vm_compute. Qed.

Lemma waitUntilNextTime_wakes_witness :
  60 ≤ foldr Z.add 0 (waitUntilNextTime (at_time 0 17 25 30 500000))
  ∧ minute (after_seconds (at_time 0 17 25 30 500000)
              (foldr Z.add 0 (waitUntilNextTime (at_time 0 17 25 30 500000)))) mod 10 = 0.
Proof.
  destruct (waitUntilNextTime_wakes (at_time 0 17 25 30 500000) sample_evening)
    as (_ & Htotal & _ & _ & _ & Hminute & _).
  split; [exact Htotal|]. apply Hminute. by vm_compute.
Defined.

Example waitUntilNextTime_evening :
  waitUntilNextTime (at_time 0 17 25 30 500000) = [54000; 300]
  ∧ after_seconds (at_time 0 17 25 30 500000) 54300 = at_time 1 8 30 30 500000.
Proof. split; by vm_compute. Qed.
End WaitRuns.

Section WriteRuns.
#[local] Existing Instance sample_externals.

Lemma gapped_sheet_answers (n : nat) : answers n gapped_sheet.
Proof.
  unfold answers. change (outages gapped_sheet) with (@nil bool).
  destruct n; apply Forall_nil_2.
Defined.

Lemma update_prices_writes_witness :
  (update_prices {[ "MSFT"%string := Some 5%float ]} 1 2 gapped_sheet).1 = true
  ∧ (update_prices {[ "MSFT"%string := Some 5%float ]} 1 2 gapped_sheet).2
      !! (2, 1 + Z.of_nat 1) = Some (CellNumber 5).
Proof.
  apply (update_prices_writes (H := sample_externals)
           {[ "MSFT"%string := Some 5%float ]} 1 2 gapped_sheet 1 "MSFT" 5%float).
  - by vm_compute.
  - exact (gapped_sheet_answers 2).
  - intros t q _ Hq. apply lookup_singleton_Some in Hq as [_ [= <-]]. by vm_compute.
  - by vm_compute.
  - by vm_compute.
Defined.

(** A price of infinity is no JSON number: the request is never made and
    the cells stay as they were. *)
Lemma update_prices_succeeds_iff_witness :
  cells (update_prices {[ "MSFT"%string := Some infinity ]} 1 2 gapped_sheet).2
  = cells gapped_sheet.
Proof.
  destruct (update_prices_succeeds_iff (H := sample_externals)
              {[ "MSFT"%string := Some infinity ]} 1 2 gapped_sheet) as [_ Hfail].
  apply Hfail. by vm_compute.
Defined.

(** [update_prices] answers [False] and writes nothing when the price is
    infinite, when reading the ticker row fails and when the batch write
    fails. *)
Example update_prices_failures :
  update_prices {[ "MSFT"%string := Some infinity ]} 1 2 gapped_sheet
  = (false, gapped_sheet)
  ∧ update_prices {[ "MSFT"%string := Some 5%float ]} 1 2
      (Worksheet (cells gapped_sheet) [true])
    = (false, gapped_sheet)
  ∧ update_prices {[ "MSFT"%string := Some 5%float ]} 1 2
      (Worksheet (cells gapped_sheet) [false; true])
    = (false, gapped_sheet).
Proof. split_and!; by vm_compute. Qed.

Lemma get_column_letter_injective_witness : _get_column_letter (-3) = EmptyString.
Proof.
  destruct (get_column_letter_injective (-3) 1) as [_ Hempty].
  apply Hempty. by vm_compute.
Defined.

Lemma dense_sheet_dense : dense_row dense_sheet 1.
Proof.
  intros t Ht. vm_compute in Ht.
  repeat (apply elem_of_cons in Ht as [-> | Ht]; [by vm_compute|]).
  by apply elem_of_nil in Ht.
Defined.

Lemma update_prices_frame_dense_witness :
  (update_prices (<["AAPL"%string := Some 5%float]> {[ "Total"%string := None ]})
     1 3 dense_sheet).2 !! (3, 3)
  = dense_sheet !! (3, 3).
Proof.
  apply (update_prices_frame_dense (H := sample_externals) _ 1 3 dense_sheet 3 3).
  - exact dense_sheet_dense.
  - right. intros price. by vm_compute.
Defined.

(** A header cell that holds only a no-break space is blank to
    [get_tickers], as an empty one is: the row is not dense, and the ticker
    after it is numbered one column to the left. *)
Example get_tickers_no_break_space :
  let ws : worksheet :=
    <[(1, 1) := CellText "AAPL"]> (<[(1, 2) := CellText (text [160])]>
    (<[(1, 3) := CellText "MSFT"]> ∅)) in
  get_tickers ws 1 = ["AAPL"; "MSFT"]%string
  ∧ strip (cell_text (ws !! (1, 2))) = EmptyString
  ∧ (update_prices {[ "MSFT"%string := Some 5%float ]} 1 2 ws).2 !! (2, 2)
    = Some (CellNumber 5).
Proof. intros ws. split_and!; by vm_compute. Qed.
End WriteRuns.

Section CycleRuns.
#[local] Existing Instance sample_externals.
#[local] Existing Instance scripted_provider.
#[local] Existing Instance sample_config.
#[local] Existing Instance sample_layout.
#[local] Existing Instance sample_time_format.

Lemma perform_update_outcome_witness :
  cells (app_sheet (perform_update (at_time 0 9 30 0 0) (at_time 0 9 30 1 0)
                      (sample_app [LookupRaises; LookupRaises; LookupRaises] [])).2)
  = cells dense_sheet
  ∧ last_update
      (app_scheduler (perform_update (at_time 0 9 30 0 0) (at_time 0 9 30 1 0)
                        (sample_app [quote_at 5] [])).2)
    = Some (at_time 0 9 30 1 0).
Proof.
  split.
  - destruct (perform_update_outcome (at_time 0 9 30 0 0) (at_time 0 9 30 1 0)
                (sample_app [LookupRaises; LookupRaises; LookupRaises] []))
      as [Hfail _].
    apply Hfail. by vm_compute.
  - destruct (perform_update_outcome (at_time 0 9 30 0 0) (at_time 0 9 30 1 0)
                (sample_app [quote_at 5] []))
      as [_ Hok].
    apply Hok. by vm_compute.
Defined.

Lemma perform_update_frame_witness :
  app_sheet (perform_update (at_time 0 9 30 0 0) (at_time 0 9 30 1 0)
               (sample_app [quote_at 5] [])).2 !! (3, 3)
  = dense_sheet !! (3, 3).
Proof.
  apply (perform_update_frame (at_time 0 9 30 0 0) (at_time 0 9 30 1 0)
           (sample_app [quote_at 5] []) 3 3).
  - exact dense_sheet_dense.
  - by intros [=].
  - by intros [=].
  - right. right. left. apply list_elem_of_In. left. by vm_compute.
Defined.

(** A whole cycle on the sample sheet: AAPL is fetched and written under
    its header, the rate goes to A100, the timestamp to A1. *)
Example perform_update_sample :
  let self' := (perform_update (at_time 0 9 30 0 0) (at_time 0 9 30 1 0)
                  (sample_app [quote_at 5;
                               LookupReturns (Some {[ "previousClose"%string
                                                      := PyFloat 1.25 ]})] [])).2 in
  app_sheet self' !! (3, 2) = Some (CellNumber 5)
  ∧ app_sheet self' !! (100, 1) = Some (CellNumber 1.25)
  ∧ app_sheet self' !! (1, 1) = Some (CellText "9:30")
  ∧ trace (app_world self') = [EvLookup "AAPL"; EvLookup "CAD=X"].
Proof. intros self'. split_and!; by vm_compute. Qed.

(** The same cycle when the fifth request, the write of the timestamp,
    fails: the cycle still answers [True] and marks the update, and A1 keeps
    its old text. *)
Example perform_update_timestamp_outage :
  let run := perform_update (at_time 0 9 30 0 0) (at_time 0 9 30 1 0)
               (sample_app [quote_at 5;
                            LookupReturns (Some {[ "previousClose"%string
                                                   := PyFloat 1.25 ]})]
                  [false; false; false; false; true]) in
  run.1 = true
  ∧ last_update (app_scheduler run.2) = Some (at_time 0 9 30 1 0)
  ∧ app_sheet run.2 !! (3, 2) = Some (CellNumber 5)
  ∧ app_sheet run.2 !! (1, 1) = Some (CellText "09:00 @ Monday").
Proof. intros run. split_and!; by vm_compute. Qed.
End CycleRuns.
